(** * stdb: column store, OpenTSDB timestamp handling, lock guards and the
      cursor contract

    A shallow embedding of the parts of stdb whose behaviour the
    specification states:

    - [stdb/storage/column_store.h], [stdb/storage/column_store.cc]:
      [ColumnStore::create_new_column], [ColumnStore::write],
      [ColumnStore::recovery_write], [ColumnStore::iterate] and the seven
      read operations built on it, [CStoreSession::write];
    - [stdb/core/standalone_database.cc]: [StandaloneDatabase::recovery_write];
    - [stdb/protocol/protocolparser.cc]: [from_unix_time] and the timestamp
      block of [OpenTSDBProtocolParser::worker];
    - [stdb/protocol/protocolparser.cc], further down in this file:
      [ReadBuffer], [message_dispatch], [skip_element], the [PUT] case and
      the loop of [OpenTSDBProtocolParser::worker], and the rows that
      [RESPProtocolParser::worker] writes;
    - [stdb/storage/column_store.cc], [stdb/core/standalone_database.cc],
      further down: [ColumnStore::open_or_restore], the two
      [ColumnStore::close] and
      [StandaloneDatabase::recovery_create_new_column];
    - [stdb/protocol/protocolparser.cc], further down: the dictionary of
      [RESPProtocolParser];
    - [stdb/common/rwlock.h]: [LockGuard] and its four aliases;
    - [codelab/trash/storage_test.cc]: [CursorMock] and the data of
      [Test_storage_group_aggregate_query_0].

    Trees ([NBTreeExtentsList]) are shared between the column table and the
    session caches through [std::shared_ptr]; the embedding keeps them in a
    heap indexed by locations, and both tables hold locations. *)

From Stdlib Require Import ZArith List Lia Bool Sorted Floats.
From Stdlib Require Import Strings.Byte Strings.String.
From stdpp Require Import base gmap list option.

Open Scope Z_scope.

(** ** Basic types ([stdb/common/basic.h], used through their fields) *)

Module Basic.

Definition ParamId := Z.      (* u64 *)
Definition Timestamp := Z.    (* u64 *)
Definition LogicAddr := Z.    (* u64 *)

Definition u32 (x : Z) : Z := x mod 2 ^ 32.
Definition u64 (x : Z) : Z := x mod 2 ^ 64.
Definition i64 (x : Z) : Z := (x + 2 ^ 63) mod 2 ^ 64 - 2 ^ 63.

(** [Sample::payload]: the fields the sources read and write. [data] is the
    flexible array that follows the fixed part of the sample. *)
Record PData := {
  float64 : float;
  size : Z;            (* u16 *)
  type : Z;            (* u16 *)
  data : list byte
}.

Record Sample := {
  paramid : ParamId;
  timestamp : Timestamp;
  payload : PData
}.

Inductive NBTreeAppendResult :=
| OK
| OK_FLUSH_NEEDED
| FAIL_BAD_ID
| FAIL_BAD_VALUE.

Definition NBTreeAppendResult_eqb (a b : NBTreeAppendResult) : bool :=
  match a, b with
  | OK, OK | OK_FLUSH_NEEDED, OK_FLUSH_NEEDED
  | FAIL_BAD_ID, FAIL_BAD_ID | FAIL_BAD_VALUE, FAIL_BAD_VALUE => true
  | _, _ => false
  end.

(** [common::Status], by the codes the sources and the wire protocol name. *)
Inductive Status :=
| Ok
| BadArg
| BadData
| NotFound
| Overflow
| QueryParsingError
| DBError
| Cancelled
| IOError.

Definition IsOk (s : Status) : bool :=
  match s with Ok => true | _ => false end.

End Basic.
Export Basic.

(** ** The interface of [NBTreeExtentsList] that the column store calls

    [nbtree.h] is not among the sources, so the column store is embedded
    over any type of trees that offers the member functions it calls. A
    member function that may change the tree returns the new tree. The three
    overloads of [append] get three names. *)

Class NBTreeExtentsList (T : Type) := {
  (** constructor [NBTreeExtentsList(id, rescue_points, blockstore)] *)
  make_tree : ParamId -> list LogicAddr -> T;
  get_id : T -> ParamId;
  is_initialized : T -> bool;
  force_init : T -> T;
  (** [append(ts, value)] *)
  append : Timestamp -> float -> T -> NBTreeAppendResult * T;
  (** [append(ts, pdata, sz)] *)
  append_event : Timestamp -> list byte -> Z -> T -> NBTreeAppendResult * T;
  (** [append(ts, value, allow_duplicates)] *)
  append_allow : Timestamp -> float -> bool -> T -> NBTreeAppendResult * T;
  get_roots : T -> list LogicAddr
}.

(** ** [ColumnStore] and [CStoreSession] *)

Module ColumnStore.

Definition loc := positive.

Section WithTree.

Context {T : Type} {tree_ops : NBTreeExtentsList T}.

(** Constants of [basic.h] that the sources use by name only. *)
Variable PAYLOAD_FLOAT : Z.
Variable PAYLOAD_EVENT : Z.
Variable sizeof_Sample : Z.

(** The two tables of [class ColumnStore]. [columns_] holds shared pointers:
    locations of a heap of trees, of type [gmap loc T], that the functions
    below take and return. *)
Record ColumnStore := {
  columns_ : gmap ParamId loc;
  rescue_points_ : gmap ParamId (list LogicAddr)
}.

Definition empty_store : ColumnStore :=
  {| columns_ := ∅; rescue_points_ := ∅ |}.

(** [std::make_shared]: a location no tree lives at. *)
Definition make_shared (t : T) (h : gmap loc T) : loc * gmap loc T :=
  let l := fresh (dom h) in (l, <[l := t]> h).

(** [ColumnStore::create_new_column]. *)
Definition create_new_column (id : ParamId) (cs : ColumnStore) (h : gmap loc T)
  : Status * ColumnStore * gmap loc T :=
  match columns_ cs !! id with
  | Some _ => (BadArg, cs, h)
  | None =>
      let '(l, h1) := make_shared (make_tree id []) h in
      let cs1 := {| columns_ := <[id := l]> (columns_ cs);
                    rescue_points_ := rescue_points_ cs |} in
      (Ok, cs1, alter force_init l h1)
  end.

(** [std::unordered_map::insert]: an existing key keeps its value. *)
Definition cache_insert (id : ParamId) (l : loc) (c : gmap ParamId loc)
  : gmap ParamId loc :=
  match c !! id with
  | Some _ => c
  | None => <[id := l]> c
  end.

(** What [write] hands back: the return value, the vector behind
    [rescue_points], the map behind [cache_or_null] and the trees. *)
Record WriteResult := {
  wr_result : NBTreeAppendResult;
  wr_rescue_points : list LogicAddr;
  wr_cache : option (gmap ParamId loc);
  wr_heap : gmap loc T
}.

(** [u32 sz = sample.payload.size - sizeof(Sample)]. *)
Definition event_size (sample : Sample) : Z :=
  u32 (u64 (size (payload sample) - sizeof_Sample)).

(** The [if / else if] on the payload type inside [ColumnStore::write]:
    [res] starts as [OK] and no branch is taken for other types. *)
Definition write_dispatch (sample : Sample) (tree : T) : NBTreeAppendResult * T :=
  if type (payload sample) =? PAYLOAD_FLOAT then
    append (timestamp sample) (float64 (payload sample)) tree
  else if type (payload sample) =? PAYLOAD_EVENT then
    append_event (timestamp sample) (data (payload sample)) (event_size sample) tree
  else (OK, tree).

(** [ColumnStore::write]. [None] stands for a table entry whose tree is not
    in the heap, which shared ownership rules out. *)
Definition write (sample : Sample) (rescue_points : list LogicAddr)
    (cache_or_null : option (gmap ParamId loc))
    (cs : ColumnStore) (h : gmap loc T) : option WriteResult :=
  let id := paramid sample in
  match columns_ cs !! id with
  | Some l =>
      tree ← h !! l;
      let '(res, tree1) := write_dispatch sample tree in
      let rp := if NBTreeAppendResult_eqb res OK_FLUSH_NEEDED
                then get_roots tree1 else rescue_points in
      Some {| wr_result := res;
              wr_rescue_points := rp;
              wr_cache := cache_insert id l <$> cache_or_null;
              wr_heap := <[l := tree1]> h |}
  | None =>
      Some {| wr_result := FAIL_BAD_ID;
              wr_rescue_points := rescue_points;
              wr_cache := cache_or_null;
              wr_heap := h |}
  end.

(** [ColumnStore::recovery_write]: the payload type is not looked at. *)
Definition recovery_write (sample : Sample) (allow_duplicates : bool)
    (cs : ColumnStore) (h : gmap loc T)
  : option (NBTreeAppendResult * gmap loc T) :=
  let id := paramid sample in
  match columns_ cs !! id with
  | Some l =>
      tree ← h !! l;
      let '(res, tree1) :=
        append_allow (timestamp sample) (float64 (payload sample))
                     allow_duplicates tree in
      Some (res, <[l := tree1]> h)
  | None => Some (FAIL_BAD_ID, h)
  end.

(** *** [ColumnStore::iterate]

    [fn] is the lambda of the caller; [dest] holds [std::unique_ptr]s, a
    null one being [None]. The loop returns from inside at the first id
    without a column or the first status that is not [Ok]. *)
Fixpoint iterate {IterType : Type} (ids : list ParamId)
    (dest : list (option IterType))
    (fn : T -> Status * option IterType)
    (cs : ColumnStore) (h : gmap loc T)
  : option (Status * list (option IterType) * gmap loc T) :=
  match ids with
  | [] => Some (Ok, dest, h)
  | id :: rest =>
      match columns_ cs !! id with
      | Some l =>
          tree ← h !! l;
          let tree1 := if is_initialized tree then tree else force_init tree in
          let h1 := <[l := tree1]> h in
          let '(s, iter) := fn tree1 in
          if IsOk s then iterate rest (dest ++ [iter]) fn cs h1
          else Some (s, dest, h1)
      | None => Some (NotFound, dest, h)
      end
  end.

(** An id has a column when the table has an entry for it whose tree is in
    the heap. *)
Definition has_column (cs : ColumnStore) (h : gmap loc T) (id : ParamId) : Prop :=
  exists l, columns_ cs !! id = Some l /\ is_Some (h !! l).

(** *** The read operations

    The operators a tree hands out are opaque to the column store; each
    operation is embedded over the tree member function it calls. *)
Section ReadOperations.

Context {RealValuedOperator BinaryDataOperator AggregateOperator : Type}.
Context {ValueFilter AggregateFilter : Type}.

Variable search : Timestamp -> Timestamp -> T -> RealValuedOperator.
Variable search_binary : Timestamp -> Timestamp -> T -> BinaryDataOperator.
Variable filter_binary : Timestamp -> Timestamp -> list byte -> T -> BinaryDataOperator.
Variable filter_tree : Timestamp -> Timestamp -> ValueFilter -> T -> RealValuedOperator.
Variable aggregate_tree : Timestamp -> Timestamp -> T -> AggregateOperator.
Variable group_aggregate_tree : Timestamp -> Timestamp -> Timestamp -> T -> AggregateOperator.
Variable group_aggregate_filter :
  Timestamp -> Timestamp -> Timestamp -> AggregateFilter -> T -> AggregateOperator.
(** [ValueFilter::mask] and [AggregateFilter::bitmap]. *)
Variable mask : ValueFilter -> Z.
Variable bitmap : AggregateFilter -> Z.

Definition scan_fn (begin end_ : Timestamp) (elist : T)
  : Status * option RealValuedOperator :=
  (Ok, Some (search begin end_ elist)).

Definition scan (ids : list ParamId) (begin end_ : Timestamp)
    (dest : list (option RealValuedOperator)) :=
  iterate ids dest (scan_fn begin end_).

Definition scan_events_fn (begin end_ : Timestamp) (elist : T)
  : Status * option BinaryDataOperator :=
  (Ok, Some (search_binary begin end_ elist)).

Definition scan_events (ids : list ParamId) (begin end_ : Timestamp)
    (dest : list (option BinaryDataOperator)) :=
  iterate ids dest (scan_events_fn begin end_).

Definition filter_events_fn (begin end_ : Timestamp) (expr : list byte) (elist : T)
  : Status * option BinaryDataOperator :=
  (Ok, Some (filter_binary begin end_ expr elist)).

Definition filter_events (ids : list ParamId) (begin end_ : Timestamp)
    (expr : list byte) (dest : list (option BinaryDataOperator)) :=
  iterate ids dest (filter_events_fn begin end_ expr).

Definition filter_fn (begin end_ : Timestamp) (filters : gmap ParamId ValueFilter)
    (elist : T) : Status * option RealValuedOperator :=
  match filters !! get_id elist with
  | Some flt =>
      if negb (mask flt =? 0)
      then (Ok, Some (filter_tree begin end_ flt elist))
      else (Ok, Some (search begin end_ elist))
  | None => (BadArg, None)
  end.

Definition filter (ids : list ParamId) (begin end_ : Timestamp)
    (filters : gmap ParamId ValueFilter)
    (dest : list (option RealValuedOperator)) :=
  iterate ids dest (filter_fn begin end_ filters).

Definition aggregate_fn (begin end_ : Timestamp) (elist : T)
  : Status * option AggregateOperator :=
  (Ok, Some (aggregate_tree begin end_ elist)).

Definition aggregate (ids : list ParamId) (begin end_ : Timestamp)
    (dest : list (option AggregateOperator)) :=
  iterate ids dest (aggregate_fn begin end_).

Definition group_aggregate_fn (begin end_ step : Timestamp) (elist : T)
  : Status * option AggregateOperator :=
  (Ok, Some (group_aggregate_tree begin end_ step elist)).

Definition group_aggregate (ids : list ParamId) (begin end_ step : Timestamp)
    (dest : list (option AggregateOperator)) :=
  iterate ids dest (group_aggregate_fn begin end_ step).

Definition group_aggfilter_fn (begin end_ step : Timestamp)
    (filters : gmap ParamId AggregateFilter) (elist : T)
  : Status * option AggregateOperator :=
  match filters !! get_id elist with
  | Some flt =>
      if negb (bitmap flt =? 0)
      then (Ok, Some (group_aggregate_filter begin end_ step flt elist))
      else (Ok, Some (group_aggregate_tree begin end_ step elist))
  | None => (BadArg, None)
  end.

Definition group_aggfilter (ids : list ParamId) (begin end_ step : Timestamp)
    (filters : gmap ParamId AggregateFilter)
    (dest : list (option AggregateOperator)) :=
  iterate ids dest (group_aggfilter_fn begin end_ step filters).

End ReadOperations.

(** *** [CStoreSession] *)

Record CStoreSession := {
  cache_ : gmap ParamId loc
}.

Record SessionWriteResult := {
  sw_result : NBTreeAppendResult;
  sw_rescue_points : list LogicAddr;
  sw_session : CStoreSession;
  sw_heap : gmap loc T
}.

(** The cache-hit path, the same for both payload kinds up to the [append]
    overload called. *)
Definition cached_append (app : T -> NBTreeAppendResult * T) (l : loc)
    (rescue_points : list LogicAddr) (sess : CStoreSession) (h : gmap loc T)
  : option SessionWriteResult :=
  tree ← h !! l;
  let '(res, tree1) := app tree in
  let rp := if NBTreeAppendResult_eqb res OK_FLUSH_NEEDED
            then get_roots tree1 else rescue_points in
  Some {| sw_result := res; sw_rescue_points := rp;
          sw_session := sess; sw_heap := <[l := tree1]> h |}.

(** The cache-miss path: [cstore_->write(sample, rescue_points, &cache_)]. *)
Definition write_through (sample : Sample) (rescue_points : list LogicAddr)
    (sess : CStoreSession) (cs : ColumnStore) (h : gmap loc T)
  : option SessionWriteResult :=
  r ← write sample rescue_points (Some (cache_ sess)) cs h;
  Some {| sw_result := wr_result r;
          sw_rescue_points := wr_rescue_points r;
          sw_session := {| cache_ := default (cache_ sess) (wr_cache r) |};
          sw_heap := wr_heap r |}.

(** [CStoreSession::write]; [cs] is the store behind [cstore_]. *)
Definition session_write (sample : Sample) (rescue_points : list LogicAddr)
    (sess : CStoreSession) (cs : ColumnStore) (h : gmap loc T)
  : option SessionWriteResult :=
  if type (payload sample) =? PAYLOAD_FLOAT then
    match cache_ sess !! paramid sample with
    | Some l =>
        cached_append (append (timestamp sample) (float64 (payload sample)))
                      l rescue_points sess h
    | None => write_through sample rescue_points sess cs h
    end
  else if type (payload sample) =? PAYLOAD_EVENT then
    match cache_ sess !! paramid sample with
    | Some l =>
        cached_append (append_event (timestamp sample) (data (payload sample))
                                    (event_size sample))
                      l rescue_points sess h
    | None => write_through sample rescue_points sess cs h
    end
  else
    Some {| sw_result := FAIL_BAD_VALUE; sw_rescue_points := rescue_points;
            sw_session := sess; sw_heap := h |}.

End WithTree.

End ColumnStore.

(** ** A model of the trees

    [NBTreeExtentsList] ([nbtree.h], [nbtree.cc]) is missing from the
    sources. The model keeps what sections 3, 4.2 and 8 of the specification
    say about one series: the samples in append order, the ordering contract
    of [append], [OK_FLUSH_NEEDED] when a leaf is sealed, [search] over a
    half-open range in either direction, and [group_aggregate] by buckets of
    [step]. *)

Module NBTreeModel.

(** Modelled from the spec: the payload of a stored sample, a 64-bit float
    or an event blob (section 3); [nbtree.h] is missing. *)
Inductive Value :=
| VFloat (x : float)
| VEvent (bytes : list byte).

(** Modelled from the spec: the state of one [NBTreeExtentsList], which is
    missing from the sources (section 3, "NB+Tree Extents List"). The leaf
    holds a fixed number of entries and the rescue point is the address of the
    last sealed leaf; the levels above the leaves are left out. *)
Record tree := {
  t_id : ParamId;
  t_initialized : bool;
  t_sealed : list LogicAddr;              (* rescue point *)
  t_nblocks : Z;                          (* blocks written so far *)
  t_leaf : nat;                           (* entries in the open leaf *)
  t_max : Timestamp;                      (* current maximum timestamp *)
  t_stored : list (Timestamp * Value)     (* the series, in append order *)
}.

(** Modelled from the spec: the constructor of the missing
    [NBTreeExtentsList]; a column is created uninitialized (section 3,
    lifecycles). *)
Definition new_tree (id : ParamId) (rescue_points : list LogicAddr) : tree :=
  {| t_id := id; t_initialized := false; t_sealed := rescue_points;
     t_nblocks := 0; t_leaf := 0; t_max := 0; t_stored := [] |}.

(** Modelled from the spec: [force_init] of the missing [NBTreeExtentsList]
    (section 4.2). *)
Definition init (t : tree) : tree :=
  {| t_id := t_id t; t_initialized := true; t_sealed := t_sealed t;
     t_nblocks := t_nblocks t; t_leaf := t_leaf t; t_max := t_max t;
     t_stored := t_stored t |}.

Section Appends.

Variable leaf_capacity : nat.

(** Modelled from the spec: [append] of the missing [NBTreeExtentsList].
    Ordering contract (section 4.2): a timestamp below the current maximum is
    refused with [FAIL_BAD_VALUE] unless [allow] is set. An accepted entry
    goes to the open leaf; the entry that fills the leaf seals it, which is
    [OK_FLUSH_NEEDED]. *)
Definition push (ts : Timestamp) (v : Value) (allow : bool) (t : tree)
  : NBTreeAppendResult * tree :=
  if negb allow && (ts <? t_max t) then (FAIL_BAD_VALUE, init t)
  else
    let stored := t_stored t ++ [(ts, v)] in
    let top := Z.max (t_max t) ts in
    if (leaf_capacity <=? S (t_leaf t))%nat then
      (OK_FLUSH_NEEDED,
       {| t_id := t_id t; t_initialized := true;
          t_sealed := [t_nblocks t]; t_nblocks := t_nblocks t + 1;
          t_leaf := 0; t_max := top; t_stored := stored |})
    else
      (OK,
       {| t_id := t_id t; t_initialized := true;
          t_sealed := t_sealed t; t_nblocks := t_nblocks t;
          t_leaf := S (t_leaf t); t_max := top; t_stored := stored |}).

(** Modelled from the spec: [append(ts, blob_bytes)] of the missing
    [NBTreeExtentsList] (section 4.2); the blob of an event is the first [sz]
    bytes behind [pdata]. *)
Definition push_event (ts : Timestamp) (pdata : list byte) (sz : Z) (t : tree)
  : NBTreeAppendResult * tree :=
  push ts (VEvent (firstn (Z.to_nat sz) pdata)) false t.

(** Modelled from the spec: the member functions of the missing
    [NBTreeExtentsList] that the column store calls, by the definitions
    above. *)
Definition model_tree : NBTreeExtentsList tree :=
  {| make_tree := new_tree;
     get_id := t_id;
     is_initialized := t_initialized;
     force_init := init;
     append := fun ts x => push ts (VFloat x) false;
     append_event := push_event;
     append_allow := fun ts x allow => push ts (VFloat x) allow;
     get_roots := t_sealed |}.

End Appends.

(** *** Reading *)

(** Modelled from the spec: the numeric samples of a series of the missing
    [NBTreeExtentsList], the ones [search] iterates over (section 4.2). *)
Definition numeric (e : Timestamp * Value) : option (Timestamp * float) :=
  match snd e with
  | VFloat x => Some (fst e, x)
  | VEvent _ => None
  end.

(** Modelled from the spec: the numeric samples a (missing) tree stores, in
    append order. *)
Definition numeric_samples (t : tree) : list (Timestamp * float) :=
  omap numeric (t_stored t).

(** Modelled from the spec: the stored timestamps of a (missing) tree. *)
Definition timestamps (t : tree) : list Timestamp :=
  map fst (numeric_samples t).

(** Modelled from the spec: the range of [search] of the missing
    [NBTreeExtentsList] (section 4.2): [begin] is included and [end_] is not,
    in the direction from [begin] to [end_]. *)
Definition in_range (begin end_ ts : Timestamp) : bool :=
  if begin <? end_ then (begin <=? ts) && (ts <? end_)
  else (end_ <? ts) && (ts <=? begin).

(** Modelled from the spec: the place of a sample in a sequence that is
    ordered by timestamp (section 4.2): behind the samples with a lower
    timestamp, before the others. *)
Fixpoint insert_by_timestamp (s : Timestamp * float) (l : list (Timestamp * float))
  : list (Timestamp * float) :=
  match l with
  | [] => [s]
  | x :: rest =>
      if fst s <=? fst x then s :: l else x :: insert_by_timestamp s rest
  end.

(** Modelled from the spec: samples ordered by timestamp (section 4.2);
    samples with the same timestamp keep the order they come in. *)
Definition by_timestamp (l : list (Timestamp * float)) : list (Timestamp * float) :=
  fold_right insert_by_timestamp [] l.

(** Modelled from the spec: [search(begin, end)] of the missing
    [NBTreeExtentsList] (section 4.2), as the sequence the operator yields:
    the stored samples of the range, ordered by timestamp, ascending when
    [begin < end_], descending otherwise. The order is that of the
    timestamps and not that of the appends: in recovery [push] stores a
    lower timestamp behind a higher one. *)
Definition search (begin end_ : Timestamp) (t : tree) : list (Timestamp * float) :=
  let hits :=
    by_timestamp
      (List.filter (fun s => in_range begin end_ (fst s)) (numeric_samples t)) in
  if begin <? end_ then hits else rev hits.

(** Modelled from the spec: the invariant of section 3, timestamps do not
    decrease along the series of a (missing) [NBTreeExtentsList]. *)
Definition series_ordered (t : tree) : Prop :=
  Sorted Z.le (timestamps t).

(** Modelled from the spec: the timestamps of [points] are all accepted in
    normal mode by a (missing) tree whose maximum is [top]. *)
Fixpoint in_order (top : Timestamp) (points : list (Timestamp * float)) : Prop :=
  match points with
  | [] => True
  | p :: rest => top <= fst p /\ in_order (fst p) rest
  end.

(** Modelled from the spec: no stored timestamp is above the maximum the
    (missing) tree keeps for the ordering contract. *)
Definition bounded (t : tree) : Prop :=
  Forall (fun ts => ts <= t_max t) (timestamps t).

(** *** Aggregation *)

(** Modelled from the spec: the aggregate record of section 4.2; its
    declaration is missing from the sources. *)
Record AggregationResult := {
  cnt : Z;
  sum : float;
  min : float;
  min_ts : Timestamp;
  max : float;
  max_ts : Timestamp;
  first : float;
  last : float
}.

(** Modelled from the spec: the aggregate of one sample; the aggregation
    operators are missing from the sources (section 4.2). *)
Definition agg_init (ts : Timestamp) (x : float) : AggregationResult :=
  {| cnt := 1; sum := x; min := x; min_ts := ts; max := x; max_ts := ts;
     first := x; last := x |}.

(** Modelled from the spec: one more sample folded into an aggregate, the
    straightforward fold of section 8 (property 8); the aggregation operators
    are missing from the sources. *)
Definition agg_add (a : AggregationResult) (ts : Timestamp) (x : float)
  : AggregationResult :=
  {| cnt := cnt a + 1;
     sum := PrimFloat.add (sum a) x;
     min := if PrimFloat.ltb x (min a) then x else min a;
     min_ts := if PrimFloat.ltb x (min a) then ts else min_ts a;
     max := if PrimFloat.ltb (max a) x then x else max a;
     max_ts := if PrimFloat.ltb (max a) x then ts else max_ts a;
     first := first a;
     last := x |}.

(** Modelled from the spec: the pass of the missing group-aggregate
    operator over the samples of the range (section 4.6); a bucket is emitted
    when the bucket number of the next sample differs from the open one. *)
Fixpoint group_buckets (bucket_of : Timestamp -> Z)
    (hits : list (Timestamp * float)) (open : option (Z * AggregationResult))
  : list (Z * AggregationResult) :=
  match hits with
  | [] => match open with Some b => [b] | None => [] end
  | (ts, x) :: rest =>
      let k := bucket_of ts in
      match open with
      | Some (k0, a) =>
          if k =? k0 then group_buckets bucket_of rest (Some (k0, agg_add a ts x))
          else (k0, a) :: group_buckets bucket_of rest (Some (k, agg_init ts x))
      | None => group_buckets bucket_of rest (Some (k, agg_init ts x))
      end
  end.

(** Modelled from the spec: [ts] is the timestamp of a sample of [hits]
    that falls in bucket [k] of the (missing) group-aggregate operator. *)
Definition from_bucket (bucket_of : Timestamp -> Z)
    (hits : list (Timestamp * float)) (k : Z) (ts : Timestamp) : Prop :=
  bucket_of ts = k /\ In ts (map fst hits).

(** Modelled from the spec: [group_aggregate(begin, end, step)] of the
    missing [NBTreeExtentsList]. Buckets are counted from [begin] in the
    direction of the range, as section 8 (property 9, scenario S5) and the
    rows [Test_storage_group_aggregate_query_0] expects have them. *)
Definition group_aggregate (begin end_ step : Timestamp) (t : tree)
  : list (Timestamp * AggregationResult) :=
  let hits := search begin end_ t in
  if begin <? end_ then
    map (fun b => (begin + fst b * step, snd b))
        (group_buckets (fun ts => (ts - begin) / step) hits None)
  else
    map (fun b => (begin - fst b * step, snd b))
        (group_buckets (fun ts => (begin - ts) / step) hits None).

(** Modelled from the spec: the bucket rule in the words of sections 4.2
    and 4.6, [floor(ts / step) * step], for comparison with
    [group_aggregate]; the operator itself is missing from the sources. *)
Definition group_aggregate_zero_anchored (begin end_ step : Timestamp) (t : tree)
  : list (Timestamp * AggregationResult) :=
  map (fun b => (fst b * step, snd b))
      (group_buckets (fun ts => ts / step) (search begin end_ t) None).

(** Modelled from the spec: [aggregate(begin, end)] of the missing
    [NBTreeExtentsList], the fold over the whole range (section 4.2). *)
Definition aggregate (begin end_ : Timestamp) (t : tree)
  : option AggregationResult :=
  match search begin end_ t with
  | [] => None
  | (ts, x) :: rest => Some (fold_left (fun a s => agg_add a (fst s) (snd s)) rest (agg_init ts x))
  end.

(** Modelled from the spec: [ValueFilter], whose declaration is missing; a
    bitmap over GT, LT, GE, LE (bits 0 to 3 in that order) with one bound
    each (section 4.2). *)
Record ValueFilter := {
  vf_mask : Z;
  vf_gt : float;
  vf_lt : float;
  vf_ge : float;
  vf_le : float
}.

(** Modelled from the spec: the bounds of a [ValueFilter] are combined with
    AND (section 4.2); the filter operator is missing from the sources. *)
Definition passes (flt : ValueFilter) (x : float) : bool :=
  (negb (Z.testbit (vf_mask flt) 0) || PrimFloat.ltb (vf_gt flt) x)
  && (negb (Z.testbit (vf_mask flt) 1) || PrimFloat.ltb x (vf_lt flt))
  && (negb (Z.testbit (vf_mask flt) 2) || PrimFloat.leb (vf_ge flt) x)
  && (negb (Z.testbit (vf_mask flt) 3) || PrimFloat.leb x (vf_le flt)).

(** Modelled from the spec: [filter(begin, end, ValueFilter)] of the missing
    [NBTreeExtentsList] (section 4.2). *)
Definition filter_range (begin end_ : Timestamp) (flt : ValueFilter) (t : tree)
  : list (Timestamp * float) :=
  List.filter (fun s => passes flt (snd s)) (search begin end_ t).

End NBTreeModel.

(** ** [StandaloneDatabase] ([stdb/core/standalone_database.cc]) *)

Module StandaloneDatabase.

Section WithTree.

Context {T : Type} {tree_ops : NBTreeExtentsList T}.

(** [StandaloneDatabase::recovery_write]: the body is empty. Control flows
    off the end of a function that returns [NBTreeAppendResult], so there is
    no return value ([None]), and no store and no tree is touched. *)
Definition recovery_write (sample : Sample) (allow_duplicates : bool)
    (cs : ColumnStore.ColumnStore) (h : gmap ColumnStore.loc T)
  : option NBTreeAppendResult * gmap ColumnStore.loc T :=
  (None, h).

End WithTree.

End StandaloneDatabase.

(** ** The timestamp of an OpenTSDB [put] ([stdb/protocol/protocolparser.cc]) *)

Module OpenTSDB.

Definition ULLONG_MAX : Z := 2 ^ 64 - 1.

Definition code (c : byte) : Z := Z.of_N (Byte.to_N c).

Definition isspace (c : byte) : bool :=
  (code c =? 32) || ((9 <=? code c) && (code c <=? 13)).

Definition digit_of (c : byte) : option Z :=
  if (48 <=? code c) && (code c <=? 57) then Some (code c - 48) else None.

Fixpoint skip_space (s : list byte) : list byte :=
  match s with
  | c :: rest => if isspace c then skip_space rest else s
  | [] => []
  end.

(** The longest prefix of decimal digits, as a number. *)
Fixpoint digits_value (s : list byte) (acc : Z) : Z :=
  match s with
  | c :: rest =>
      match digit_of c with
      | Some d => digits_value rest (acc * 10 + d)
      | None => acc
      end
  | [] => acc
  end.

(** [strtoull(s, &endptr, 10)] of the C library on the bytes before the
    terminator: white space, an optional sign, decimal digits; 0 when there
    is no digit, [ULLONG_MAX] when the number does not fit, and the negation
    in 64 bits after a minus sign. *)
Definition strtoull (s : list byte) : Z :=
  let s1 := skip_space s in
  let '(neg, s2) :=
    match s1 with
    | c :: rest =>
        if code c =? 45 then (true, rest)
        else if code c =? 43 then (false, rest)
        else (false, s1)
    | [] => (false, [])
    end in
  let v := digits_value s2 0 in
  if ULLONG_MAX <? v then ULLONG_MAX
  else if neg then u64 (- v) else v.

(** [from_unix_time]: the duration since the epoch of [from_time_t(ts)] in
    nanoseconds, [ts] going through the signed [std::time_t]. *)
Definition from_unix_time (ts : Z) : Timestamp :=
  u64 (i64 ts * 1000000000).

Section Worker.

(** [Utility::parse_timestamp(pbuf, &sample)], not among the sources: the
    status and the timestamp it leaves in the sample. *)
Variable parse_timestamp : list byte -> Timestamp -> Status * Timestamp.

(** The block "try to parse as Unix timestamp first" of
    [OpenTSDBProtocolParser::worker]. [token] is the timestamp element
    without its trailing blanks ([pbuf[0 .. eix)]), [rest] is what follows it
    in the buffer. The result is [sample.timestamp], or the message of the
    [ProtocolParserError] thrown. *)
Definition put_timestamp (token rest : list byte) : Timestamp + string :=
  let result := strtoull token in
  let err := result =? 0 in
  let result1 := if result <? 4294967295 (* 0xFFFFFFFF *)
                 then from_unix_time result else result in
  if err then
    let '(status, ts) := parse_timestamp (token ++ rest) result1 in
    if IsOk status then inl ts
    else inr "put: invalid timestamp format"%string
  else inl result1.

End Worker.

(** A stand-in for [Utility::parse_timestamp] that accepts nothing. *)
Definition reject_all (s : list byte) (ts : Timestamp) : Status * Timestamp :=
  (BadData, ts).

(** The decimal numeral of a number, for stating facts about tokens. *)
Definition is_digit (c : byte) : bool :=
  match digit_of c with Some _ => true | None => false end.

Definition numeral_value (s : list byte) : Z :=
  fold_left (fun acc c => acc * 10 + (code c - 48)) s 0.

End OpenTSDB.

(** ** Scoped lock guards ([stdb/common/rwlock.h]) *)

Module RWLock.

(** The member functions of [RWLock] that take no argument and return
    nothing, the ones a guard can be instantiated with. *)
Inductive method :=
| rdlock
| wrlock
| unlock.

(** What a lock does when a member function is called on it; [rwlock.cc] is
    not among the sources, so this is left to the instance. [None] is a call
    that does not return (the caller blocks). *)
Class RWLockOps (L : Type) := {
  invoke : method -> L -> option L
}.

(** An instantiation [LockGuard<RWLock, on_enter>]. *)
Record LockGuard := {
  on_enter : method
}.

Definition UniqueLock : LockGuard := {| on_enter := wrlock |}.
Definition SharedLock : LockGuard := {| on_enter := wrlock |}.
Definition ReadLockGuard : LockGuard := {| on_enter := rdlock |}.
Definition WriteLockGuard : LockGuard := {| on_enter := wrlock |}.

(** Constructor [(lock.*on_enter)()] and destructor [lock.unlock()]. *)
Definition construct {L} {lock_ops : RWLockOps L} (g : LockGuard) (lock : L) : option L :=
  invoke (on_enter g) lock.

Definition destruct_guard {L} {lock_ops : RWLockOps L} (g : LockGuard) (lock : L) : option L :=
  invoke unlock lock.

(** A lock that records the calls made on it. *)
Definition call_log : RWLockOps (list method) :=
  {| invoke := fun m log => Some (log ++ [m]) |}.

(** Modelled from the spec: the member functions of [RWLock] ([rwlock.cc])
    are missing; section 9 names the lock a pthread RW-lock, held by any
    number of readers or by one writer. *)
Record pthread_rwlock := {
  readers : nat;
  writer : bool
}.

Definition pthread_invoke (m : method) (l : pthread_rwlock) : option pthread_rwlock :=
  match m with
  | rdlock =>
      if writer l then None
      else Some {| readers := S (readers l); writer := false |}
  | wrlock =>
      if writer l || (0 <? readers l)%nat then None
      else Some {| readers := 0; writer := true |}
  | unlock =>
      if writer l then Some {| readers := readers l; writer := false |}
      else Some {| readers := pred (readers l); writer := false |}
  end.

Definition pthread_ops : RWLockOps pthread_rwlock :=
  {| invoke := pthread_invoke |}.

Definition unlocked : pthread_rwlock := {| readers := 0; writer := false |}.

(** Two guards of the same instantiation taken one after the other on a
    lock, as two readers of the index would. *)
Definition acquire_twice {L} {lock_ops : RWLockOps L} (g : LockGuard) (lock : L) : option L :=
  construct g lock ≫= construct g.

End RWLock.

(** ** The cursor of a query *)

Module Cursor.

(** The push interface [InternalCursor]. [None] is a call that does not
    return (the process is aborted). *)
Class InternalCursor (C : Type) := {
  put : Sample -> C -> option (bool * C);
  complete : C -> option C;
  set_error : Status -> C -> option C;
  set_error_msg : Status -> string -> C -> option C
}.

(** *** [CursorMock] ([codelab/trash/storage_test.cc]) *)

Section Mock.

(** [PData::TUPLE_BIT], the bit pattern of a double ([memcpy]) and the
    doubles behind [payload.data] ([reinterpret_cast]). *)
Variable TUPLE_BIT : Z.
Variable double_bits : float -> Z.
Variable tuple_elem : list byte -> nat -> float.

Record CursorMock := {
  done : bool;
  samples : list Sample;
  tuples : list (list float);
  error : Status;
  error_msg : string
}.

Definition new_mock : CursorMock :=
  {| done := false; samples := []; tuples := []; error := Ok;
     error_msg := EmptyString |}.

(** [1 << ix], an [int], widened to 64 bits for [&]: bit 31 is the sign
    and fills the upper half. A shift by 32 or more is undefined in C++;
    on x86-64 the shift instruction takes the count modulo 32, and the
    embedding follows it. *)
Definition int_bit (ix : nat) : Z :=
  u64 ((2 ^ (Z.of_nat ix mod 32) + 2 ^ 31) mod 2 ^ 32 - 2 ^ 31).

(** The loop over [nelements] that fills [outtup]. *)
Fixpoint unpack_tuple (bits : Z) (tuple : list byte) (ix tup_ix n : nat)
  : list float :=
  match n with
  | O => []
  | S n' =>
      if negb (Z.land bits (int_bit ix) =? 0)
      then tuple_elem tuple tup_ix :: unpack_tuple bits tuple (S ix) (S tup_ix) n'
      else nan :: unpack_tuple bits tuple (S ix) tup_ix n'
  end.

(** Each member function starts with [if (done) LOG(FATAL)], which aborts. *)
Definition mock_put (val : Sample) (m : CursorMock) : option (bool * CursorMock) :=
  if done m then None
  else
    let tuples1 :=
      if negb (Z.land (type (payload val)) TUPLE_BIT =? 0) then
        let bits := double_bits (float64 (payload val)) in
        let nelements := Z.to_nat (Z.shiftr bits 58) in
        tuples m ++ [unpack_tuple bits (data (payload val)) 0 0 nelements]
      else tuples m in
    Some (true,
          {| done := false; samples := samples m ++ [val]; tuples := tuples1;
             error := error m; error_msg := error_msg m |}).

Definition mock_complete (m : CursorMock) : option CursorMock :=
  if done m then None
  else Some {| done := true; samples := samples m; tuples := tuples m;
               error := error m; error_msg := error_msg m |}.

Definition mock_set_error (error_code : Status) (m : CursorMock) : option CursorMock :=
  if done m then None
  else Some {| done := true; samples := samples m; tuples := tuples m;
               error := error_code; error_msg := error_msg m |}.

Definition mock_set_error_msg (error_code : Status) (error_message : string)
    (m : CursorMock) : option CursorMock :=
  if done m then None
  else Some {| done := true; samples := samples m; tuples := tuples m;
               error := error_code; error_msg := error_message |}.

Definition cursor_mock : InternalCursor CursorMock :=
  {| put := mock_put; complete := mock_complete;
     set_error := mock_set_error; set_error_msg := mock_set_error_msg |}.

End Mock.

(** *** A cursor that records the calls it receives *)

Inductive call :=
| Put (s : Sample)
| Complete
| SetError (st : Status)
| SetErrorMsg (st : Status) (msg : string).

Definition terminating (c : call) : bool :=
  match c with Put _ => false | _ => true end.

(** [answer] decides what [put] returns, from the calls so far. *)
Definition recorder (answer : list call -> Sample -> bool)
  : InternalCursor (list call) :=
  {| put := fun s log => Some (answer log s, log ++ [Put s]);
     complete := fun log => Some (log ++ [Complete]);
     set_error := fun st log => Some (log ++ [SetError st]);
     set_error_msg := fun st msg log => Some (log ++ [SetErrorMsg st msg]) |}.

(** *** The engine's side of the contract

    The query engine ([Storage::query], the query processors and the
    operator pipeline) is missing from the sources. Sections 4.6, 5 and 7
    say what reaches the cursor: a query that does not parse ends with
    [set_error(QueryParsingError, msg)]; otherwise the operators push their
    samples batch by batch with [put], the cancel flag is looked at between
    batches and gives [set_error(Cancelled)], an operator that fails bubbles
    its status through [set_error], a [put] that returns false stops further
    pushes, and the query ends with [complete]. *)

(** Modelled from the spec: what the missing operator pipeline produces in
    one batch, samples or the status of an operator that failed (section
    7). *)
Inductive batch :=
| Samples (ss : list Sample)
| Failed (st : Status).

(** Modelled from the spec: one round of the missing engine, the cancel
    flag it reads between batches and the batch (section 5). *)
Record step := {
  cancelled : bool;     (* the cancel flag, read before the batch *)
  outcome : batch
}.

(** Modelled from the spec: what the missing planner makes of a query
    string, a parse error or a topology to run (section 4.6). *)
Inductive plan :=
| ParseError (msg : string)
| Topology (steps : list step).

Section Engine.

Context {C : Type} {cursor_ops : InternalCursor C}.

(** Modelled from the spec: the pushes of one batch by the missing
    operators; they stop at the first [put] that returns false (section 5,
    backpressure). *)
Fixpoint push_all (ss : list Sample) (c : C) : option (bool * C) :=
  match ss with
  | [] => Some (true, c)
  | s :: rest =>
      match put s c with
      | Some (true, c1) => push_all rest c1
      | Some (false, c1) => Some (false, c1)
      | None => None
      end
  end.

(** Modelled from the spec: the missing engine running the batches of a
    parsed query (sections 5 and 7). *)
Fixpoint run_steps (steps : list step) (c : C) : option C :=
  match steps with
  | [] => complete c
  | s :: rest =>
      if cancelled s then set_error Cancelled c
      else
        match outcome s with
        | Failed st => set_error st c
        | Samples ss =>
            match push_all ss c with
            | Some (true, c1) => run_steps rest c1
            | Some (false, c1) => complete c1
            | None => None
            end
        end
  end.

(** Modelled from the spec: one query execution of the missing
    [Storage::query] (section 4.6). *)
Definition query (p : plan) (c : C) : option C :=
  match p with
  | ParseError msg => set_error_msg QueryParsingError msg c
  | Topology steps => run_steps steps c
  end.

End Engine.

End Cursor.

(** ** Concrete stores and the data of the tests *)

Module Fixtures.

Import ColumnStore NBTreeModel.

(** Stand-ins for the constants of [basic.h]: two distinct payload tags and
    a size of the fixed part of a sample. *)
Definition P_FLOAT : Z := 1.
Definition P_EVENT : Z := 2.
Definition P_TUPLE : Z := 3.
Definition SIZEOF_SAMPLE : Z := 32.

(** Trees whose leaf holds two entries. *)
Definition small_tree : NBTreeExtentsList tree := model_tree 2.

Definition float_sample (id : ParamId) (ts : Timestamp) (x : float) : Sample :=
  {| paramid := id; timestamp := ts;
     payload := {| float64 := x; size := SIZEOF_SAMPLE; type := P_FLOAT;
                   data := [] |} |}.

Definition event_sample (id : ParamId) (ts : Timestamp) (blob : list byte) : Sample :=
  {| paramid := id; timestamp := ts;
     payload := {| float64 := 0; size := SIZEOF_SAMPLE + Z.of_nat (length blob);
                   type := P_EVENT; data := blob |} |}.

Definition tuple_sample (id : ParamId) (ts : Timestamp) : Sample :=
  {| paramid := id; timestamp := ts;
     payload := {| float64 := 0; size := SIZEOF_SAMPLE; type := P_TUPLE;
                   data := [] |} |}.

(** A store with one column, id 42, made by [create_new_column]. *)
Definition store42 : ColumnStore * gmap loc tree :=
  let r := create_new_column (tree_ops := small_tree) 42 empty_store ∅ in
  (snd (fst r), snd r).

Definition cs42 : ColumnStore := fst store42.
Definition heap42 : gmap loc tree := snd store42.
Definition loc42 : loc := fresh (dom (∅ : gmap loc tree)).
Definition tree42 : tree := init (new_tree 42 []).

Definition boom : list byte := list_byte_of_string "boom".

Definition fixture_write :=
  write (tree_ops := small_tree) P_FLOAT P_EVENT SIZEOF_SAMPLE.

Definition fixture_session_write :=
  session_write (tree_ops := small_tree) P_FLOAT P_EVENT SIZEOF_SAMPLE.

(** The heap after writing a list of samples through [ColumnStore::write],
    whatever the results. *)
Definition write_all (ss : list Sample) (cs : ColumnStore) (h : gmap loc tree)
  : gmap loc tree :=
  fold_left (fun h0 s => from_option wr_heap h0 (fixture_write s [] None cs h0)) ss h.

(** A series on column 42, written sample by sample. *)
Definition heap5 : gmap loc tree :=
  write_all [float_sample 42 1 10; float_sample 42 2 20; float_sample 42 2 21;
             float_sample 42 5 50; float_sample 42 9 90] cs42 heap42.

Definition tree5 : tree := default tree42 (heap5 !! loc42).

(** The heap after replaying a list of samples through
    [ColumnStore::recovery_write] with duplicates allowed, whatever the
    results. *)
Definition replay_all (ss : list Sample) (cs : ColumnStore) (h : gmap loc tree)
  : gmap loc tree :=
  fold_left (fun h0 s =>
               from_option snd h0 (recovery_write (tree_ops := small_tree) s true cs h0))
            ss h.

(** Column 42 after the samples 5 and 9 were written and the samples 1, 5
    and 7 replayed behind them: stored in the order 5, 9, 1, 5, 7. *)
Definition heap_replayed : gmap loc tree :=
  replay_all [float_sample 42 1 10; float_sample 42 5 51; float_sample 42 7 70] cs42
             (write_all [float_sample 42 5 50; float_sample 42 9 90] cs42 heap42).

Definition tree_replayed : tree := default tree42 (heap_replayed !! loc42).

(** [fill_data(session, begin, end, names)] of the tests for one series:
    the timestamps of [begin, end) with the value [double(ts) / 10.0], and
    the timestamps [test_storage_read_query] expects back. *)
Definition range_points (begin end_ : Timestamp) : list (Timestamp * float) :=
  map (fun ts => (ts, PrimFloat.div (PrimFloat.of_uint63 (Uint63.of_Z ts)) 10))
      (map (fun i => begin + Z.of_nat i) (seq 0 (Z.to_nat (end_ - begin)))).

Definition fill_range (begin end_ : Timestamp) (id : ParamId) (cs : ColumnStore)
    (h : gmap loc tree) : gmap loc tree :=
  write_all (map (fun p => float_sample id (fst p) (snd p)) (range_points begin end_)) cs h.

Definition read_query_expected (begin end_ : Timestamp) : list Timestamp :=
  if begin <? end_
  then map (fun i => begin + Z.of_nat i) (seq 0 (Z.to_nat (end_ - begin)))
  else map (fun i => begin - 1 - Z.of_nat i) (seq 0 (Z.to_nat (begin - end_ - 1))).

(** The timestamps of the operators a [scan] of column 42 hands out. *)
Definition scanned_timestamps (begin end_ : Timestamp) (h : gmap loc tree)
  : option (list (list Timestamp)) :=
  r ← scan (tree_ops := small_tree) search [42] begin end_ [] cs42 h;
  Some (map (fun op => map fst (default [] op)) (snd (fst r))).

(** The data of [Test_storage_group_aggregate_query_0]
    ([codelab/trash/storage_test.cc]): 10000 samples per series, the query
    range and step, and the rows of [expected] for its first query. *)
Definition BASE_TS : Timestamp := 100000.
Definition STEP_TS : Timestamp := 1000.
Definition BASE_X : float := 1000.
Definition STEP_X : float := 10.

Definition of_int (i : Z) : float := PrimFloat.of_uint63 (Uint63.of_Z i).

(** The values of [i] in [for (int i = 0; i < 10000; i++)]. *)
Fixpoint upto (n : nat) (i : Z) : list Z :=
  match n with
  | O => []
  | S n' => i :: upto n' (i + 1)
  end.

Definition indices : list Z := upto (Z.to_nat 10000) 0.

Definition tss : list Timestamp :=
  map (fun i => BASE_TS + i * STEP_TS) indices.

Definition xss : list float :=
  map (fun i => PrimFloat.add BASE_X (PrimFloat.mul (of_int i) STEP_X)) indices.

Definition query_from : Timestamp := 100000.
Definition query_to : Timestamp := 10100000.
Definition query_step : Timestamp := 4000000.

Definition expected : list (string * Timestamp * float) :=
  [ ("cpu.user:min group=0 key=0"%string, 100000, 1000%float);
    ("cpu.user:min group=0 key=1"%string, 100000, 1000%float);
    ("cpu.user:min group=1 key=2"%string, 100000, 1000%float);
    ("cpu.user:min group=1 key=3"%string, 100000, 1000%float);
    ("cpu.user:min group=0 key=0"%string, 4100000, 41000%float);
    ("cpu.user:min group=0 key=1"%string, 4100000, 41000%float);
    ("cpu.user:min group=1 key=2"%string, 4100000, 41000%float);
    ("cpu.user:min group=1 key=3"%string, 4100000, 41000%float);
    ("cpu.user:min group=0 key=0"%string, 8100000, 81000%float);
    ("cpu.user:min group=0 key=1"%string, 8100000, 81000%float);
    ("cpu.user:min group=1 key=2"%string, 8100000, 81000%float);
    ("cpu.user:min group=1 key=3"%string, 8100000, 81000%float) ].

(** The rows of [expected] that belong to one series, without the name. *)
Definition expected_of (name : string) : list (Timestamp * float) :=
  map (fun row => (snd (fst row), snd row))
      (List.filter (fun row => String.eqb (fst (fst row)) name) expected).

(** [fill_data] for one series: every [(ts, xs)] pair is written to the
    column of the series. *)
Definition fill_data (id : ParamId) (cs : ColumnStore) (h : gmap loc tree)
  : gmap loc tree :=
  write_all (map (fun p => float_sample id (fst p) (snd p)) (combine tss xss)) cs h.

(** The samples a tree holds after [points] were appended to a new one. *)
Definition stored_points (points : list (Timestamp * float)) : list (Timestamp * Value) :=
  map (fun p => (fst p, VFloat (snd p))) points.

Definition test_heap : gmap loc tree := fill_data 42 cs42 heap42.
Definition test_tree : tree := default tree42 (test_heap !! loc42).

(** Timestamp and minimum of each bucket of an aggregate operator. *)
Definition bucket_minima (rows : list (Timestamp * AggregationResult))
  : list (Timestamp * float) :=
  map (fun b => (fst b, min (snd b))) rows.

End Fixtures.

(** ** [ReadBuffer] ([stdb/protocol/protocolparser.cc]) *)

Module ReadBuffer.


(** The members of [class ReadBuffer]; the positions are [u32]. *)
Record ReadBuffer := {
  BUFFER_SIZE : Z;
  buffer_ : list byte;
  rpos_ : Z;
  wpos_ : Z;
  cons_ : Z;
  buffers_allocated_ : Z
}.

(** How a member function ends: with a value, with a
    [ProtocolParserError(message, pos)] thrown, or in a failed [assert]. *)
Inductive result (A : Type) :=
| Value (a : A)
| Thrown (message : list byte) (pos : Z)
| AssertionFailed.

Arguments Value {A} a.
Arguments Thrown {A} message pos.
Arguments AssertionFailed {A}.

Definition i32 (x : Z) : Z := (x + 2 ^ 31) mod 2 ^ 32 - 2 ^ 31.


(** [buffer_[i]]; outside the vector, where C++ leaves the read undefined,
    the embedding reads a zero byte. *)
Definition at_pos (i : Z) (b : list byte) : byte :=
  nth (Z.to_nat i) b x00.

(** The bytes of [[from, to)]. *)
Definition slice (from to : Z) (b : list byte) : list byte :=
  firstn (Z.to_nat (to - from)) (skipn (Z.to_nat from) b).

Definition with_rpos (rb : ReadBuffer) (rpos : Z) : ReadBuffer :=
  {| BUFFER_SIZE := BUFFER_SIZE rb; buffer_ := buffer_ rb; rpos_ := rpos;
     wpos_ := wpos_ rb; cons_ := cons_ rb;
     buffers_allocated_ := buffers_allocated_ rb |}.

Definition LF : byte := x0a.
Definition CR : byte := x0d.

(** The scan of [get_error_context]: the frame from [origin] up to the
    third newline, which is left out, or to [end]. *)
Fixpoint context_frame (frame : list byte) (nlcnt : Z) : list byte :=
  match frame with
  | [] => []
  | c :: rest =>
      if Byte.eqb c LF then
        if nlcnt + 1 =? 3 then [] else c :: context_frame rest (nlcnt + 1)
      else c :: context_frame rest nlcnt
  end.

(** [boost::algorithm::replace_all] for a pattern of one byte. *)
Definition replace_all (pattern : byte) (by_ : list byte) (s : list byte) : list byte :=
  flat_map (fun c => if Byte.eqb c pattern then by_ else [c]) s.

(** [ReadBuffer::get_error_context]. *)
Definition get_error_context (error_message : list byte) (rb : ReadBuffer)
  : list byte * Z :=
  let err := context_frame (slice (cons_ rb) (wpos_ rb) (buffer_ rb)) 0 in
  let err1 := replace_all CR (list_byte_of_string "\r") err in
  let err2 := replace_all LF (list_byte_of_string "\n") err1 in
  (error_message ++ list_byte_of_string " - " ++ err2, 0).

Definition end_of_stream (rb : ReadBuffer) {A} : result A :=
  let ctx := get_error_context (list_byte_of_string "unexpected end of stream") rb in
  Thrown (fst ctx) (snd ctx).

(** [ReadBuffer::get]. *)
Definition get (rb : ReadBuffer) : result (byte * ReadBuffer) :=
  if rpos_ rb =? wpos_ rb then end_of_stream rb
  else Value (at_pos (rpos_ rb) (buffer_ rb), with_rpos rb (u32 (rpos_ rb + 1))).

(** [ReadBuffer::pick]. *)
Definition pick (rb : ReadBuffer) : result byte :=
  if rpos_ rb =? wpos_ rb then end_of_stream rb
  else Value (at_pos (rpos_ rb) (buffer_ rb)).

(** [ReadBuffer::is_eof]. *)
Definition is_eof (rb : ReadBuffer) : bool := rpos_ rb =? wpos_ rb.

(** [ReadBuffer::read]: the return value, the bytes copied to [buffer] and
    the reader afterwards. *)
Definition read (buffer_len : Z) (rb : ReadBuffer)
  : result (Z * list byte * ReadBuffer) :=
  if negb (buffer_len <? 4294967296) then AssertionFailed
  else
    let to_read := Z.min (u32 buffer_len) (u32 (wpos_ rb - rpos_ rb)) in
    Value (i32 to_read,
           slice (rpos_ rb) (rpos_ rb + to_read) (buffer_ rb),
           with_rpos rb (u32 (rpos_ rb + to_read))).

(** The index of the first newline. *)
Fixpoint line_end (l : list byte) : option nat :=
  match l with
  | [] => None
  | c :: rest => if Byte.eqb c LF then Some O else S <$> line_end rest
  end.

(** [ReadBuffer::read_line]: the return value, the bytes copied to [buffer]
    and the reader afterwards. *)
Definition read_line (quota : Z) (rb : ReadBuffer)
  : result (Z * list byte * ReadBuffer) :=
  if negb (quota <? 4294967296) then AssertionFailed
  else
    let available := u32 (wpos_ rb - rpos_ rb) in
    let to_read := Z.min (u32 quota) available in
    let window := slice (rpos_ rb) (rpos_ rb + to_read) (buffer_ rb) in
    match line_end window with
    | Some i =>
        let bytes_copied := u32 (Z.of_nat i + 1) in
        Value (i32 bytes_copied, firstn (S i) window,
               with_rpos rb (u32 (rpos_ rb + bytes_copied)))
    | None => Value (i32 (-1 * i32 to_read), window, rb)
    end.

(** [ReadBuffer::consume] and [ReadBuffer::discard]. *)
Definition consume (rb : ReadBuffer) : result ReadBuffer :=
  if negb (buffers_allocated_ rb =? 0) then AssertionFailed
  else Value {| BUFFER_SIZE := BUFFER_SIZE rb; buffer_ := buffer_ rb;
                rpos_ := rpos_ rb; wpos_ := wpos_ rb; cons_ := rpos_ rb;
                buffers_allocated_ := buffers_allocated_ rb |}.

Definition discard (rb : ReadBuffer) : result ReadBuffer :=
  if negb (buffers_allocated_ rb =? 0) then AssertionFailed
  else Value (with_rpos rb (cons_ rb)).

(** [ReadBuffer::pull]: the offset of the pointer returned and the reader
    afterwards. The buffer is rotated to its start when that frees a chunk,
    and doubled otherwise. *)
Definition pull (rb : ReadBuffer) : result (Z * ReadBuffer) :=
  if negb (buffers_allocated_ rb =? 0) then AssertionFailed
  else
    let allocated := i32 (buffers_allocated_ rb + 1) in
    let size := Z.of_nat (length (buffer_ rb)) in
    let sz := u32 (u32 size - wpos_ rb) in
    if sz <? BUFFER_SIZE rb then
      if BUFFER_SIZE rb <? u32 (cons_ rb + sz) then
        let rotated :=
          skipn (Z.to_nat (cons_ rb)) (buffer_ rb)
          ++ skipn (length (buffer_ rb) - Z.to_nat (cons_ rb)) (buffer_ rb) in
        let wpos := u32 (wpos_ rb - cons_ rb) in
        Value (wpos,
               {| BUFFER_SIZE := BUFFER_SIZE rb; buffer_ := rotated;
                  rpos_ := u32 (rpos_ rb - cons_ rb); wpos_ := wpos; cons_ := 0;
                  buffers_allocated_ := allocated |})
      else
        Value (wpos_ rb,
               {| BUFFER_SIZE := BUFFER_SIZE rb;
                  buffer_ := buffer_ rb ++ repeat x00 (length (buffer_ rb));
                  rpos_ := rpos_ rb; wpos_ := wpos_ rb; cons_ := cons_ rb;
                  buffers_allocated_ := allocated |})
    else
      Value (wpos_ rb,
             {| BUFFER_SIZE := BUFFER_SIZE rb; buffer_ := buffer_ rb;
                rpos_ := rpos_ rb; wpos_ := wpos_ rb; cons_ := cons_ rb;
                buffers_allocated_ := allocated |}).

(** What the owner of a pulled buffer does before it pushes it: it stores
    [data] behind the pointer, that is from [wpos_] on. *)
Definition store (data : list byte) (rb : ReadBuffer) : ReadBuffer :=
  let w := Z.to_nat (wpos_ rb) in
  let b := buffer_ rb in
  {| BUFFER_SIZE := BUFFER_SIZE rb;
     buffer_ := firstn (length b) (firstn w b ++ data ++ skipn (w + length data) b);
     rpos_ := rpos_ rb; wpos_ := wpos_ rb; cons_ := cons_ rb;
     buffers_allocated_ := buffers_allocated_ rb |}.

(** [ReadBuffer::push]. *)
Definition push (size : Z) (rb : ReadBuffer) : result ReadBuffer :=
  if negb (buffers_allocated_ rb =? 1) then AssertionFailed
  else Value {| BUFFER_SIZE := BUFFER_SIZE rb; buffer_ := buffer_ rb;
                rpos_ := rpos_ rb; wpos_ := u32 (wpos_ rb + size); cons_ := cons_ rb;
                buffers_allocated_ := i32 (buffers_allocated_ rb - 1) |}.

(** The positions are in order and inside the vector, which holds at
    least one chunk and fits the [u32] casts. *)
Definition well_formed (rb : ReadBuffer) : Prop :=
  0 <= cons_ rb <= rpos_ rb
  /\ rpos_ rb <= wpos_ rb <= Z.of_nat (length (buffer_ rb))
  /\ 0 < BUFFER_SIZE rb <= Z.of_nat (length (buffer_ rb))
  /\ Z.of_nat (length (buffer_ rb)) < 2 ^ 32.

(** The bytes received and not yet consumed, and the unread ones. *)
Definition pending (rb : ReadBuffer) : list byte :=
  slice (cons_ rb) (wpos_ rb) (buffer_ rb).

Definition unread (rb : ReadBuffer) : list byte :=
  slice (rpos_ rb) (wpos_ rb) (buffer_ rb).

(** [n] calls of [get] in a row: the bytes they return. *)
Fixpoint get_many (n : nat) (rb : ReadBuffer) : result (list byte * ReadBuffer) :=
  match n with
  | O => Value ([], rb)
  | S n' =>
      match get rb with
      | Value (c, rb1) =>
          match get_many n' rb1 with
          | Value (cs, rb2) => Value (c :: cs, rb2)
          | Thrown m p => Thrown m p
          | AssertionFailed => AssertionFailed
          end
      | Thrown m p => Thrown m p
      | AssertionFailed => AssertionFailed
      end
  end.

(** The calls by which a parser looks at the unread bytes and takes
    them. *)
Inductive taking :=
| Get
| Pick
| IsEof
| Read (buffer_len : Z)
| ReadLine (quota : Z).

(** One such call: the reader it leaves; what it returns is left out. *)
Definition take_one (c : taking) (rb : ReadBuffer) : result ReadBuffer :=
  match c with
  | Get =>
      match get rb with
      | Value (_, rb1) => Value rb1
      | Thrown m p => Thrown m p
      | AssertionFailed => AssertionFailed
      end
  | Pick =>
      match pick rb with
      | Value _ => Value rb
      | Thrown m p => Thrown m p
      | AssertionFailed => AssertionFailed
      end
  | IsEof => let _ := is_eof rb in Value rb
  | Read buffer_len =>
      match read buffer_len rb with
      | Value (_, _, rb1) => Value rb1
      | Thrown m p => Thrown m p
      | AssertionFailed => AssertionFailed
      end
  | ReadLine quota =>
      match read_line quota rb with
      | Value (_, _, rb1) => Value rb1
      | Thrown m p => Thrown m p
      | AssertionFailed => AssertionFailed
      end
  end.

(** A sequence of such calls, each on the reader the one before it has
    left; it ends where a call throws or fails. *)
Fixpoint take_all (calls : list taking) (rb : ReadBuffer) : result ReadBuffer :=
  match calls with
  | [] => Value rb
  | c :: rest =>
      match take_one c rb with
      | Value rb1 => take_all rest rb1
      | Thrown m p => Thrown m p
      | AssertionFailed => AssertionFailed
      end
  end.

End ReadBuffer.

(** ** The protocol of [ChunkedWriter] and sample readers *)

Module ReadBufferUse.

Import ReadBuffer.

(** What a server does with a [ChunkedWriter] ([protocolparser.h]): pull a
    buffer, fill it with data, push it. *)
Definition feed (data : list byte) (rb : ReadBuffer) : result ReadBuffer :=
  match pull rb with
  | Value (_, rb1) => push (Z.of_nat (length data)) (store data rb1)
  | Thrown m p => Thrown m p
  | AssertionFailed => AssertionFailed
  end.

(** A reader of chunks of 4 bytes whose vector of 16 holds a line that has
    been consumed and the 4 bytes received after it, 2 of them read. *)
Definition busy_reader : ReadBuffer :=
  {| BUFFER_SIZE := 4;
     buffer_ := list_byte_of_string "put a 1 2" ++ [LF]
                ++ list_byte_of_string "put " ++ [x00; x00];
     rpos_ := 12; wpos_ := 14; cons_ := 10; buffers_allocated_ := 0 |}.

End ReadBufferUse.

(** ** The commands of the OpenTSDB telnet protocol
       ([stdb/protocol/protocolparser.cc]) *)

Module OpenTSDBCommands.

Import OpenTSDB.

Definition SP : byte := x20.
Definition LF : byte := x0a.

Definition PUT_LEN : Z := 4.
Definition ROLLUP_LEN : Z := 6.
Definition HISTOGRAM_LEN : Z := 4.
Definition STATS_LEN : Z := 5.
Definition VERSION_LEN : Z := 7.
Definition HELP_LEN : Z := 4.
Definition DROPCACHES_LEN : Z := 10.

(** [*reinterpret_cast<const u32*>(p)], the least significant byte first
    as on the machines the server is built for. *)
Definition load_u32 (p : list byte) : Z :=
  code (nth 0 p x00) + 2 ^ 8 * code (nth 1 p x00)
  + 2 ^ 16 * code (nth 2 p x00) + 2 ^ 24 * code (nth 3 p x00).

Definition asciiput : Z := 0x20747570.

Definition is_put (p : list byte) : bool := load_u32 p =? asciiput.

Inductive OpenTSDBMessageType :=
| PUT | ROLLUP | HISTOGRAM | STATS | VERSION | HELP | DROPCACHES | UNKNOWN.

(** [std::equal(p, p + n, keyword)] with [n] the length of the keyword. *)
Fixpoint equal (p keyword : list byte) {struct keyword} : bool :=
  match keyword, p with
  | [], _ => true
  | k :: keyword', c :: p' => Byte.eqb c k && equal p' keyword'
  | _ :: _, [] => false
  end.

Definition is_rollup (p : list byte) : bool := equal p (list_byte_of_string "rollup").
Definition is_histogram (p : list byte) : bool := equal p (list_byte_of_string "hist").
Definition is_stats (p : list byte) : bool := equal p (list_byte_of_string "stats").
Definition is_version (p : list byte) : bool := equal p (list_byte_of_string "version").
Definition is_help (p : list byte) : bool := equal p (list_byte_of_string "help").
Definition is_dropcaches (p : list byte) : bool :=
  equal p (list_byte_of_string "dropcaches").

Definition message_dispatch (p : list byte) (len : Z) : OpenTSDBMessageType :=
  if (4 <=? len) && is_put p then PUT
  else if (ROLLUP_LEN <=? len) && is_rollup p then ROLLUP
  else if (HISTOGRAM_LEN <=? len) && is_histogram p then HISTOGRAM
  else if (STATS_LEN <=? len) && is_stats p then STATS
  else if (VERSION_LEN <=? len) && is_version p then VERSION
  else if (HELP_LEN <=? len) && is_help p then HELP
  else if (DROPCACHES_LEN <=? len) && is_dropcaches p then DROPCACHES
  else UNKNOWN.

(** The keyword each type of message is recognised by. *)
Definition keyword (t : OpenTSDBMessageType) : list byte :=
  match t with
  | PUT => list_byte_of_string "put "
  | ROLLUP => list_byte_of_string "rollup"
  | HISTOGRAM => list_byte_of_string "hist"
  | STATS => list_byte_of_string "stats"
  | VERSION => list_byte_of_string "version"
  | HELP => list_byte_of_string "help"
  | DROPCACHES => list_byte_of_string "dropcaches"
  | UNKNOWN => []
  end.

Definition is_blank (c : byte) : bool := Byte.eqb c SP || Byte.eqb c LF.

(** The two loops of [skip_element]. A pointer is the list of the bytes
    from it on; the quotas, [int] in the source, are byte counts. *)
Fixpoint skip_word (p : list byte) (quota : nat) {struct quota} : list byte * nat :=
  match quota, p with
  | S quota', c :: p' => if is_blank c then (p, quota) else skip_word p' quota'
  | _, _ => (p, quota)
  end.

Fixpoint skip_blanks (p : list byte) (quota ntrailing : nat) {struct quota}
  : list byte * nat * nat :=
  match quota, p with
  | S quota', c :: p' =>
      if negb (is_blank c) then (p, quota, ntrailing)
      else skip_blanks p' quota' (S ntrailing)
  | _, _ => (p, quota, ntrailing)
  end.

(** [skip_element]: the new pointer, the adjusted length and the number of
    trailing blanks. *)
Definition skip_element (buffer : list byte) (len : nat) : list byte * nat * nat :=
  let '(p, quota) := skip_word buffer len in
  skip_blanks p quota 0.

(** The loop "skip redundant space characters" of the worker. *)
Fixpoint skip_redundant (pbuf : list byte) (len : nat) : list byte * nat :=
  match pbuf, len with
  | c :: pbuf', S len' => if Byte.eqb c SP then skip_redundant pbuf' len' else (pbuf, len)
  | _, _ => (pbuf, len)
  end.

(** The loop that counts the blanks at the end of the tags: [c] runs back
    from the last byte and stops at the first byte, which it does not
    look at. [tags] is the list from [b] to [pend]. *)
Fixpoint count_trailing (reversed_tail : list byte) : nat :=
  match reversed_tail with
  | c :: rest => if negb (is_blank c) then O else S (count_trailing rest)
  | [] => O
  end.

Definition tags_trailing_of (tags : list byte) : nat :=
  count_trailing (rev (tl tags)).

(** What the [PUT] case of the worker finds in a line before it hands the
    pieces to the session and to the C library. The C library is given
    pointers into [buffer] and reads on from them as far as it likes, so the
    texts for it run to the end of what is known of the memory, past the end
    of the line. *)
Record PutFields := {
  series_name : list byte;   (* [pbuf, pbuf + name_size - tags_trailing) after the rotation *)
  ts_token : list byte;      (* the timestamp in front of the terminator at [eix] *)
  ts_rest : list byte;       (* from [eix] on, once the blank is back *)
  value_text : list byte;    (* from the value on, the blank at [tix] in place *)
  tix : Z;
  buffer_after : list byte   (* [buffer] from its first byte on, as the case leaves it *)
}.

Definition not_enough (got : string) : string :=
  ("put: illegal argument: not enough arguments (need least 4, got " ++ got ++ ")")%string.

(** The [PUT] case of [OpenTSDBProtocolParser::worker] up to the rotation
    and the cuts: from [buffer], whose first [len] bytes are the line, to
    the series name, the timestamp and the value, or to the message of the
    [ProtocolParserError] thrown. [buffer] is the memory from the first byte
    of the array on: behind the line it holds what earlier lines have left
    in the array, which is declared outside the loop and never cleared, and
    what follows the array. The rotation and the scans stay inside the
    line; a pointer equals [pend] when the quota left at it is zero. *)
Definition put_fields (buffer : list byte) (len : nat) : string + PutFields :=
  let line := take len buffer in
  let behind := drop len buffer in
  let '(pbuf, len1) := skip_redundant (drop 4 line) (len - 4) in
  let '(a, quota1, nspaces) := skip_element pbuf len1 in
  if (quota1 =? 0)%nat then inl (not_enough "0")
  else
    let metric_size := Z.of_nat len1 - Z.of_nat quota1 in
    let '(b, quota2, timestamp_trailing) := skip_element a quota1 in
    let timestamp_size := Z.of_nat quota1 - Z.of_nat quota2 in
    if (quota2 =? 0)%nat then inl (not_enough "1")
    else
      let '(b', quota3, value_trailing) := skip_element b quota2 in
      let value_size := Z.of_nat quota2 - Z.of_nat quota3 in
      if (quota3 =? 0)%nat then inl (not_enough "2")
      else
        let name_size := Z.of_nat quota3 + metric_size in
        let tags_trailing := Z.of_nat (tags_trailing_of b') in
        (* std::rotate(a, b, pend) *)
        let rotated :=
          take (Z.to_nat metric_size) pbuf ++ b'
          ++ take (length a - length b') a in
        let name := take (Z.to_nat (u32 (name_size - tags_trailing))) rotated in
        (* pbuf += name_size: the timestamp, the value and what lies behind pend *)
        let pbuf1 := drop (Z.to_nat name_size) rotated ++ behind in
        let eix := timestamp_size - Z.of_nat timestamp_trailing in
        let pbuf1' := <[Z.to_nat eix := SP]> pbuf1 in
        let pbuf2 := drop (Z.to_nat timestamp_size) pbuf1' in
        let tix := value_size - Z.of_nat value_trailing in
        let pbuf2' := <[Z.to_nat tix := SP]> pbuf2 in
        inr {| series_name := name;
               ts_token := take (Z.to_nat eix) pbuf1;
               ts_rest := drop (Z.to_nat eix) pbuf1';
               value_text := pbuf2';
               tix := tix;
               buffer_after :=
                 take (len - len1) line ++ take (Z.to_nat name_size) rotated
                 ++ take (Z.to_nat timestamp_size) pbuf1' ++ pbuf2' |}.

(** [buffer] after the [PUT] case has handled the line in it without
    throwing. *)
Definition put_leaves (buffer : list byte) (len : nat) : list byte :=
  match put_fields buffer len with
  | inr f => buffer_after f
  | inl _ => buffer
  end.

Section Put.

(** The session and the library functions the handler calls, none of them
    among the sources. [DbSession::series_to_param_id] and
    [DbSession::write] work on the state [db] of the session and the
    database behind it; the first is given the name with its length and
    also fills in the sample. [Utility::parse_timestamp] and [strtod] are
    given a pointer into the array and nothing else, so their argument here
    is the memory from that pointer on; the first gives a status and the
    timestamp it leaves in the sample, the second the value and
    [endptr - pbuf]. *)
Context {db : Type}.
Variable series_to_param_id : list byte -> Sample -> db -> Status * Sample * db.
Variable parse_timestamp : list byte -> Timestamp -> Status * Timestamp.
Variable strtod : list byte -> float * Z.
Variable write : Sample -> db -> Status * db.
Variable PAYLOAD_FLOAT : Z.

(** How the handler of a line ends: with a [ProtocolParserError] (the text
    given to [get_error_context]), with a [DatabaseError], or with the sample
    written. *)
Inductive put_outcome :=
| ParserError (msg : string) (d : db)
| DatabaseError (status : Status) (d : db)
| Written (sample : Sample) (d : db).

(** The [PUT] case up to [rdbuf_.consume()]; [sample] is the local variable
    as declared. It is reached with [4 <= len] only. *)
Definition put (buffer : list byte) (len : nat) (sample : Sample) (d : db)
  : put_outcome :=
  match put_fields buffer len with
  | inl msg => ParserError msg d
  | inr f =>
      let '(status, sample1, d1) := series_to_param_id (series_name f) sample d in
      if negb (IsOk status) then ParserError "put: invalid series name format" d1
      else
        match put_timestamp parse_timestamp (ts_token f) (ts_rest f) with
        | inr msg => ParserError msg d1
        | inl ts =>
            let '(value, consumed) := strtod (value_text f) in
            if negb (consumed =? tix f)
            then ParserError "put: bad floating point value" d1
            else
              let sample2 :=
                {| paramid := paramid sample1;
                   timestamp := ts;
                   payload := {| float64 := value;
                                 size := size (payload sample1);
                                 type := PAYLOAD_FLOAT;
                                 data := data (payload sample1) |} |} in
              let '(status, d2) := write sample2 d1 in
              if negb (IsOk status) then DatabaseError status d2
              else Written sample2 d2
        end
  end.

End Put.

End OpenTSDBCommands.

(** ** Lines of the OpenTSDB protocol, for stating facts about the handler *)

Module OpenTSDBLines.

Import OpenTSDBCommands.

(** An element of a line: at least one byte, no blank and no newline. *)
Definition is_word (w : list byte) : bool :=
  match w with
  | [] => false
  | _ => forallb (fun c => negb (is_blank c)) w
  end.

(** What separates two elements: at least one blank or newline. *)
Definition is_gap (s : list byte) : bool :=
  match s with
  | [] => false
  | _ => forallb is_blank s
  end.

(** The tags, which may hold blanks, start and end with another byte. *)
Definition is_tags (tags : list byte) : bool :=
  negb (is_blank (hd SP tags)) && negb (is_blank (last tags SP)).

(** A [put] command with all its parts. *)
Definition put_line (spaces metric s1 ts s2 value s3 tags tr : list byte) : list byte :=
  keyword PUT ++ spaces ++ metric ++ s1 ++ ts ++ s2 ++ value ++ s3 ++ tags ++ tr.

End OpenTSDBLines.

(** ** A session for running the handlers on examples *)

Module SessionFixtures.

Import OpenTSDB.

(** A session that keeps the samples written, in order. *)
Definition session := list Sample.

(** Series are numbered by the length of their name; a name must not be
    empty. *)
Definition name_to_id (name : list byte) (s : Sample) (d : session)
  : Status * Sample * session :=
  (match name with [] => BadData | _ => Ok end,
   {| paramid := Z.of_nat (length name); timestamp := timestamp s; payload := payload s |},
   d).

Fixpoint digits_length (s : list byte) : Z :=
  match s with
  | c :: rest => if is_digit c then 1 + digits_length rest else 0
  | [] => 0
  end.

(** A stand-in for [strtod] that reads unsigned integers. *)
Definition strtod_digits (s : list byte) : float * Z :=
  (Fixtures.of_int (digits_value s 0), digits_length s).

Definition keep (s : Sample) (d : session) : Status * session := (Ok, d ++ [s]).

Definition blank_sample : Sample :=
  {| paramid := 0; timestamp := 0;
     payload := {| float64 := 0; size := 0; type := 0; data := [] |} |}.

(** The line [put cpu 1418197423 3 host=a] with its newline. *)
Definition cpu_line : list byte :=
  OpenTSDBLines.put_line [] (list_byte_of_string "cpu") (list_byte_of_string " ")
    (list_byte_of_string "1418197423") (list_byte_of_string " ")
    (list_byte_of_string "3") (list_byte_of_string " ")
    (list_byte_of_string "host=a") [OpenTSDBCommands.LF].

End SessionFixtures.

(** ** The worker of the OpenTSDB parser ([stdb/protocol/protocolparser.cc]) *)

Module OpenTSDBWorker.

Import ReadBuffer OpenTSDBCommands.

Definition NL : string := String (Ascii.ascii_of_nat 10) EmptyString.

Definition stats_body : string :=
  ("stdb.rpcs 1479600574 0 type=fake" ++ NL)%string.

Definition version_body : string :=
  ("net.opentsdb.tools BuildData built at revision a000000" ++ NL
   ++ "STDB to TSD converter/n")%string.

Definition unknown_command : string :=
  "unknown command: nosuchcommand.  Try `help'.".

Section Worker.

Context {db : Type}.
Variable series_to_param_id : list byte -> Sample -> db -> Status * Sample * db.
Variable parse_timestamp : list byte -> Timestamp -> Status * Timestamp.
Variable strtod : list byte -> float * Z.
Variable write : Sample -> db -> Status * db.
Variable PAYLOAD_FLOAT : Z.

(** [LIMITS_MAX_SNAME] of [basic.h], and the local [sample] as declared. *)
Variable LIMITS_MAX_SNAME : Z.
Variable sample : Sample.

Definition buffer_len : Z := LIMITS_MAX_SNAME + 3 + 17 + 26.

(** How a call of [worker] ends: it returns a response, whose body is set
    or not; it throws a [ProtocolParserError] or a [DatabaseError]; or an
    [assert] fails. The reader and the session are as the call leaves
    them. *)
Inductive outcome :=
| Returned (body : option string) (rb : ReadBuffer) (d : db)
| ParserThrown (message : list byte) (pos : Z) (rb : ReadBuffer) (d : db)
| DatabaseThrown (status : Status) (rb : ReadBuffer) (d : db)
| Aborted
| OutOfFuel.

Definition throw_parser (msg : string) (rb : ReadBuffer) (d : db) : outcome :=
  let ctx := get_error_context (list_byte_of_string msg) rb in
  ParserThrown (fst ctx) (snd ctx) rb d.

(** [OpenTSDBProtocolParser::worker]: one round of the [while (true)] per
    unit of fuel. [buffer] is the local array, as the memory from its first
    byte on: it is declared once, outside the loop, and not initialized, so
    a call starts with whatever the stack holds and each round finds what
    the rounds before it have left. [read_line] overwrites the first bytes
    with the ones it copies; the handlers are given the array and the
    number [len] of them. *)
Fixpoint worker (fuel : nat) (rb : ReadBuffer) (buffer : list byte) (d : db)
  : outcome :=
  match fuel with
  | O => OutOfFuel
  | S fuel' =>
      match read_line buffer_len rb with
      | Value (len, copied, rb1) =>
          let buffer1 := copied ++ drop (length copied) buffer in
          if len <=? 0 then Returned None rb1 d
          else
            match message_dispatch buffer1 len with
            | PUT =>
                match put series_to_param_id parse_timestamp strtod write PAYLOAD_FLOAT
                        buffer1 (Z.to_nat len) sample d with
                | ParserError msg d1 => throw_parser msg rb1 d1
                | DatabaseError status d1 => DatabaseThrown status rb1 d1
                | Written _ d1 =>
                    match consume rb1 with
                    | Value rb2 =>
                        worker fuel' rb2 (put_leaves buffer1 (Z.to_nat len)) d1
                    | _ => Aborted
                    end
                end
            | STATS => Returned (Some stats_body) rb1 d
            | VERSION => Returned (Some version_body) rb1 d
            | UNKNOWN => throw_parser unknown_command rb1 d
            | _ => worker fuel' rb1 buffer1 d
            end
      | Thrown message pos => ParserThrown message pos rb d
      | AssertionFailed => Aborted
      end
  end.

(** The lines of a connection handled one after the other, for comparison
    with the worker: what happens to the session, and how the handling
    ends. Each line is laid over the array the lines before it have left,
    as [read_line] does it. *)
Inductive lines_outcome :=
| Handled (d : db)
| Replied (body : string) (d : db)
| Rejected (msg : string) (d : db)
| Failed (status : Status) (d : db).

Fixpoint handle_lines (lines : list (list byte)) (buffer : list byte) (d : db)
  : lines_outcome :=
  match lines with
  | [] => Handled d
  | line :: rest =>
      let buffer1 := line ++ drop (length line) buffer in
      match message_dispatch buffer1 (Z.of_nat (length line)) with
      | PUT =>
          match put series_to_param_id parse_timestamp strtod write PAYLOAD_FLOAT
                  buffer1 (length line) sample d with
          | ParserError msg d1 => Rejected msg d1
          | DatabaseError status d1 => Failed status d1
          | Written _ d1 => handle_lines rest (put_leaves buffer1 (length line)) d1
          end
      | STATS => Replied stats_body d
      | VERSION => Replied version_body d
      | UNKNOWN => Rejected unknown_command d
      | _ => handle_lines rest buffer1 d
      end
  end.

End Worker.

(** A line with its newline at the end and nowhere else. *)
Definition is_line (line : list byte) : bool :=
  match line_end line with
  | Some i => (S i =? length line)%nat
  | None => false
  end.

End OpenTSDBWorker.

(** ** Readers with data for running the worker on examples *)

Module WorkerFixtures.

Import ReadBuffer.

Definition help_line : list byte := list_byte_of_string "help" ++ [LF].

(** What the array of the worker may hold when a call starts: sixty bytes
    that are not zero, and a zero byte behind them. *)
Definition stale_array : list byte := repeat "#"%byte 60 ++ [x00].

(** A reader that has received a [put] line, a [help] line and the
    beginning of another [put]. *)
Definition connection_reader : ReadBuffer :=
  {| BUFFER_SIZE := 64;
     buffer_ := SessionFixtures.cpu_line ++ help_line ++ list_byte_of_string "put cp"
                ++ repeat x00 217;
     rpos_ := 0; wpos_ := 39; cons_ := 0; buffers_allocated_ := 0 |}.

(** The bytes of the C string at a pointer: those in front of the first
    zero byte. *)
Fixpoint c_string (l : list byte) : list byte :=
  match l with
  | [] => []
  | c :: rest => if Byte.eqb c x00 then [] else c :: c_string rest
  end.

(** A stand-in for [Utility::parse_timestamp] that accepts every text and
    gives the length of the C string at its pointer as the timestamp. *)
Definition timestamp_by_length (s : list byte) (ts : Timestamp) : Status * Timestamp :=
  (Ok, Z.of_nat (length (c_string s))).

(** The line [put cpu now 3 host=a] with its newline, whose timestamp is no
    number, and a reader that has received it. *)
Definition now_line : list byte :=
  OpenTSDBLines.put_line [] (list_byte_of_string "cpu") (list_byte_of_string " ")
    (list_byte_of_string "now") (list_byte_of_string " ")
    (list_byte_of_string "3") (list_byte_of_string " ")
    (list_byte_of_string "host=a") [LF].

Definition now_reader : ReadBuffer :=
  {| BUFFER_SIZE := 64;
     buffer_ := now_line ++ repeat x00 235;
     rpos_ := 0; wpos_ := 21; cons_ := 0; buffers_allocated_ := 0 |}.

(** The timestamps written by a call of the worker on that reader, which
    starts with [buffer] in its array. *)
Definition now_timestamps (buffer : list byte) : option (list Timestamp) :=
  match OpenTSDBWorker.worker SessionFixtures.name_to_id timestamp_by_length
          SessionFixtures.strtod_digits SessionFixtures.keep Fixtures.P_FLOAT 4096
          SessionFixtures.blank_sample 2 now_reader buffer [] with
  | OpenTSDBWorker.Returned None _ d => Some (map timestamp d)
  | _ => None
  end.

(** A reader that has received fifty bytes without a newline, and the same
    reader after a newline has arrived. *)
Definition long_reader : ReadBuffer :=
  {| BUFFER_SIZE := 16;
     buffer_ := repeat "a"%byte 50 ++ repeat x00 14;
     rpos_ := 0; wpos_ := 50; cons_ := 0; buffers_allocated_ := 0 |}.

Definition long_reader_fed : ReadBuffer :=
  {| BUFFER_SIZE := 16;
     buffer_ := repeat "a"%byte 50 ++ [LF] ++ repeat x00 13;
     rpos_ := 0; wpos_ := 51; cons_ := 0; buffers_allocated_ := 0 |}.

End WorkerFixtures.

(** ** The rows of the RESP parser ([stdb/protocol/protocolparser.cc]) *)

Module RESPWorker.

Definition u16 (x : Z) : Z := x mod 2 ^ 16.

Section Row.

Context {db : Type}.
Variable write : Sample -> db -> Status * db.
Variables PAYLOAD_FLOAT PAYLOAD_EVENT sizeof_Sample : Z.

(** The local [evt] as declared. *)
Variable evt : Sample.

(** [sample] before the loop over the columns of a row. *)
Definition row_sample (sample : Sample) : Sample :=
  {| paramid := paramid sample; timestamp := timestamp sample;
     payload := {| float64 := float64 (payload sample); size := sizeof_Sample;
                   type := PAYLOAD_FLOAT; data := data (payload sample) |} |}.

(** The fast path: [sample] with the id and the value of the column. *)
Definition value_sample (sample : Sample) (id : ParamId) (value : float) : Sample :=
  {| paramid := id; timestamp := timestamp sample;
     payload := {| float64 := value; size := size (payload sample);
                   type := type (payload sample); data := data (payload sample) |} |}.

(** The sample built in [event_out_buf_]: [evt] with the event behind it. *)
Definition event_sample (sample : Sample) (id : ParamId) (event : list byte) : Sample :=
  let len := Z.of_nat (length event) + sizeof_Sample in
  {| paramid := id; timestamp := timestamp sample;
     payload := {| float64 := float64 (payload evt); size := u16 len;
                   type := PAYLOAD_EVENT; data := event |} |}.

(** How the loop over the columns ends: with [sample] as the loop leaves
    it, or with a [DatabaseError]. *)
Inductive row_outcome :=
| RowWritten (sample : Sample) (d : db)
| RowFailed (status : Status) (d : db).

(** The loop over the columns of a row; a column is its entry in
    [paramids_], [values_] and [events_]. *)
Fixpoint write_columns (row : list (ParamId * float * list byte)) (sample : Sample) (d : db)
  : row_outcome :=
  match row with
  | [] => RowWritten sample d
  | (id, value, event) :: rest =>
      if 0 <? i64 id then
        let sample1 := value_sample sample id value in
        let '(status, d1) := write sample1 d in
        if negb (IsOk status) then RowFailed status d1
        else write_columns rest sample1 d1
      else
        let '(status, d1) := write (event_sample sample id event) d in
        if negb (IsOk status) then RowFailed status d1
        else write_columns rest sample d1
  end.

(** The end of a round of [RESPProtocolParser::worker], from the setting of
    the payload type on. *)
Definition write_row (row : list (ParamId * float * list byte)) (sample : Sample) (d : db)
  : row_outcome :=
  write_columns row (row_sample sample) d.

(** The sample of one column as a function of the row alone, and the
    handing of samples to the session until one is refused, for comparison
    with the loop. *)
Definition column_sample (sample : Sample) (column : ParamId * float * list byte) : Sample :=
  let '(id, value, event) := column in
  if 0 <? i64 id then
    {| paramid := id; timestamp := timestamp sample;
       payload := {| float64 := value; size := sizeof_Sample;
                     type := PAYLOAD_FLOAT; data := data (payload sample) |} |}
  else
    {| paramid := id; timestamp := timestamp sample;
       payload := {| float64 := float64 (payload evt);
                     size := u16 (Z.of_nat (length event) + sizeof_Sample);
                     type := PAYLOAD_EVENT; data := event |} |}.

Fixpoint send (samples : list Sample) (d : db) : Status * db :=
  match samples with
  | [] => (Ok, d)
  | s :: rest =>
      let '(status, d1) := write s d in
      if negb (IsOk status) then (status, d1) else send rest d1
  end.

End Row.

End RESPWorker.

(** ** Opening and closing columns ([stdb/storage/column_store.cc],
       [stdb/core/standalone_database.cc]) *)

(** What [ColumnStore] calls of [NBTreeExtentsList] when it opens and closes
    columns, besides the interface above. *)
Class NBTreeLifecycle (T : Type) := {
  (** [repair_status(rescue_points) == RepairStatus::REPAIR] *)
  needs_repair : list LogicAddr -> bool;
  (** [close()]: the rescue points and the tree afterwards *)
  close : T -> list LogicAddr * T
}.

Module ColumnStoreLifecycle.

Import ColumnStore.

Section WithTree.

Context {T : Type} {tree_ops : NBTreeExtentsList T} {lifecycle : NBTreeLifecycle T}.

(** The tree [open_or_restore] leaves in the table for an entry of the
    mapping, and the rescue points it records for it, if any: a tree is
    initialized when that is forced or a repair is needed, and is closed
    again after a repair that was not forced. *)
Definition opened_tree (id : ParamId) (rescue_points : list LogicAddr) (force : bool)
  : T * option (list LogicAddr) :=
  let tree := make_tree id rescue_points in
  if force || needs_repair rescue_points then
    let tree1 := force_init tree in
    if negb force then
      let '(rplist, tree2) := close tree1 in (tree2, Some rplist)
    else (tree1, None)
  else (tree, None).

(** The loop of [ColumnStore::open_or_restore] over the mapping, in the order
    the iteration visits it; [ids2recover] is the vector so far. *)
Fixpoint open_loop (mapping : list (ParamId * list LogicAddr)) (force : bool)
    (ids2recover : list ParamId) (cs : ColumnStore) (h : gmap loc T)
  : Status * list ParamId * ColumnStore * gmap loc T :=
  match mapping with
  | [] => (Ok, ids2recover, cs, h)
  | (id, rescue_points) :: rest =>
      match columns_ cs !! id with
      | Some _ => (BadArg, [], cs, h)
      | None =>
          let '(tree, rplist) := opened_tree id rescue_points force in
          let '(l, h1) := make_shared tree h in
          let cs1 :=
            {| columns_ := <[id := l]> (columns_ cs);
               rescue_points_ :=
                 match rplist with
                 | Some rp => <[id := rp]> (rescue_points_ cs)
                 | None => rescue_points_ cs
                 end |} in
          let ids1 :=
            if needs_repair rescue_points then ids2recover ++ [id] else ids2recover in
          open_loop rest force ids1 cs1 h1
      end
  end.

(** [ColumnStore::open_or_restore]. *)
Definition open_or_restore (mapping : list (ParamId * list LogicAddr)) (force : bool)
    (cs : ColumnStore) (h : gmap loc T)
  : Status * list ParamId * ColumnStore * gmap loc T :=
  open_loop mapping force [] cs h.

(** [ColumnStore::close(ids)]; [result] is the map so far. *)
Fixpoint close_ids (ids : list ParamId) (result : gmap ParamId (list LogicAddr))
    (cs : ColumnStore) (h : gmap loc T)
  : option (gmap ParamId (list LogicAddr) * gmap loc T) :=
  match ids with
  | [] => Some (result, h)
  | id :: rest =>
      match columns_ cs !! id with
      | None => close_ids rest result cs h
      | Some l =>
          tree ← h !! l;
          if is_initialized tree then
            let '(addrlist, tree1) := close tree in
            close_ids rest (<[id := addrlist]> result) cs (<[l := tree1]> h)
          else close_ids rest result cs h
      end
  end.

(** [ColumnStore::close()]: the second loop, over the whole table in the
    order the iteration visits it; the first loop only adds up sizes for the
    log. *)
Definition close_all (cs : ColumnStore) (h : gmap loc T)
  : option (gmap ParamId (list LogicAddr) * gmap loc T) :=
  close_ids (map_to_list (columns_ cs)).*1 ∅ cs h.

(** [StandaloneDatabase::recovery_create_new_column]: the status of
    [create_new_column] is dropped. *)
Definition recovery_create_new_column (id : ParamId) (cs : ColumnStore) (h : gmap loc T)
  : ColumnStore * gmap loc T :=
  let '(_, cs1, h1) := create_new_column id cs h in (cs1, h1).

(** Shared ownership as the table has it: the tree of every column is
    alive, and no two columns share a tree. *)
Definition store_ok (cs : ColumnStore) (h : gmap loc T) : Prop :=
  (forall id l, columns_ cs !! id = Some l -> is_Some (h !! l))
  /\ (forall id1 id2 l,
        columns_ cs !! id1 = Some l -> columns_ cs !! id2 = Some l -> id1 = id2).

(** The tree of a column. *)
Definition tree_of (cs : ColumnStore) (h : gmap loc T) (id : ParamId) : option T :=
  columns_ cs !! id ≫= fun l => h !! l.

(** A session cache that holds entries of the table only. *)
Definition coherent (sess : CStoreSession) (cs : ColumnStore) : Prop :=
  forall id l, cache_ sess !! id = Some l -> columns_ cs !! id = Some l.

End WithTree.

End ColumnStoreLifecycle.

(** ** A lifecycle for running the opening and closing of columns on
       examples *)

Module LifecycleFixtures.

Import NBTreeModel.

(** A stand-in for the two member functions of [NBTreeExtentsList]: a list
    of rescue points that is not empty asks for a repair, and closing hands
    out the rescue points and leaves the tree uninitialized. *)
Definition stand_in : NBTreeLifecycle tree :=
  {| needs_repair := fun rescue_points =>
       match rescue_points with [] => false | _ => true end;
     close := fun t =>
       (t_sealed t,
        {| t_id := t_id t; t_initialized := false; t_sealed := t_sealed t;
           t_nblocks := t_nblocks t; t_leaf := t_leaf t; t_max := t_max t;
           t_stored := t_stored t |}) |}.

(** Two columns to open: 7 with no rescue points, 8 with one. *)
Definition mapping78 : list (ParamId * list LogicAddr) := [(7, []); (8, [5])].

End LifecycleFixtures.

(** ** Sequences of calls on a cursor *)

Module CursorReplay.

Import Cursor.

Section Replay.

Context {C : Type} {cursor_ops : InternalCursor C}.

(** One call made on a cursor, and a sequence of calls; the answer of
    [put] is not looked at. *)
Definition apply_call (c : call) (cur : C) : option C :=
  match c with
  | Put s => match put s cur with Some (_, cur1) => Some cur1 | None => None end
  | Complete => complete cur
  | SetError st => set_error st cur
  | SetErrorMsg st msg => set_error_msg st msg cur
  end.

Fixpoint replay (calls : list call) (cur : C) : option C :=
  match calls with
  | [] => Some cur
  | c :: rest =>
      match apply_call c cur with
      | Some cur1 => replay rest cur1
      | None => None
      end
  end.

End Replay.

(** The sequences that keep the contract of the cursor: nothing follows a
    call of [complete] or [set_error]. *)
Fixpoint well_terminated (calls : list call) : bool :=
  match calls with
  | [] => true
  | c :: rest =>
      if terminating c then match rest with [] => true | _ => false end
      else well_terminated rest
  end.

Definition puts_of (calls : list call) : list Sample :=
  flat_map (fun c => match c with Put s => [s] | _ => [] end) calls.

End CursorReplay.

(** ** The dictionary of the RESP parser
       ([stdb/protocol/protocolparser.cc]) *)

Module RESPDictionary.

(** [idmap_] is a [std::unordered_multimap]: a bag of pairs, listed in the
    order an iteration visits them. *)
Abbreviation idmap := (list (ParamId * ParamId)).

Section Dictionary.

(** [idmap_.insert]: where the library puts a new pair among the others is
    not fixed by the language, so it is left open. *)
Variable insert : ParamId * ParamId -> idmap -> idmap.

(** [idmap_.count(uid)] and the values of [idmap_.equal_range(uid)]. *)
Definition count (uid : ParamId) (m : idmap) : nat :=
  length (filter (fun p => fst p = uid) m).

Definition equal_range (uid : ParamId) (m : idmap) : list ParamId :=
  (filter (fun p => fst p = uid) m).*2.

(** The loop of [update_dict] over [row[0 .. nvalues)]. *)
Fixpoint insert_row (uid : ParamId) (row : list ParamId) (m : idmap) : idmap :=
  match row with
  | [] => m
  | v :: rest => insert_row uid rest (insert (uid, v) m)
  end.

(** [RESPProtocolParser::update_dict]. *)
Definition update_dict (uid : ParamId) (row : list ParamId) (nvalues : Z) (m : idmap)
  : bool * idmap :=
  if negb (count uid m =? 0)%nat then (false, m)
  else (true, insert_row uid (take (Z.to_nat nvalues) row) m).

(** [RESPProtocolParser::read_dict]: the return value and the ids stored
    in [row]. The loop stops when [i == nvalues], which a negative
    [nvalues] never brings about. *)
Definition read_dict (uid : ParamId) (nvalues : Z) (m : idmap) : Z * list ParamId :=
  let ids :=
    if nvalues <? 0 then equal_range uid m
    else take (Z.to_nat nvalues) (equal_range uid m) in
  (ReadBuffer.i32 (Z.of_nat (length ids)), ids).

End Dictionary.

End RESPDictionary.

(** * Properties *)

(** Cases on whether a payload type is the first or the second of the two
    the store knows. *)
Ltac payload_cases sample first_type second_type :=
  destruct (Z.eqb_spec (type (payload sample)) first_type);
  [| destruct (Z.eqb_spec (type (payload sample)) second_type)].

(** ** [ColumnStore::write] *)

Section WriteFacts.

Import ColumnStore.

Context {T : Type} {tree_ops : NBTreeExtentsList T}.
Variables PAYLOAD_FLOAT PAYLOAD_EVENT sizeof_Sample : Z.

Abbreviation write := (write PAYLOAD_FLOAT PAYLOAD_EVENT sizeof_Sample).
Abbreviation write_dispatch := (write_dispatch PAYLOAD_FLOAT PAYLOAD_EVENT sizeof_Sample).
Abbreviation event_size := (event_size sizeof_Sample).

Lemma write_dispatch_float (sample : Sample) (tree : T) :
  type (payload sample) = PAYLOAD_FLOAT ->
  write_dispatch sample tree
  = append (timestamp sample) (float64 (payload sample)) tree.
Proof.
  intros Hty. unfold ColumnStore.write_dispatch.
  rewrite Hty, Z.eqb_refl. reflexivity.
Qed.

Lemma write_dispatch_event (sample : Sample) (tree : T) :
  type (payload sample) <> PAYLOAD_FLOAT ->
  type (payload sample) = PAYLOAD_EVENT ->
  write_dispatch sample tree
  = append_event (timestamp sample) (data (payload sample)) (event_size sample) tree.
Proof.
  intros Hnf Hty. unfold ColumnStore.write_dispatch.
  destruct (Z.eqb_spec (type (payload sample)) PAYLOAD_FLOAT) as [E | _];
    [contradiction |].
  rewrite Hty, Z.eqb_refl. reflexivity.
Qed.

Lemma write_dispatch_other (sample : Sample) (tree : T) :
  type (payload sample) <> PAYLOAD_FLOAT ->
  type (payload sample) <> PAYLOAD_EVENT ->
  write_dispatch sample tree = (OK, tree).
Proof.
  intros Hnf Hne. unfold ColumnStore.write_dispatch.
  payload_cases sample PAYLOAD_FLOAT PAYLOAD_EVENT; try contradiction. reflexivity.
Qed.

Lemma write_found (sample : Sample) rp cache cs (h : gmap loc T) l tree :
  columns_ cs !! paramid sample = Some l ->
  h !! l = Some tree ->
  write sample rp cache cs h
  = Some {| wr_result := fst (write_dispatch sample tree);
            wr_rescue_points :=
              if NBTreeAppendResult_eqb (fst (write_dispatch sample tree)) OK_FLUSH_NEEDED
              then get_roots (snd (write_dispatch sample tree)) else rp;
            wr_cache := cache_insert (paramid sample) l <$> cache;
            wr_heap := <[l := snd (write_dispatch sample tree)]> h |}.
Proof.
  intros Hcol Htree. unfold ColumnStore.write.
  rewrite Hcol. simpl. rewrite Htree. simpl.
  destruct (write_dispatch sample tree) as [res tree1]. reflexivity.
Qed.

Lemma eqb_flush_needed (res : NBTreeAppendResult) :
  NBTreeAppendResult_eqb res OK_FLUSH_NEEDED = true <-> res = OK_FLUSH_NEEDED.
Proof. destruct res; simpl; split; congruence. Qed.

(** C2 (as amended): for a sample whose id has a column and whose payload
    type is [PAYLOAD_FLOAT] or [PAYLOAD_EVENT], [ColumnStore::write] puts the
    result of the append for that payload at the column's tree, returns its
    status, and sets [rescue_points] to the roots of the new tree exactly
    when the status is [OK_FLUSH_NEEDED], leaving it as it was otherwise;
    without a column for the id it returns [FAIL_BAD_ID] and changes neither
    a tree nor [rescue_points] nor the cache. *)
Theorem write_appends_and_reports_roots
    (sample : Sample) (rp : list LogicAddr) (cache : option (gmap ParamId loc))
    (cs : ColumnStore) (h : gmap loc T) :
  (forall l tree,
      columns_ cs !! paramid sample = Some l ->
      h !! l = Some tree ->
      type (payload sample) = PAYLOAD_FLOAT \/ type (payload sample) = PAYLOAD_EVENT ->
      exists res tree1 r,
        (type (payload sample) = PAYLOAD_FLOAT ->
         append (timestamp sample) (float64 (payload sample)) tree = (res, tree1))
        /\ (type (payload sample) <> PAYLOAD_FLOAT ->
            append_event (timestamp sample) (data (payload sample))
                         (event_size sample) tree = (res, tree1))
        /\ write sample rp cache cs h = Some r
        /\ wr_result r = res
        /\ wr_heap r = <[l := tree1]> h
        /\ (res = OK_FLUSH_NEEDED -> wr_rescue_points r = get_roots tree1)
        /\ (res <> OK_FLUSH_NEEDED -> wr_rescue_points r = rp))
  /\ (columns_ cs !! paramid sample = None ->
      write sample rp cache cs h
      = Some {| wr_result := FAIL_BAD_ID; wr_rescue_points := rp;
                wr_cache := cache; wr_heap := h |}).
Proof.
  split.
  - intros l tree Hcol Htree Hty.
    destruct (write_dispatch sample tree) as [res tree1] eqn:Hd.
    exists res, tree1. eexists.
    split; [intros E; rewrite <- Hd; symmetry; now apply write_dispatch_float |].
    split.
    { intros N. destruct Hty as [E | E]; [contradiction |].
      rewrite <- Hd. symmetry. now apply write_dispatch_event. }
    split; [rewrite (write_found _ _ _ _ _ _ _ Hcol Htree); reflexivity |].
    rewrite Hd. simpl. repeat split.
    + intros ->. reflexivity.
    + intros Hne.
      destruct (NBTreeAppendResult_eqb res OK_FLUSH_NEEDED) eqn:E; [| reflexivity].
      apply eqb_flush_needed in E. contradiction.
  - intros Hcol. unfold ColumnStore.write. rewrite Hcol. reflexivity.
Qed.

(** [create_new_column] refuses an id that has a column, with [BadArg] and
    nothing changed; for a new id it puts a tree made for the id, forced
    into its initialized state, at a location that was free, and enters it in
    the table. *)
Theorem create_new_column_refuses_existing_id
    (id : ParamId) (cs : ColumnStore) (h : gmap loc T) :
  (forall l, columns_ cs !! id = Some l ->
             create_new_column id cs h = (BadArg, cs, h))
  /\ (columns_ cs !! id = None ->
      exists l,
        h !! l = None
        /\ create_new_column id cs h
           = (Ok,
              {| columns_ := <[id := l]> (columns_ cs);
                 rescue_points_ := rescue_points_ cs |},
              <[l := force_init (make_tree id [])]> h)).
Proof.
  split.
  - intros l Hcol. unfold create_new_column. now rewrite Hcol.
  - intros Hcol. exists (fresh (dom h)). split.
    + apply not_elem_of_dom. apply is_fresh.
    + unfold create_new_column, make_shared. rewrite Hcol.
      now rewrite alter_insert_eq.
Qed.

(** With a cache to fill, [write] on a column leaves the id in the cache:
    bound to the tree of the column if it was not in the cache, and as it was
    bound otherwise. *)
Theorem write_leaves_id_cached
    (sample : Sample) (rp : list LogicAddr) (cache : gmap ParamId loc)
    (cs : ColumnStore) (h : gmap loc T) (l : loc) (tree : T) :
  columns_ cs !! paramid sample = Some l ->
  h !! l = Some tree ->
  exists r cache1,
    write sample rp (Some cache) cs h = Some r
    /\ wr_cache r = Some cache1
    /\ cache1 !! paramid sample = Some (default l (cache !! paramid sample))
    /\ (forall id, id <> paramid sample -> cache1 !! id = cache !! id).
Proof.
  intros Hcol Htree. rewrite (write_found _ _ _ _ _ _ _ Hcol Htree).
  eexists _, (cache_insert (paramid sample) l cache).
  split; [reflexivity |]. split; [reflexivity |].
  unfold cache_insert. destruct (cache !! paramid sample) as [l0 |] eqn:E; simpl.
  - split; [exact E | reflexivity].
  - split; [apply lookup_insert_eq |].
    intros id Hne. now apply lookup_insert_ne.
Qed.

End WriteFacts.

(** ** [CStoreSession::write] and [recovery_write] *)

Section SessionFacts.

Import ColumnStore.

Context {T : Type} {tree_ops : NBTreeExtentsList T}.
Variables PAYLOAD_FLOAT PAYLOAD_EVENT sizeof_Sample : Z.

Abbreviation session_write := (session_write PAYLOAD_FLOAT PAYLOAD_EVENT sizeof_Sample).

(** C10: a sample whose payload type is neither [PAYLOAD_FLOAT] nor
    [PAYLOAD_EVENT] makes [CStoreSession::write] return [FAIL_BAD_VALUE];
    the trees, the session cache and [rescue_points] are what they were. *)
Theorem session_write_rejects_other_payloads
    (sample : Sample) (rp : list LogicAddr) (sess : CStoreSession)
    (cs : ColumnStore) (h : gmap loc T) :
  type (payload sample) <> PAYLOAD_FLOAT ->
  type (payload sample) <> PAYLOAD_EVENT ->
  session_write sample rp sess cs h
  = Some {| sw_result := FAIL_BAD_VALUE; sw_rescue_points := rp;
            sw_session := sess; sw_heap := h |}.
Proof.
  intros Hnf Hne. unfold ColumnStore.session_write.
  payload_cases sample PAYLOAD_FLOAT PAYLOAD_EVENT; try contradiction. reflexivity.
Qed.

(** On a cache hit for a numeric sample, [CStoreSession::write] appends to
    the cached tree without looking at the column table, keeps the cache, and
    sets [rescue_points] to the roots of the new tree exactly when the status
    is [OK_FLUSH_NEEDED]. *)
Theorem session_write_cache_hit
    (sample : Sample) (rp : list LogicAddr) (sess : CStoreSession)
    (cs : ColumnStore) (h : gmap loc T) (l : loc) (tree : T) :
  type (payload sample) = PAYLOAD_FLOAT ->
  cache_ sess !! paramid sample = Some l ->
  h !! l = Some tree ->
  exists res tree1,
    append (timestamp sample) (float64 (payload sample)) tree = (res, tree1)
    /\ session_write sample rp sess cs h
       = Some {| sw_result := res;
                 sw_rescue_points :=
                   match res with OK_FLUSH_NEEDED => get_roots tree1 | _ => rp end;
                 sw_session := sess;
                 sw_heap := <[l := tree1]> h |}.
Proof.
  intros Hty Hhit Htree. unfold ColumnStore.session_write.
  rewrite Hty, Z.eqb_refl, Hhit. unfold cached_append. rewrite Htree. simpl.
  destruct (append (timestamp sample) (float64 (payload sample)) tree) as [res tree1].
  exists res, tree1. split; [reflexivity |]. now destruct res.
Qed.

(** On a column, [ColumnStore::recovery_write] is the three-argument
    [append] on the [float64] field, whatever the payload type. *)
Lemma recovery_write_found (sample : Sample) (allow : bool) cs (h : gmap loc T) l tree :
  columns_ cs !! paramid sample = Some l ->
  h !! l = Some tree ->
  recovery_write sample allow cs h
  = Some (fst (append_allow (timestamp sample) (float64 (payload sample)) allow tree),
          <[l := snd (append_allow (timestamp sample) (float64 (payload sample)) allow tree)]> h).
Proof.
  intros Hcol Htree. unfold recovery_write. rewrite Hcol. simpl.
  rewrite Htree. simpl.
  destruct (append_allow _ _ _ _) as [res tree1]. reflexivity.
Qed.

Lemma recovery_write_no_column (sample : Sample) (allow : bool) cs (h : gmap loc T) :
  columns_ cs !! paramid sample = None ->
  recovery_write sample allow cs h = Some (FAIL_BAD_ID, h).
Proof. intros Hcol. unfold recovery_write. rewrite Hcol. reflexivity. Qed.

End SessionFacts.

(** ** [ColumnStore::iterate] *)

Section IterateFacts.

Import ColumnStore.

Context {T : Type} {tree_ops : NBTreeExtentsList T}.
Context {IterType : Type}.
Variable fn : T -> Status * option IterType.

Lemma iterate_app (xs ys : list ParamId) dest cs (h : gmap loc T) dest1 h1 :
  iterate xs dest fn cs h = Some (Ok, dest1, h1) ->
  iterate (xs ++ ys) dest fn cs h = iterate ys dest1 fn cs h1.
Proof.
  revert dest h. induction xs as [| x xs IH]; intros dest h Hrun; simpl in *.
  - now inversion Hrun.
  - destruct (columns_ cs !! x) as [l |]; [| discriminate].
    destruct (h !! l) as [tree |]; simpl in *; [| discriminate].
    destruct (fn (if is_initialized tree then tree else force_init tree)) as [s iter].
    destruct (IsOk s) eqn:Hs.
    + now apply IH.
    + inversion Hrun; subst. discriminate.
Qed.

(** A run that ends with [Ok] has pushed one operator per id. *)
Lemma iterate_ok_length (ids : list ParamId) dest cs (h : gmap loc T) dest1 h1 :
  iterate ids dest fn cs h = Some (Ok, dest1, h1) ->
  exists iters, dest1 = dest ++ iters /\ length iters = length ids.
Proof.
  revert dest h. induction ids as [| x xs IH]; intros dest h Hrun; simpl in *.
  - inversion Hrun; subst. exists []. split; [now rewrite app_nil_r | reflexivity].
  - destruct (columns_ cs !! x) as [l |]; [| discriminate].
    destruct (h !! l) as [tree |]; simpl in *; [| discriminate].
    destruct (fn (if is_initialized tree then tree else force_init tree)) as [s iter].
    destruct (IsOk s) eqn:Hs.
    + destruct (IH _ _ Hrun) as (iters & -> & Hlen).
      exists (iter :: iters). split; [now rewrite <- app_assoc | simpl; lia].
    + inversion Hrun; subst. discriminate.
Qed.

(** An operation that returns [Ok] has appended one operator per id to
    [dest], after what [dest] held. *)
Theorem iterate_ok_one_operator_per_id
    (ids : list ParamId) (dest : list (option IterType)) (cs : ColumnStore)
    (h : gmap loc T) (dest1 : list (option IterType)) (h1 : gmap loc T) :
  iterate ids dest fn cs h = Some (Ok, dest1, h1) ->
  length dest1 = (length dest + length ids)%nat /\ take (length dest) dest1 = dest.
Proof.
  intros Hrun. destruct (iterate_ok_length _ _ _ _ _ _ Hrun) as (iters & -> & Hlen).
  split.
  - rewrite length_app. lia.
  - now rewrite take_app_length.
Qed.

(** Whatever the status, [dest] only grows, by at most one operator per
    id. *)
Lemma iterate_keeps_dest (ids : list ParamId) dest cs (h : gmap loc T) s dest1 h1 :
  iterate ids dest fn cs h = Some (s, dest1, h1) ->
  exists iters, dest1 = dest ++ iters /\ (length iters <= length ids)%nat.
Proof.
  revert dest h. induction ids as [| x xs IH]; intros dest h Hrun; simpl in *.
  - inversion Hrun; subst. exists []. split; [now rewrite app_nil_r | simpl; lia].
  - destruct (columns_ cs !! x) as [l |].
    + destruct (h !! l) as [tree |]; simpl in *; [| discriminate].
      destruct (fn (if is_initialized tree then tree else force_init tree)) as [s0 iter].
      destruct (IsOk s0) eqn:Hs.
      * destruct (IH _ _ Hrun) as (iters & -> & Hlen).
        exists (iter :: iters). split; [now rewrite <- app_assoc | simpl; lia].
      * inversion Hrun; subst. exists []. split; [now rewrite app_nil_r | simpl; lia].
    + inversion Hrun; subst. exists []. split; [now rewrite app_nil_r | simpl; lia].
Qed.

Lemma has_column_insert cs (h : gmap loc T) l0 t0 id :
  is_Some (h !! l0) -> has_column cs h id -> has_column cs (<[l0 := t0]> h) id.
Proof.
  intros Hl0 (l & Hcol & Hl). exists l. split; [assumption |].
  destruct (decide (l0 = l)) as [-> | Hne].
  - rewrite lookup_insert_eq. eauto.
  - now rewrite lookup_insert_ne.
Qed.

(** A callback that cannot fail goes through any ids that have a
    column. *)
Lemma iterate_total (ids : list ParamId) dest cs (h : gmap loc T) :
  (forall tree, IsOk (fst (fn tree)) = true) ->
  Forall (has_column cs h) ids ->
  exists dest1 h1, iterate ids dest fn cs h = Some (Ok, dest1, h1).
Proof.
  intros Hfn. revert dest h. induction ids as [| x xs IH]; intros dest h Hall; simpl.
  - eauto.
  - inversion Hall as [| ? ? (l & Hcol & [tree Htree]) Hrest]; subst.
    rewrite Hcol, Htree. simpl.
    specialize (Hfn (if is_initialized tree then tree else force_init tree)).
    destruct (fn _) as [s iter]. simpl in Hfn. rewrite Hfn.
    apply IH. eapply Forall_impl; [| exact Hrest].
    intros id Hid. apply has_column_insert; eauto.
Qed.

(** C9 (as amended): at the first id without a column the operation
    returns [NotFound] when it has gone through the ids before it with status
    [Ok]; the ids after it are not visited, and [dest] keeps the operators of
    the ids before it, one for each. An operation whose callback cannot fail
    goes through any ids that have a column, so for it the first id without
    a column always ends the operation this way. *)
Theorem iterate_not_found_keeps_earlier
    (before after : list ParamId) (id : ParamId)
    (dest : list (option IterType)) (cs : ColumnStore) (h : gmap loc T) :
  columns_ cs !! id = None ->
  (forall dest1 h1,
      iterate before dest fn cs h = Some (Ok, dest1, h1) ->
      iterate (before ++ id :: after) dest fn cs h = Some (NotFound, dest1, h1)
      /\ exists iters, dest1 = dest ++ iters /\ length iters = length before)
  /\ ((forall tree, IsOk (fst (fn tree)) = true) ->
      Forall (has_column cs h) before ->
      exists iters h1,
        iterate (before ++ id :: after) dest fn cs h
        = Some (NotFound, dest ++ iters, h1)
        /\ length iters = length before).
Proof.
  intros Hmiss.
  assert (Hstop : forall dest1 h1,
             iterate before dest fn cs h = Some (Ok, dest1, h1) ->
             iterate (before ++ id :: after) dest fn cs h = Some (NotFound, dest1, h1)).
  { intros dest1 h1 Hrun.
    rewrite (iterate_app _ _ _ _ _ _ _ Hrun). simpl. now rewrite Hmiss. }
  split.
  - intros dest1 h1 Hrun. split; [now apply Hstop |].
    eapply iterate_ok_length; eassumption.
  - intros Hfn Hcols.
    destruct (iterate_total before dest cs h Hfn Hcols) as (dest1 & h1 & Hrun).
    destruct (iterate_ok_length _ _ _ _ _ _ Hrun) as (iters & -> & Hlen).
    exists iters, h1. split; [now apply Hstop | exact Hlen].
Qed.

End IterateFacts.

(** ** The read operations built on [iterate] *)

Section ReadFacts.

Import ColumnStore.

Context {T : Type} {tree_ops : NBTreeExtentsList T}.

(** With a callback that cannot fail, the first id without a column ends
    the operation with [NotFound] when the ids before it have columns. *)
Lemma iterate_not_found_total {IterType : Type} (fn : T -> Status * option IterType)
    (before after : list ParamId) (id : ParamId) dest cs (h : gmap loc T) :
  (forall tree, IsOk (fst (fn tree)) = true) ->
  columns_ cs !! id = None ->
  Forall (has_column cs h) before ->
  exists iters h1,
    iterate (before ++ id :: after) dest fn cs h = Some (NotFound, dest ++ iters, h1)
    /\ length iters = length before.
Proof.
  intros Hfn Hmiss Hcols.
  destruct (iterate_total fn before dest cs h Hfn Hcols) as (dest1 & h1 & Hrun).
  destruct (iterate_ok_length fn before dest cs h dest1 h1 Hrun) as (iters & -> & Hlen).
  exists iters, h1. split; [| exact Hlen].
  rewrite (iterate_app fn _ _ _ _ _ _ _ Hrun). simpl. now rewrite Hmiss.
Qed.

Context {RealValuedOperator BinaryDataOperator AggregateOperator : Type}.
Context {ValueFilter AggregateFilter : Type}.
Variable search : Timestamp -> Timestamp -> T -> RealValuedOperator.
Variable search_binary : Timestamp -> Timestamp -> T -> BinaryDataOperator.
Variable filter_binary : Timestamp -> Timestamp -> list byte -> T -> BinaryDataOperator.
Variable filter_tree : Timestamp -> Timestamp -> ValueFilter -> T -> RealValuedOperator.
Variable aggregate_tree : Timestamp -> Timestamp -> T -> AggregateOperator.
Variable group_aggregate_tree : Timestamp -> Timestamp -> Timestamp -> T -> AggregateOperator.
Variable group_aggregate_filter :
  Timestamp -> Timestamp -> Timestamp -> AggregateFilter -> T -> AggregateOperator.
Variable mask : ValueFilter -> Z.
Variable bitmap : AggregateFilter -> Z.

Lemma scan_not_found before after id begin end_ dest cs (h : gmap loc T) :
  columns_ cs !! id = None ->
  Forall (has_column cs h) before ->
  exists iters h1,
    scan search (before ++ id :: after) begin end_ dest cs h
    = Some (NotFound, dest ++ iters, h1)
    /\ length iters = length before.
Proof. now apply iterate_not_found_total. Qed.

Lemma scan_events_not_found before after id begin end_ dest cs (h : gmap loc T) :
  columns_ cs !! id = None ->
  Forall (has_column cs h) before ->
  exists iters h1,
    scan_events search_binary (before ++ id :: after) begin end_ dest cs h
    = Some (NotFound, dest ++ iters, h1)
    /\ length iters = length before.
Proof. now apply iterate_not_found_total. Qed.

Lemma filter_events_not_found before after id begin end_ expr dest cs (h : gmap loc T) :
  columns_ cs !! id = None ->
  Forall (has_column cs h) before ->
  exists iters h1,
    filter_events filter_binary (before ++ id :: after) begin end_ expr dest cs h
    = Some (NotFound, dest ++ iters, h1)
    /\ length iters = length before.
Proof. now apply iterate_not_found_total. Qed.

Lemma aggregate_not_found before after id begin end_ dest cs (h : gmap loc T) :
  columns_ cs !! id = None ->
  Forall (has_column cs h) before ->
  exists iters h1,
    aggregate aggregate_tree (before ++ id :: after) begin end_ dest cs h
    = Some (NotFound, dest ++ iters, h1)
    /\ length iters = length before.
Proof. now apply iterate_not_found_total. Qed.

Lemma group_aggregate_not_found before after id begin end_ step dest cs (h : gmap loc T) :
  columns_ cs !! id = None ->
  Forall (has_column cs h) before ->
  exists iters h1,
    group_aggregate group_aggregate_tree (before ++ id :: after) begin end_ step dest cs h
    = Some (NotFound, dest ++ iters, h1)
    /\ length iters = length before.
Proof. now apply iterate_not_found_total. Qed.

(** The callbacks of [filter] and [group_aggfilter] fail, with [BadArg],
    exactly on a tree whose id has no entry in the filters map. *)
Lemma filter_fn_status begin end_ (filters : gmap ParamId ValueFilter) (elist : T) :
  fst (filter_fn search filter_tree mask begin end_ filters elist)
  = match filters !! get_id elist with Some _ => Ok | None => BadArg end.
Proof.
  unfold filter_fn. destruct (filters !! get_id elist) as [flt |]; [| reflexivity].
  now destruct (negb (mask flt =? 0)).
Qed.

Lemma group_aggfilter_fn_status begin end_ step
    (filters : gmap ParamId AggregateFilter) (elist : T) :
  fst (group_aggfilter_fn group_aggregate_tree group_aggregate_filter bitmap
                          begin end_ step filters elist)
  = match filters !! get_id elist with Some _ => Ok | None => BadArg end.
Proof.
  unfold group_aggfilter_fn. destruct (filters !! get_id elist) as [flt |]; [| reflexivity].
  now destruct (negb (bitmap flt =? 0)).
Qed.

(** A column without a filter ends [filter] with [BadArg] before any later
    id is looked up. *)
Lemma filter_bad_arg_first id rest begin end_ (filters : gmap ParamId ValueFilter)
    dest cs (h : gmap loc T) l tree :
  columns_ cs !! id = Some l ->
  h !! l = Some tree ->
  filters !! get_id (if is_initialized tree then tree else force_init tree) = None ->
  filter search filter_tree mask (id :: rest) begin end_ filters dest cs h
  = Some (BadArg, dest, <[l := if is_initialized tree then tree else force_init tree]> h).
Proof.
  intros Hcol Htree Hflt. unfold filter. simpl.
  rewrite Hcol, Htree. simpl.
  unfold filter_fn. rewrite Hflt. reflexivity.
Qed.

End ReadFacts.

(** ** The column store on concrete stores *)

Section ColumnStoreExamples.

Import ColumnStore NBTreeModel Fixtures.

(** C2, applied to a numeric sample on column 42 and to a sample of an id
    without a column. *)
Lemma write_appends_and_reports_roots_witness :
  (columns_ cs42 !! paramid (float_sample 42 5 1) = Some loc42
   /\ heap42 !! loc42 = Some tree42
   /\ (type (payload (float_sample 42 5 1)) = P_FLOAT
       \/ type (payload (float_sample 42 5 1)) = P_EVENT)
   /\ exists res tree1 r,
       (type (payload (float_sample 42 5 1)) = P_FLOAT ->
        append (NBTreeExtentsList := small_tree) 5 1%float tree42 = (res, tree1))
       /\ (type (payload (float_sample 42 5 1)) <> P_FLOAT ->
           append_event (NBTreeExtentsList := small_tree) 5 []
                        (event_size SIZEOF_SAMPLE (float_sample 42 5 1)) tree42
           = (res, tree1))
       /\ fixture_write (float_sample 42 5 1) [] None cs42 heap42 = Some r
       /\ wr_result r = res
       /\ wr_heap r = <[loc42 := tree1]> heap42
       /\ (res = OK_FLUSH_NEEDED ->
           wr_rescue_points r = get_roots (NBTreeExtentsList := small_tree) tree1)
       /\ (res <> OK_FLUSH_NEEDED -> wr_rescue_points r = []))
  /\ (columns_ cs42 !! paramid (float_sample 7 5 1) = None
      /\ fixture_write (float_sample 7 5 1) [] None cs42 heap42
         = Some {| wr_result := FAIL_BAD_ID; wr_rescue_points := [];
                   wr_cache := None; wr_heap := heap42 |}).
Proof.
  split.
  - split; [reflexivity |]. split; [reflexivity |]. split; [left; reflexivity |].
    apply (proj1 (write_appends_and_reports_roots (tree_ops := small_tree)
                    P_FLOAT P_EVENT SIZEOF_SAMPLE
                    (float_sample 42 5 1) [] None cs42 heap42) loc42 tree42);
      [reflexivity | reflexivity | left; reflexivity].
  - split; [reflexivity |].
    apply (proj2 (write_appends_and_reports_roots (tree_ops := small_tree)
                    P_FLOAT P_EVENT SIZEOF_SAMPLE
                    (float_sample 7 5 1) [] None cs42 heap42)).
    reflexivity.
Defined.

(** The sample that fills the leaf: [rescue_points] receives the roots. *)
Example write_flush_needed_fills_rescue_points :
  let h1 := write_all [float_sample 42 5 1] cs42 heap42 in
  (wr_result <$> fixture_write (float_sample 42 6 2) [77] None cs42 h1,
   wr_rescue_points <$> fixture_write (float_sample 42 6 2) [77] None cs42 h1)
  = (Some OK_FLUSH_NEEDED, Some [0]).
Proof. vm_compute. reflexivity. Qed.

Example write_ok_keeps_rescue_points :
  (wr_result <$> fixture_write (float_sample 42 5 1) [77] None cs42 heap42,
   wr_rescue_points <$> fixture_write (float_sample 42 5 1) [77] None cs42 heap42)
  = (Some OK, Some [77]).
Proof. vm_compute. reflexivity. Qed.

(** C2 as stated does not hold: column 42 exists, yet for a sample whose
    payload type is neither of the two, [write] returns [OK] and leaves
    every tree as it was, although either [append] of that sample would have
    changed the tree of the column. *)
Lemma write_skips_other_payload_types :
  columns_ cs42 !! paramid (tuple_sample 42 5) = Some loc42
  /\ heap42 !! loc42 = Some tree42
  /\ fixture_write (tuple_sample 42 5) [] None cs42 heap42
     = Some {| wr_result := OK; wr_rescue_points := [];
               wr_cache := None; wr_heap := heap42 |}
  /\ snd (append (NBTreeExtentsList := small_tree) 5 0%float tree42) <> tree42
  /\ snd (append_event (NBTreeExtentsList := small_tree) 5 []
                       (event_size SIZEOF_SAMPLE (tuple_sample 42 5)) tree42)
     <> tree42.
Proof.
  split; [reflexivity |]. split; [reflexivity |]. split; [reflexivity |].
  split; vm_compute; discriminate.
Qed.

(** C10, applied to a tuple sample. *)
Lemma session_write_rejects_other_payloads_witness :
  type (payload (tuple_sample 42 5)) <> P_FLOAT
  /\ type (payload (tuple_sample 42 5)) <> P_EVENT
  /\ fixture_session_write (tuple_sample 42 5) [77] {| cache_ := ∅ |} cs42 heap42
     = Some {| sw_result := FAIL_BAD_VALUE; sw_rescue_points := [77];
               sw_session := {| cache_ := ∅ |}; sw_heap := heap42 |}.
Proof.
  split; [vm_compute; discriminate |]. split; [vm_compute; discriminate |].
  apply (session_write_rejects_other_payloads (tree_ops := small_tree)
           P_FLOAT P_EVENT SIZEOF_SAMPLE);
    vm_compute; discriminate.
Defined.

(** C9, applied to [scan] over the ids 42 (a column) and 7 (none). *)
Lemma iterate_not_found_keeps_earlier_witness :
  columns_ cs42 !! 7 = None
  /\ (iterate (tree_ops := small_tree) [42] [] (scan_fn search 0 10) cs42 heap42
      = Some (Ok, [Some []], heap42)
      /\ iterate (tree_ops := small_tree) ([42] ++ 7 :: [42]) [] (scan_fn search 0 10)
                 cs42 heap42
         = Some (NotFound, [Some []], heap42)
      /\ exists iters : list (option (list (Timestamp * float))),
          [Some []] = [] ++ iters /\ length iters = length [42])
  /\ ((forall t : tree, IsOk (fst (scan_fn search 0 10 t)) = true)
      /\ Forall (has_column cs42 heap42) [42]
      /\ exists iters h1,
          iterate (tree_ops := small_tree) ([42] ++ 7 :: [42]) [] (scan_fn search 0 10)
                  cs42 heap42
          = Some (NotFound, [] ++ iters, h1)
          /\ length iters = length [42]).
Proof.
  assert (Hfn : forall t : tree, IsOk (fst (scan_fn search 0 10 t)) = true)
    by (intros t; reflexivity).
  assert (Hcols : Forall (has_column cs42 heap42) [42]).
  { constructor; [| constructor]. exists loc42. split; [reflexivity |].
    exists tree42. reflexivity. }
  pose proof (iterate_not_found_keeps_earlier (tree_ops := small_tree)
                (scan_fn search 0 10) [42] [42] 7 [] cs42 heap42 eq_refl)
    as [Hstep Htotal].
  split; [reflexivity |]. split.
  - split; [reflexivity |]. exact (Hstep [Some []] heap42 eq_refl).
  - split; [exact Hfn |]. split; [exact Hcols |]. exact (Htotal Hfn Hcols).
Defined.

(** C9 as stated does not hold for [filter]: id 7 has no column, but the
    operation ends with [BadArg] at id 42, which has a column and no entry
    in the filters map. *)
Lemma filter_bad_arg_before_missing_column :
  columns_ cs42 !! 7 = None
  /\ filter (tree_ops := small_tree) search filter_range vf_mask
            [42; 7] 0 10 ∅ [] cs42 heap42
     = Some (BadArg, [], heap42).
Proof. split; reflexivity. Qed.

(** [create_new_column] on column 42, which exists, and on 7, which does
    not. *)
Lemma create_new_column_refuses_existing_id_witness :
  (columns_ cs42 !! 42 = Some loc42
   /\ create_new_column (tree_ops := small_tree) 42 cs42 heap42 = (BadArg, cs42, heap42))
  /\ (columns_ cs42 !! 7 = None
      /\ exists l,
          heap42 !! l = None
          /\ create_new_column (tree_ops := small_tree) 7 cs42 heap42
             = (Ok,
                {| columns_ := <[7 := l]> (columns_ cs42);
                   rescue_points_ := rescue_points_ cs42 |},
                <[l := init (new_tree 7 [])]> heap42)).
Proof.
  split.
  - split; [reflexivity |].
    exact (proj1 (create_new_column_refuses_existing_id (tree_ops := small_tree)
                    42 cs42 heap42) loc42 eq_refl).
  - split; [reflexivity |].
    exact (proj2 (create_new_column_refuses_existing_id (tree_ops := small_tree)
                    7 cs42 heap42) eq_refl).
Defined.

(** A write to column 42 with an empty cache to fill. *)
Lemma write_leaves_id_cached_witness :
  columns_ cs42 !! paramid (float_sample 42 5 1) = Some loc42
  /\ heap42 !! loc42 = Some tree42
  /\ exists r cache1,
      fixture_write (float_sample 42 5 1) [] (Some ∅) cs42 heap42 = Some r
      /\ wr_cache r = Some cache1
      /\ cache1 !! paramid (float_sample 42 5 1)
         = Some (default loc42 ((∅ : gmap ParamId loc) !! paramid (float_sample 42 5 1)))
      /\ (forall id, id <> paramid (float_sample 42 5 1) ->
                     cache1 !! id = (∅ : gmap ParamId loc) !! id).
Proof.
  split; [reflexivity |]. split; [reflexivity |].
  exact (write_leaves_id_cached (tree_ops := small_tree) P_FLOAT P_EVENT SIZEOF_SAMPLE
           (float_sample 42 5 1) [] ∅ cs42 heap42 loc42 tree42 eq_refl eq_refl).
Defined.

(** A session that has column 42 cached writes to it while the column
    table it is given is empty. *)
Lemma session_write_cache_hit_witness :
  type (payload (float_sample 42 5 1)) = P_FLOAT
  /\ cache_ {| cache_ := {[42 := loc42]} |} !! paramid (float_sample 42 5 1) = Some loc42
  /\ heap42 !! loc42 = Some tree42
  /\ exists res tree1,
      append (NBTreeExtentsList := small_tree) 5 1%float tree42 = (res, tree1)
      /\ fixture_session_write (float_sample 42 5 1) [77]
            {| cache_ := {[42 := loc42]} |} empty_store heap42
         = Some {| sw_result := res;
                   sw_rescue_points :=
                     match res with
                     | OK_FLUSH_NEEDED => get_roots (NBTreeExtentsList := small_tree) tree1
                     | _ => [77]
                     end;
                   sw_session := {| cache_ := {[42 := loc42]} |};
                   sw_heap := <[loc42 := tree1]> heap42 |}.
Proof.
  split; [reflexivity |]. split; [reflexivity |]. split; [reflexivity |].
  exact (session_write_cache_hit (tree_ops := small_tree) P_FLOAT P_EVENT SIZEOF_SAMPLE
           (float_sample 42 5 1) [77] {| cache_ := {[42 := loc42]} |} empty_store
           heap42 loc42 tree42 eq_refl eq_refl eq_refl).
Defined.

(** [scan] over the column 42 listed twice. *)
Lemma iterate_ok_one_operator_per_id_witness :
  iterate (tree_ops := small_tree) [42; 42] [None] (scan_fn search 0 10) cs42 heap42
  = Some (Ok, [None; Some []; Some []], heap42)
  /\ length [None; Some ([] : list (Timestamp * float)); Some []]
     = (length [None : option (list (Timestamp * float))] + length [42; 42])%nat
  /\ take (length [None : option (list (Timestamp * float))])
          [None; Some ([] : list (Timestamp * float)); Some []]
     = [None].
Proof.
  split; [reflexivity |].
  exact (iterate_ok_one_operator_per_id (tree_ops := small_tree) (scan_fn search 0 10)
           [42; 42] [None] cs42 heap42 [None; Some []; Some []] heap42 eq_refl).
Defined.

(** C3, the code at an event sample replayed with [allow_duplicates]:
    [ColumnStore::recovery_write] stores the [float64] field as a numeric
    sample and the blob is lost, where [ColumnStore::write] stores the blob;
    [StandaloneDatabase::recovery_write] stores nothing and has no status to
    return. *)
Theorem recovery_write_loses_event_payload :
  (recovery_write (tree_ops := small_tree) (event_sample 42 5 boom) true cs42 heap42
   ≫= fun r => t_stored <$> snd r !! loc42)
  = Some [(5, VFloat 0)]
  /\ (fixture_write (event_sample 42 5 boom) [] None cs42 heap42
      ≫= fun r => t_stored <$> wr_heap r !! loc42)
     = Some [(5, VEvent boom)]
  /\ StandaloneDatabase.recovery_write (event_sample 42 5 boom) true cs42 heap42
     = (None, heap42).
Proof. repeat split; vm_compute; reflexivity. Qed.

End ColumnStoreExamples.

(** ** [search] on the model of a series *)

Section SearchFacts.

Import NBTreeModel.

Lemma map_fst_filter {A B : Type} (p : A -> bool) (l : list (A * B)) :
  map fst (List.filter (fun s => p (fst s)) l) = List.filter p (map fst l).
Proof.
  induction l as [| [a b] l IH]; simpl; [reflexivity |].
  destruct (p a); simpl; now rewrite IH.
Qed.

Lemma Forall_filter_keep {A : Type} (P : A -> Prop) (p : A -> bool) (l : list A) :
  Forall P l -> Forall P (List.filter p l).
Proof.
  induction 1 as [| x l Hx Hl IH]; simpl; [constructor |].
  destruct (p x); [constructor |]; assumption.
Qed.

Lemma StronglySorted_filter {A : Type} (R : A -> A -> Prop) (p : A -> bool) (l : list A) :
  StronglySorted R l -> StronglySorted R (List.filter p l).
Proof.
  induction 1 as [| x l Hl IH Hx]; simpl; [constructor |].
  destruct (p x); [| assumption].
  constructor; [assumption | now apply Forall_filter_keep].
Qed.

Lemma StronglySorted_snoc {A : Type} (R : A -> A -> Prop) (l : list A) (a : A) :
  StronglySorted R l -> Forall (fun x => R x a) l -> StronglySorted R (l ++ [a]).
Proof.
  induction 1 as [| x l Hl IH Hx]; intros Hall; simpl.
  - repeat constructor.
  - inversion Hall as [| ? ? Hxa Hrest]; subst.
    constructor; [now apply IH |].
    apply Forall_app. split; [assumption | now repeat constructor].
Qed.

Lemma StronglySorted_rev {A : Type} (R : A -> A -> Prop) (l : list A) :
  StronglySorted R l -> StronglySorted (fun x y => R y x) (rev l).
Proof.
  induction 1 as [| x l Hl IH Hx]; simpl; [constructor |].
  apply StronglySorted_snoc; [assumption |].
  apply Forall_rev. exact Hx.
Qed.

Lemma le_strongly (l : list Z) : Sorted Z.le l -> StronglySorted Z.le l.
Proof. apply Sorted_StronglySorted. intros x y z. apply Z.le_trans. Qed.

Lemma sorted_le_filter (p : Z -> bool) (l : list Z) :
  Sorted Z.le l -> Sorted Z.le (List.filter p l).
Proof.
  intros Hl. apply StronglySorted_Sorted, StronglySorted_filter, le_strongly, Hl.
Qed.

(** *** Ordering by timestamp *)

Lemma insert_by_timestamp_perm (s : Timestamp * float) (l : list (Timestamp * float)) :
  Permutation (insert_by_timestamp s l) (s :: l).
Proof.
  induction l as [| x rest IH]; simpl; [reflexivity |].
  destruct (fst s <=? fst x); [reflexivity |].
  rewrite IH. apply perm_swap.
Qed.

Lemma by_timestamp_perm (l : list (Timestamp * float)) :
  Permutation (by_timestamp l) l.
Proof.
  induction l as [| s rest IH]; simpl; [reflexivity |].
  rewrite insert_by_timestamp_perm. now constructor.
Qed.

Lemma insert_by_timestamp_sorted (s : Timestamp * float) (l : list (Timestamp * float)) :
  Sorted Z.le (map fst l) -> Sorted Z.le (map fst (insert_by_timestamp s l)).
Proof.
  induction l as [| x rest IH]; simpl; intros Hl; [repeat constructor |].
  destruct (Z.leb_spec (fst s) (fst x)) as [Hle | Hgt]; simpl.
  - constructor; [assumption | now constructor].
  - inversion Hl as [| ? ? Hrest Hhd]; subst.
    constructor; [now apply IH |].
    destruct rest as [| y rest']; simpl.
    + constructor. lia.
    + destruct (fst s <=? fst y); simpl; constructor; [lia |].
      now inversion Hhd.
Qed.

Lemma by_timestamp_sorted (l : list (Timestamp * float)) :
  Sorted Z.le (map fst (by_timestamp l)).
Proof.
  induction l as [| s rest IH]; simpl; [constructor |].
  now apply insert_by_timestamp_sorted.
Qed.

(** Samples that come in the order of their timestamps stay as they are. *)
Lemma by_timestamp_ordered (l : list (Timestamp * float)) :
  Sorted Z.le (map fst l) -> by_timestamp l = l.
Proof.
  induction l as [| s rest IH]; simpl; intros Hl; [reflexivity |].
  inversion Hl as [| ? ? Hrest Hhd]; subst.
  rewrite (IH Hrest).
  destruct rest as [| x rest']; [reflexivity |]. simpl.
  inversion Hhd as [| ? ? Hle]; subst.
  apply Z.leb_le in Hle. now rewrite Hle.
Qed.

Lemma sorted_rev_ge (l : list Z) : Sorted Z.le l -> Sorted Z.ge (rev l).
Proof.
  intros Hl. apply StronglySorted_Sorted.
  assert (Hs : StronglySorted (fun x y => y <= x) (rev l)).
  { apply StronglySorted_rev, le_strongly, Hl. }
  clear Hl. induction Hs as [| x l' Hl' IH Hx]; constructor; [assumption |].
  eapply Forall_impl; [| exact Hx]. intros y Hy. simpl in Hy. lia.
Qed.

(** The samples [search] yields, in both directions: those of the range,
    each as often as it is stored, and in the order of the timestamps. *)
Lemma search_forward_samples (t : tree) (begin end_ : Timestamp) :
  begin < end_ ->
  Sorted Z.le (map fst (search begin end_ t))
  /\ Permutation (search begin end_ t)
       (List.filter (fun s => (begin <=? fst s) && (fst s <? end_)) (numeric_samples t)).
Proof.
  intros Hlt. unfold search, in_range.
  apply Z.ltb_lt in Hlt. rewrite Hlt.
  split; [apply by_timestamp_sorted | apply by_timestamp_perm].
Qed.

Lemma search_backward_samples (t : tree) (begin end_ : Timestamp) :
  end_ < begin ->
  Sorted Z.ge (map fst (search begin end_ t))
  /\ Permutation (search begin end_ t)
       (List.filter (fun s => (end_ <? fst s) && (fst s <=? begin)) (numeric_samples t)).
Proof.
  intros Hlt. unfold search, in_range.
  assert (Hge : (begin <? end_) = false) by (apply Z.ltb_ge; lia). rewrite Hge.
  split.
  - rewrite map_rev. apply sorted_rev_ge, by_timestamp_sorted.
  - rewrite <- Permutation_rev. apply by_timestamp_perm.
Qed.

(** On a series whose timestamps do not decrease along the appends, the
    timestamps [search] yields are the stored ones of the range as they are
    stored, or reversed. *)
Lemma search_forward (t : tree) (begin end_ : Timestamp) :
  series_ordered t ->
  begin < end_ ->
  map fst (search begin end_ t)
  = List.filter (fun ts => (begin <=? ts) && (ts <? end_)) (timestamps t).
Proof.
  intros Hord Hlt. unfold search, in_range, timestamps.
  apply Z.ltb_lt in Hlt. rewrite Hlt.
  rewrite by_timestamp_ordered.
  - apply (map_fst_filter (fun ts => (begin <=? ts) && (ts <? end_))).
  - rewrite (map_fst_filter (fun ts => (begin <=? ts) && (ts <? end_))).
    now apply sorted_le_filter.
Qed.

Lemma search_backward (t : tree) (begin end_ : Timestamp) :
  series_ordered t ->
  end_ < begin ->
  map fst (search begin end_ t)
  = rev (List.filter (fun ts => (end_ <? ts) && (ts <=? begin)) (timestamps t)).
Proof.
  intros Hord Hlt. unfold search, in_range, timestamps.
  assert (Hge : (begin <? end_) = false) by (apply Z.ltb_ge; lia). rewrite Hge.
  rewrite by_timestamp_ordered.
  - rewrite map_rev. f_equal.
    apply (map_fst_filter (fun ts => (end_ <? ts) && (ts <=? begin))).
  - rewrite (map_fst_filter (fun ts => (end_ <? ts) && (ts <=? begin))).
    now apply sorted_le_filter.
Qed.

(** Initialising a tree does not change what [search] yields. *)
Lemma search_init (t : tree) (begin end_ : Timestamp) :
  search begin end_ (if t_initialized t then t else init t) = search begin end_ t.
Proof. now destruct (t_initialized t). Qed.

(** C1: for every series, whatever the order in which its samples were
    appended, and every pair of timestamps, [search] yields the stored
    samples whose timestamp [ts] has [begin <= ts < end], each as often as it
    is stored, with ascending timestamps when [begin < end], and those with
    [end < ts <= begin] with descending timestamps when [begin > end];
    [ColumnStore::scan] hands out exactly that operator for the column of
    the series. *)
Theorem search_ordered_half_open (t : tree) (begin end_ : Timestamp) :
  (begin < end_ ->
   Sorted Z.le (map fst (search begin end_ t))
   /\ Permutation (search begin end_ t)
        (List.filter (fun s => (begin <=? fst s) && (fst s <? end_))
                     (numeric_samples t)))
  /\ (end_ < begin ->
      Sorted Z.ge (map fst (search begin end_ t))
      /\ Permutation (search begin end_ t)
           (List.filter (fun s => (end_ <? fst s) && (fst s <=? begin))
                        (numeric_samples t)))
  /\ (forall leaf_capacity id cs (h : gmap ColumnStore.loc tree) l,
      ColumnStore.columns_ cs !! id = Some l ->
      h !! l = Some t ->
      exists h1,
        ColumnStore.scan (tree_ops := model_tree leaf_capacity) search
                         [id] begin end_ [] cs h
        = Some (Ok, [Some (search begin end_ t)], h1)).
Proof.
  split; [| split].
  - apply search_forward_samples.
  - apply search_backward_samples.
  - intros cap id cs h l Hcol Htree. eexists.
    unfold ColumnStore.scan. simpl. rewrite Hcol. simpl. rewrite Htree. simpl.
    rewrite search_init. reflexivity.
Qed.

(** [search] reads nothing of a tree but the stored samples. *)
Lemma search_stored (t1 t2 : tree) (begin end_ : Timestamp) :
  t_stored t1 = t_stored t2 -> search begin end_ t1 = search begin end_ t2.
Proof. intros E. unfold search, numeric_samples. now rewrite E. Qed.

(** [ColumnStore::scan] over ids that have columns: one operator per id, in
    the order of the ids, each the [search] of the tree of its column. *)
Lemma scan_yields_searches (leaf_capacity : nat) (ids : list ParamId)
    (begin end_ : Timestamp) (dest : list (option (list (Timestamp * float))))
    (cs : ColumnStore.ColumnStore) (h : gmap ColumnStore.loc tree) :
  Forall (ColumnStore.has_column cs h) ids ->
  exists ops h1,
    ColumnStore.scan (tree_ops := model_tree leaf_capacity) search
                     ids begin end_ dest cs h
    = Some (Ok, dest ++ ops, h1)
    /\ Forall2 (fun id op =>
                 exists l t, ColumnStore.columns_ cs !! id = Some l
                             /\ h !! l = Some t
                             /\ op = Some (search begin end_ t))
               ids ops.
Proof.
  unfold ColumnStore.scan. revert dest h.
  induction ids as [| id ids IH]; intros dest h Hall; simpl.
  - exists [], h. split; [now rewrite app_nil_r | constructor].
  - inversion Hall as [| ? ? (l & Hcol & [t Ht]) Hrest]; subst.
    rewrite Hcol, Ht. simpl.
    set (t1 := if t_initialized t then t else init t).
    assert (Hst : t_stored t1 = t_stored t) by (unfold t1; now destruct (t_initialized t)).
    destruct (IH (dest ++ [Some (search begin end_ t1)]) (<[l := t1]> h))
      as (ops & h1 & Hrun & Hops).
    { eapply Forall_impl; [| exact Hrest].
      intros id' Hid'. apply has_column_insert; eauto. }
    exists (Some (search begin end_ t) :: ops), h1. split.
    + rewrite Hrun, (search_stored t1 t _ _ Hst), <- app_assoc. reflexivity.
    + constructor; [now exists l, t |].
      eapply Forall2_impl; [| exact Hops].
      intros id' op (l' & t' & Hcol' & Ht' & ->).
      destruct (decide (l = l')) as [<- | Hne].
      * rewrite lookup_insert_eq in Ht'. inversion Ht'; subst t'.
        exists l, t. repeat split; try assumption.
        now rewrite (search_stored t1 t _ _ Hst).
      * rewrite lookup_insert_ne in Ht' by assumption. now exists l', t'.
Qed.

(** Membership, read off the two directions. *)
Lemma search_forward_elem (t : tree) (begin end_ ts : Timestamp) :
  begin < end_ ->
  In ts (map fst (search begin end_ t))
  <-> In ts (timestamps t) /\ begin <= ts < end_.
Proof.
  intros Hlt.
  destruct (search_forward_samples t begin end_ Hlt) as [_ Hperm].
  assert (Hts : Permutation (map fst (search begin end_ t))
                  (List.filter (fun x => (begin <=? x) && (x <? end_)) (timestamps t))).
  { unfold timestamps.
    rewrite <- (map_fst_filter (fun x => (begin <=? x) && (x <? end_))).
    now apply Permutation_map. }
  split.
  - intros Hin. apply (Permutation_in _ Hts) in Hin.
    apply filter_In in Hin. rewrite andb_true_iff, Z.leb_le, Z.ltb_lt in Hin. tauto.
  - intros [Hin Hrange]. apply (Permutation_in _ (Permutation_sym Hts)).
    apply filter_In. rewrite andb_true_iff, Z.leb_le, Z.ltb_lt. tauto.
Qed.

Lemma search_backward_elem (t : tree) (begin end_ ts : Timestamp) :
  end_ < begin ->
  In ts (map fst (search begin end_ t))
  <-> In ts (timestamps t) /\ end_ < ts <= begin.
Proof.
  intros Hlt.
  destruct (search_backward_samples t begin end_ Hlt) as [_ Hperm].
  assert (Hts : Permutation (map fst (search begin end_ t))
                  (List.filter (fun x => (end_ <? x) && (x <=? begin)) (timestamps t))).
  { unfold timestamps.
    rewrite <- (map_fst_filter (fun x => (end_ <? x) && (x <=? begin))).
    now apply Permutation_map. }
  split.
  - intros Hin. apply (Permutation_in _ Hts) in Hin.
    apply filter_In in Hin. rewrite andb_true_iff, Z.leb_le, Z.ltb_lt in Hin. tauto.
  - intros [Hin Hrange]. apply (Permutation_in _ (Permutation_sym Hts)).
    apply filter_In. rewrite andb_true_iff, Z.leb_le, Z.ltb_lt. tauto.
Qed.

(** *** Series built by [append]

    The ordering contract keeps the invariant: every tree obtained from a new
    one by appends in normal mode is ordered. *)

Lemma timestamps_push_stored (ts : Timestamp) (v : Value) (l : list (Timestamp * Value)) :
  map fst (omap numeric (l ++ [(ts, v)]))
  = map fst (omap numeric l) ++ match v with VFloat _ => [ts] | VEvent _ => [] end.
Proof.
  rewrite omap_app, map_app. f_equal. now destruct v.
Qed.

Lemma push_keeps_order (cap : nat) (ts : Timestamp) (v : Value) (t : tree) :
  series_ordered t -> bounded t ->
  series_ordered (snd (push cap ts v false t)) /\ bounded (snd (push cap ts v false t)).
Proof.
  intros Hord Hbnd. unfold push. simpl.
  destruct (Z.ltb_spec ts (t_max t)) as [Hlate | Hok]; [now split |].
  assert (Hts : timestamps
                  {| t_id := t_id t; t_initialized := true; t_sealed := t_sealed t;
                     t_nblocks := t_nblocks t; t_leaf := t_leaf t;
                     t_max := Z.max (t_max t) ts;
                     t_stored := t_stored t ++ [(ts, v)] |}
                = timestamps t ++ match v with VFloat _ => [ts] | VEvent _ => [] end).
  { apply timestamps_push_stored. }
  assert (Hgoal :
            Sorted Z.le (timestamps t ++ match v with VFloat _ => [ts] | VEvent _ => [] end)
            /\ Forall (fun x => x <= Z.max (t_max t) ts)
                      (timestamps t ++ match v with VFloat _ => [ts] | VEvent _ => [] end)).
  { split.
    - destruct v as [x0 | blob]; [| now rewrite app_nil_r].
      apply StronglySorted_Sorted, StronglySorted_snoc; [now apply le_strongly |].
      eapply Forall_impl; [| exact Hbnd]. intros y Hy. simpl in Hy. lia.
    - apply Forall_app. split.
      + eapply Forall_impl; [| exact Hbnd]. intros y Hy. simpl in Hy. lia.
      + destruct v as [x0 | blob]; repeat constructor. lia. }
  rewrite <- Hts in Hgoal.
  destruct (cap <=? S (t_leaf t))%nat; exact Hgoal.
Qed.

End SearchFacts.

Section SeriesExamples.

Import NBTreeModel Fixtures.

(** Any series built from a new tree by appends in normal mode is
    ordered. *)
Lemma appended_series_ordered (cap : nat) (id : ParamId) (rp : list LogicAddr)
    (entries : list (Timestamp * Value)) :
  series_ordered
    (fold_left (fun t e => snd (push cap (fst e) (snd e) false t)) entries
               (new_tree id rp)).
Proof.
  assert (Hgen : forall t, series_ordered t -> bounded t ->
            series_ordered
              (fold_left (fun t e => snd (push cap (fst e) (snd e) false t)) entries t)).
  { induction entries as [| e es IH]; intros t Hord Hbnd; simpl; [assumption |].
    destruct (push_keeps_order cap (fst e) (snd e) t Hord Hbnd) as [Hord1 Hbnd1].
    now apply IH. }
  apply Hgen; constructor.
Qed.

(** C1, applied to the series of column 42 that recovery has left stored in
    the order 5, 9, 1, 5, 7, read from 2 to 9 and from 9 to 2. *)
Lemma search_ordered_half_open_witness :
  (2 < 9
   /\ Sorted Z.le (map fst (search 2 9 tree_replayed))
   /\ Permutation (search 2 9 tree_replayed)
        (List.filter (fun s => (2 <=? fst s) && (fst s <? 9))
                     (numeric_samples tree_replayed)))
  /\ (2 < 9
      /\ Sorted Z.ge (map fst (search 9 2 tree_replayed))
      /\ Permutation (search 9 2 tree_replayed)
           (List.filter (fun s => (2 <? fst s) && (fst s <=? 9))
                        (numeric_samples tree_replayed)))
  /\ (ColumnStore.columns_ cs42 !! 42 = Some loc42
      /\ heap_replayed !! loc42 = Some tree_replayed
      /\ exists h1,
          ColumnStore.scan (tree_ops := small_tree) search [42] 9 2 [] cs42 heap_replayed
          = Some (Ok, [Some (search 9 2 tree_replayed)], h1)).
Proof.
  assert (Hlt : 2 < 9) by lia.
  split; [split; [exact Hlt |];
          exact (proj1 (search_ordered_half_open tree_replayed 2 9) Hlt) |].
  split; [split; [exact Hlt |];
          exact (proj1 (proj2 (search_ordered_half_open tree_replayed 9 2)) Hlt) |].
  split; [reflexivity |]. split; [reflexivity |].
  exact (proj2 (proj2 (search_ordered_half_open tree_replayed 9 2))
               2%nat 42 cs42 heap_replayed loc42 eq_refl eq_refl).
Defined.

(** The samples replayed behind higher timestamps are stored behind them and
    read at their place. *)
Example replayed_series_stored :
  timestamps tree_replayed = [5; 9; 1; 5; 7].
Proof. vm_compute. reflexivity. Qed.

Example search_replayed_forward :
  search 0 10 tree_replayed
  = [(1, 10%float); (5, 50%float); (5, 51%float); (7, 70%float); (9, 90%float)].
Proof. vm_compute. reflexivity. Qed.

Example search_replayed_backward :
  search 9 2 tree_replayed
  = [(9, 90%float); (7, 70%float); (5, 51%float); (5, 50%float)].
Proof. vm_compute. reflexivity. Qed.

Example scan_replayed :
  scanned_timestamps 0 10 heap_replayed = Some [[1; 5; 5; 7; 9]].
Proof. vm_compute. reflexivity. Qed.

Example search_forward_example :
  search 2 9 tree5 = [(2, 20%float); (2, 21%float); (5, 50%float)].
Proof. vm_compute. reflexivity. Qed.

Example search_backward_example :
  search 9 2 tree5 = [(9, 90%float); (5, 50%float)].
Proof. vm_compute. reflexivity. Qed.

(** [test_storage_read_query] for one series, at its first two inputs:
    the data fills [min(begin, end), max(begin, end)), and the timestamps
    read back are those of [begin, end), or of [(end, begin)] downwards. *)
Example scan_matches_read_query_forward :
  scanned_timestamps 100 200 (fill_range 100 200 42 cs42 heap42)
  = Some [read_query_expected 100 200].
Proof. vm_compute. reflexivity. Qed.

Example scan_matches_read_query_backward :
  scanned_timestamps 200 100 (fill_range 100 200 42 cs42 heap42)
  = Some [read_query_expected 200 100].
Proof. vm_compute. reflexivity. Qed.

Example scan_example :
  ColumnStore.scan (tree_ops := small_tree) search [42] 9 2 [] cs42 heap5
  = Some (Ok, [Some [(9, 90%float); (5, 50%float)]], heap5).
Proof. vm_compute. reflexivity. Qed.

End SeriesExamples.

(** ** [group_aggregate] on the model of a series *)

Section GroupAggregateFacts.

Import NBTreeModel.

Variable bucket_of : Timestamp -> Z.

(** Every bucket number that comes out is the open one or the number of a
    sample, and every sample's number comes out. *)
Lemma group_buckets_keys (hits : list (Timestamp * float))
    (open : option (Z * AggregationResult)) (k : Z) :
  In k (map fst (group_buckets bucket_of hits open))
  <-> (exists a, open = Some (k, a)) \/ In k (map bucket_of (map fst hits)).
Proof.
  revert open. induction hits as [| [ts x] hits IH]; intros open; simpl.
  - destruct open as [[k0 a] |]; simpl.
    + split.
      * intros [<- | []]. left. eauto.
      * intros [[a' Ha] | []]. inversion Ha. now left.
    + split; [intros [] | intros [[a' Ha] | []]; discriminate].
  - destruct open as [[k0 a] |].
    + destruct (Z.eqb_spec (bucket_of ts) k0) as [E | N].
      * rewrite IH. split.
        -- intros [[a' Ha] | Hin]; [inversion Ha; subst; left; eauto | right; now right].
        -- intros [[a' Ha] | [Hk | Hin]].
           ++ inversion Ha; subst. left. eauto.
           ++ left. subst. eauto.
           ++ now right.
      * simpl. rewrite IH. split.
        -- intros [Hk | [[a' Ha] | Hin]].
           ++ left. subst. eauto.
           ++ inversion Ha; subst. right. now left.
           ++ right. now right.
        -- intros [[a' Ha] | [Hk | Hin]].
           ++ inversion Ha; subst. now left.
           ++ right. left. subst. eauto.
           ++ right. now right.
    + rewrite IH. split.
      * intros [[a' Ha] | Hin]; [inversion Ha; subst; right; now left | right; now right].
      * intros [[a' Ha] | [Hk | Hin]]; [discriminate | left; subst; eauto | now right].
Qed.

(** The samples with the least and the greatest value of a bucket are
    samples of the range with the number of the bucket. *)
Lemma group_buckets_extremes (all hits : list (Timestamp * float))
    (open : option (Z * AggregationResult)) :
  (forall s, In s hits -> In (fst s) (map fst all)) ->
  (forall k a, open = Some (k, a) ->
     from_bucket bucket_of all k (min_ts a) /\ from_bucket bucket_of all k (max_ts a)) ->
  Forall (fun b => from_bucket bucket_of all (fst b) (min_ts (snd b))
                   /\ from_bucket bucket_of all (fst b) (max_ts (snd b)))
         (group_buckets bucket_of hits open).
Proof.
  revert open. induction hits as [| [ts x] hits IH]; intros open Hin Hopen; simpl.
  - destruct open as [[k0 a] |]; [| constructor].
    constructor; [| constructor]. now apply Hopen.
  - assert (Hts : In ts (map fst all)) by (apply (Hin (ts, x)); now left).
    assert (Hin' : forall s, In s hits -> In (fst s) (map fst all))
      by (intros s Hs; apply Hin; now right).
    assert (Hnew : forall k a, Some (bucket_of ts, agg_init ts x) = Some (k, a) ->
              from_bucket bucket_of all k (min_ts a) /\ from_bucket bucket_of all k (max_ts a)).
    { intros k a Ha. inversion Ha; subst. simpl. now split. }
    destruct open as [[k0 a] |].
    + destruct (Hopen k0 a eq_refl) as [Hmin Hmax].
      destruct (Z.eqb_spec (bucket_of ts) k0) as [E | N].
      * apply IH; [assumption |].
        intros k a' Ha. inversion Ha; subst. simpl.
        split.
        -- destruct (PrimFloat.ltb x (min a)); [now split | assumption].
        -- destruct (PrimFloat.ltb (max a) x); [now split | assumption].
      * constructor; [now split |]. now apply IH.
    + now apply IH.
Qed.

End GroupAggregateFacts.

Section GroupAggregateAnchor.

Import NBTreeModel Fixtures.

(** The start of the bucket of [ts] when buckets are counted from
    [begin]. *)
Lemma bucket_start_bounds (begin step ts : Z) :
  0 < step -> begin <= ts ->
  begin <= begin + (ts - begin) / step * step
  /\ begin + (ts - begin) / step * step <= ts
  /\ ts < begin + (ts - begin) / step * step + step.
Proof.
  intros Hstep Hts.
  pose proof (Z.div_mod (ts - begin) step ltac:(lia)) as Hdm.
  pose proof (Z.mod_pos_bound (ts - begin) step Hstep) as Hmod.
  assert (0 <= (ts - begin) / step) by (apply Z.div_pos; lia).
  nia.
Qed.

(** C4 (as amended): over a range [begin < end] with a positive step, the
    timestamp of every emitted bucket is [begin + floor((ts - begin) / step)
    * step] for the samples [ts] aggregated into it (shown for the samples of
    least and of greatest value), it lies in the range, and every sample of
    the range has its bucket emitted: buckets are aligned to [begin] plus
    multiples of the step. *)
Theorem group_aggregate_buckets_anchored_at_begin
    (t : tree) (begin end_ step : Timestamp) :
  begin < end_ -> 0 < step ->
  (forall b, In b (group_aggregate begin end_ step t) ->
     fst b = begin + (min_ts (snd b) - begin) / step * step
     /\ fst b = begin + (max_ts (snd b) - begin) / step * step
     /\ In (min_ts (snd b)) (map fst (search begin end_ t))
     /\ In (max_ts (snd b)) (map fst (search begin end_ t))
     /\ begin <= fst b <= min_ts (snd b)
     /\ min_ts (snd b) < fst b + step
     /\ fst b < end_)
  /\ (forall ts, In ts (map fst (search begin end_ t)) ->
        In (begin + (ts - begin) / step * step)
           (map fst (group_aggregate begin end_ step t))).
Proof.
  intros Hlt Hstep. unfold group_aggregate.
  assert (Hb : (begin <? end_) = true) by now apply Z.ltb_lt. rewrite Hb.
  set (f := fun ts => (ts - begin) / step).
  set (hits := search begin end_ t).
  split.
  - intros b Hin. apply in_map_iff in Hin. destruct Hin as ([k a] & <- & Hin).
    pose proof (group_buckets_extremes f hits hits None
                  ltac:(intros s Hs; now apply in_map)
                  ltac:(intros ? ? Hc; discriminate Hc)) as Hall.
    rewrite Forall_forall in Hall.
    destruct (Hall _ Hin) as [[Hkmin Hmin] [Hkmax Hmax]].
    simpl in Hkmin, Hkmax, Hmin, Hmax. unfold f in Hkmin, Hkmax. simpl.
    assert (Hrange : begin <= min_ts a < end_).
    { apply (search_forward_elem t begin end_ _ Hlt) in Hmin. tauto. }
    destruct (bucket_start_bounds begin step (min_ts a) Hstep ltac:(lia)) as (B1 & B2 & B3).
    rewrite Hkmin in B1, B2, B3. rewrite Hkmin, Hkmax.
    repeat split; try assumption; lia.
  - intros ts Hts.
    assert (Hk : In (f ts) (map fst (group_buckets f hits None))).
    { apply group_buckets_keys. right. now apply in_map. }
    apply in_map_iff in Hk. destruct Hk as (b & Hb1 & Hb2).
    apply in_map_iff. exists (begin + fst b * step, snd b). split.
    + simpl. rewrite Hb1. reflexivity.
    + apply in_map_iff. exists b. split; [reflexivity | assumption].
Qed.

End GroupAggregateAnchor.

Section GroupAggregateExamples.

Import NBTreeModel Fixtures.

(** C4, applied to the series of column 42 with the range [1, 10) and
    step 3. *)
Lemma group_aggregate_buckets_anchored_at_begin_witness :
  1 < 10 /\ 0 < 3
  /\ (forall b, In b (group_aggregate 1 10 3 tree5) ->
        fst b = 1 + (min_ts (snd b) - 1) / 3 * 3
        /\ fst b = 1 + (max_ts (snd b) - 1) / 3 * 3
        /\ In (min_ts (snd b)) (map fst (search 1 10 tree5))
        /\ In (max_ts (snd b)) (map fst (search 1 10 tree5))
        /\ 1 <= fst b <= min_ts (snd b)
        /\ min_ts (snd b) < fst b + 3
        /\ fst b < 10)
  /\ (forall ts, In ts (map fst (search 1 10 tree5)) ->
        In (1 + (ts - 1) / 3 * 3) (map fst (group_aggregate 1 10 3 tree5))).
Proof.
  split; [lia |]. split; [lia |].
  apply (group_aggregate_buckets_anchored_at_begin tree5 1 10 3); lia.
Defined.

Example group_aggregate_example :
  map (fun b => (fst b, cnt (snd b))) (group_aggregate 1 10 3 tree5)
  = [(1, 3); (4, 1); (7, 1)].
Proof. vm_compute. reflexivity. Qed.

(** [group_aggregate] reads nothing of a tree but the stored samples. *)
Lemma group_aggregate_stored (t1 t2 : tree) (begin end_ step : Timestamp) :
  t_stored t1 = t_stored t2 ->
  group_aggregate begin end_ step t1 = group_aggregate begin end_ step t2.
Proof.
  intros E. unfold group_aggregate, search, numeric_samples. now rewrite E.
Qed.

Lemma group_aggregate_zero_anchored_stored (t1 t2 : tree) (begin end_ step : Timestamp) :
  t_stored t1 = t_stored t2 ->
  group_aggregate_zero_anchored begin end_ step t1
  = group_aggregate_zero_anchored begin end_ step t2.
Proof.
  intros E. unfold group_aggregate_zero_anchored, search, numeric_samples. now rewrite E.
Qed.

(** An accepted numeric sample is added at the end of the series. *)
Lemma push_accepted (cap : nat) (ts : Timestamp) (x : float) (t : tree) :
  t_max t <= ts ->
  t_stored (snd (push cap ts (VFloat x) false t)) = t_stored t ++ [(ts, VFloat x)]
  /\ t_max (snd (push cap ts (VFloat x) false t)) = ts.
Proof.
  intros Hle. unfold push. simpl.
  destruct (Z.ltb_spec ts (t_max t)) as [Hlt | _]; [lia |].
  destruct (cap <=? S (t_leaf t))%nat; simpl; split; try reflexivity; lia.
Qed.

(** Writing points in timestamp order to a column adds them, in that
    order, to the series of the column. *)
Lemma write_all_stored (id : ParamId) (cs : ColumnStore.ColumnStore) (l : ColumnStore.loc)
    (points : list (Timestamp * float)) (h : gmap ColumnStore.loc tree) (t : tree) :
  ColumnStore.columns_ cs !! id = Some l ->
  h !! l = Some t ->
  in_order (t_max t) points ->
  exists t1,
    write_all (map (fun p => float_sample id (fst p) (snd p)) points) cs h !! l = Some t1
    /\ t_stored t1 = t_stored t ++ stored_points points.
Proof.
  intros Hcol. revert h t.
  induction points as [| [ts x] points IH]; intros h t Htree Hin; simpl.
  - exists t. split; [assumption | now rewrite app_nil_r].
  - destruct Hin as [Hle Hin]. simpl in Hle, Hin.
    unfold write_all in *. simpl.
    unfold fixture_write at 2.
    rewrite (write_found P_FLOAT P_EVENT SIZEOF_SAMPLE (float_sample id ts x)
               [] None cs h l t Hcol Htree).
    simpl.
    destruct (push_accepted 2 ts x t Hle) as [Hst Hmax].
    unfold ColumnStore.write_dispatch. simpl.
    destruct (IH (<[l := snd (push 2 ts (VFloat x) false t)]> h)
                 (snd (push 2 ts (VFloat x) false t))) as (t1 & Ht1 & Hs1).
    + apply lookup_insert_eq.
    + now rewrite Hmax.
    + exists t1. split; [exact Ht1 |].
      rewrite Hs1, Hst, <- app_assoc. reflexivity.
Qed.

(** The timestamps of the test grow with the index. *)
Lemma test_points_in_order (n : nat) (i top : Z) :
  top <= BASE_TS + i * STEP_TS ->
  in_order top (combine (map (fun i => BASE_TS + i * STEP_TS) (upto n i))
                        (map (fun i => PrimFloat.add BASE_X (PrimFloat.mul (of_int i) STEP_X))
                             (upto n i))).
Proof.
  revert i top. induction n as [| n IH]; intros i top Hle; simpl; [exact I |].
  split; [exact Hle |]. apply IH. unfold STEP_TS. lia.
Qed.

(** The series of the test, as [fill_data] leaves it in the column. *)
Lemma test_tree_stored : t_stored test_tree = stored_points (combine tss xss).
Proof.
  destruct (write_all_stored 42 cs42 loc42 (combine tss xss) heap42 tree42)
    as (t1 & Ht1 & Hs1).
  - reflexivity.
  - reflexivity.
  - apply test_points_in_order. vm_compute. discriminate.
  - unfold test_tree, test_heap, fill_data. rewrite Ht1. exact Hs1.
Qed.

(** The tree of a series of points, without the bookkeeping. *)
Lemma test_tree_as_points (begin end_ step : Timestamp) :
  group_aggregate begin end_ step test_tree
  = group_aggregate begin end_ step
      {| t_id := 42; t_initialized := true; t_sealed := []; t_nblocks := 0;
         t_leaf := 0; t_max := 0; t_stored := stored_points (combine tss xss) |}.
Proof. apply group_aggregate_stored, test_tree_stored. Qed.

(** The buckets of the model on the data of
    [Test_storage_group_aggregate_query_0] are the rows the test expects
    for each series. *)
Lemma group_aggregate_matches_test :
  bucket_minima (group_aggregate query_from query_to query_step test_tree)
  = expected_of "cpu.user:min group=0 key=0".
Proof. rewrite test_tree_as_points. vm_compute. reflexivity. Qed.

(** The sample of least value of each of these buckets. *)
Lemma group_aggregate_test_min_ts :
  map (fun b => (fst b, min_ts (snd b)))
      (group_aggregate query_from query_to query_step test_tree)
  = [(100000, 100000); (4100000, 4100000); (8100000, 8100000)].
Proof. rewrite test_tree_as_points. vm_compute. reflexivity. Qed.

(** The greatest value of each bucket, as [Test_storage_group_aggregate_query_1]
    expects it next to the least one for the same data, range and step. *)
Lemma group_aggregate_test_maxima :
  map (fun b => (fst b, max (snd b)))
      (group_aggregate query_from query_to query_step test_tree)
  = [(100000, 40990%float); (4100000, 80990%float); (8100000, 100990%float)].
Proof. rewrite test_tree_as_points. vm_compute. reflexivity. Qed.

(** The buckets the rule [floor(ts / step) * step] gives on the same
    data. *)
Lemma group_aggregate_zero_anchored_on_test_data :
  bucket_minima (group_aggregate_zero_anchored query_from query_to query_step test_tree)
  = [(0, 1000%float); (4000000, 40000%float); (8000000, 80000%float)].
Proof.
  rewrite (group_aggregate_zero_anchored_stored test_tree
             {| t_id := 42; t_initialized := true; t_sealed := []; t_nblocks := 0;
                t_leaf := 0; t_max := 0; t_stored := stored_points (combine tss xss) |})
    by exact test_tree_stored.
  vm_compute. reflexivity.
Qed.

(** C4 as stated does not hold: the buckets the test expects start at
    100000, 4100000 and 8100000, none of them a multiple of the step
    4000000; the first one holds the sample at 100000, for which
    [floor(ts / step) * step] is 0, and buckets aligned to multiples of the
    step have other minima than the test expects. *)
Lemma group_aggregate_test_buckets_not_multiples_of_step :
  bucket_minima (group_aggregate query_from query_to query_step test_tree)
  = expected_of "cpu.user:min group=0 key=0"
  /\ ~ Forall (fun p : Z * Z => fst p = snd p / query_step * query_step)
              (map (fun b => (fst b, min_ts (snd b)))
                   (group_aggregate query_from query_to query_step test_tree))
  /\ bucket_minima (group_aggregate_zero_anchored query_from query_to query_step test_tree)
     <> expected_of "cpu.user:min group=0 key=0".
Proof.
  split; [exact group_aggregate_matches_test |]. split.
  - rewrite group_aggregate_test_min_ts. intros Hall.
    inversion Hall as [| ? ? Hhead _]. vm_compute in Hhead. discriminate Hhead.
  - rewrite group_aggregate_zero_anchored_on_test_data.
    vm_compute. intros Hc. discriminate Hc.
Qed.

End GroupAggregateExamples.

(** ** The timestamp of an OpenTSDB [put] *)

Section OpenTSDBFacts.

Import OpenTSDB.

Lemma digit_not_space (c : byte) : is_digit c = true -> isspace c = false.
Proof.
  unfold is_digit, digit_of, isspace.
  destruct ((48 <=? code c) && (code c <=? 57)) eqn:E; [| discriminate].
  intros _. apply andb_true_iff in E. destruct E as [E1 E2].
  apply Z.leb_le in E1. apply Z.leb_le in E2.
  apply orb_false_iff. split.
  - apply Z.eqb_neq. lia.
  - apply andb_false_iff. right. apply Z.leb_gt. lia.
Qed.

Lemma digit_of_digit (c : byte) :
  is_digit c = true -> digit_of c = Some (code c - 48) /\ 48 <= code c <= 57.
Proof.
  unfold is_digit, digit_of.
  destruct ((48 <=? code c) && (code c <=? 57)) eqn:E; [| discriminate].
  intros _. apply andb_true_iff in E. destruct E as [E1 E2].
  apply Z.leb_le in E1. apply Z.leb_le in E2. split; [reflexivity | lia].
Qed.

Lemma digits_value_numeral (s : list byte) (acc : Z) :
  Forall (fun c => is_digit c = true) s ->
  digits_value s acc = fold_left (fun a c => a * 10 + (code c - 48)) s acc.
Proof.
  intros Hs. revert acc. induction Hs as [| c s Hc Hs IH]; intros acc; simpl.
  - reflexivity.
  - destruct (digit_of_digit c Hc) as [-> _]. apply IH.
Qed.

Lemma numeral_value_nonneg (s : list byte) (acc : Z) :
  Forall (fun c => is_digit c = true) s -> 0 <= acc ->
  0 <= fold_left (fun a c => a * 10 + (code c - 48)) s acc.
Proof.
  intros Hs. revert acc. induction Hs as [| c s Hc Hs IH]; intros acc Hacc; simpl.
  - assumption.
  - apply IH. destruct (digit_of_digit c Hc) as [_ Hr]. lia.
Qed.

(** On a token of decimal digits [strtoull] is the value of the numeral,
    capped at [ULLONG_MAX]. *)
Lemma strtoull_digits (s : list byte) :
  Forall (fun c => is_digit c = true) s ->
  strtoull s = Z.min (numeral_value s) ULLONG_MAX.
Proof.
  intros Hs. unfold strtoull, numeral_value.
  assert (Hskip : skip_space s = s).
  { destruct Hs as [| c s Hc Hs]; simpl; [reflexivity |].
    now rewrite (digit_not_space c Hc). }
  rewrite Hskip.
  assert (Hsign : match s with
                  | [] => (false, [])
                  | c :: rest =>
                      if code c =? 45 then (true, rest)
                      else if code c =? 43 then (false, rest) else (false, s)
                  end = (false, s)).
  { destruct Hs as [| c s Hc Hs]; [reflexivity |].
    destruct (digit_of_digit c Hc) as [_ Hr].
    destruct (Z.eqb_spec (code c) 45); [lia |].
    destruct (Z.eqb_spec (code c) 43); [lia |]. reflexivity. }
  rewrite Hsign. rewrite (digits_value_numeral s 0 Hs).
  destruct (Z.ltb_spec ULLONG_MAX (fold_left (fun a c => a * 10 + (code c - 48)) s 0)); lia.
Qed.

Lemma from_unix_time_seconds (v : Z) :
  0 <= v < 4294967295 -> from_unix_time v = v * 1000000000.
Proof.
  intros Hv. unfold from_unix_time, i64, u64.
  rewrite (Z.mod_small (v + 2 ^ 63)) by lia.
  rewrite Z.mod_small by lia. lia.
Qed.

Variable parse_timestamp : list byte -> Timestamp -> Status * Timestamp.

(** C6 (as amended): for a token of decimal digits with value [v], the
    timestamp of the sample is [v] seconds in nanoseconds when
    [0 < v < 0xFFFFFFFF], and [v] itself when [0xFFFFFFFF <= v] and [v] fits
    in 64 bits. *)
Theorem put_timestamp_seconds_below_0xFFFFFFFF (token rest : list byte) :
  Forall (fun c => is_digit c = true) token ->
  (0 < numeral_value token < 4294967295 ->
   put_timestamp parse_timestamp token rest = inl (numeral_value token * 1000000000))
  /\ (4294967295 <= numeral_value token <= ULLONG_MAX ->
      put_timestamp parse_timestamp token rest = inl (numeral_value token)).
Proof.
  intros Hs. unfold put_timestamp. rewrite (strtoull_digits token Hs).
  unfold ULLONG_MAX. split; intros Hv.
  - rewrite Z.min_l by lia.
    destruct (Z.eqb_spec (numeral_value token) 0); [lia |].
    destruct (Z.ltb_spec (numeral_value token) 4294967295); [| lia].
    rewrite from_unix_time_seconds by lia. reflexivity.
  - unfold ULLONG_MAX in Hv. rewrite Z.min_l by lia.
    destruct (Z.eqb_spec (numeral_value token) 0); [lia |].
    destruct (Z.ltb_spec (numeral_value token) 4294967295); [lia |].
    reflexivity.
Qed.

(** A token for which [strtoull] gives 0 is left to
    [Utility::parse_timestamp], which sees the sample with timestamp 0: the
    timestamp it leaves is taken when its status is [Ok], and the command is
    refused with "put: invalid timestamp format" otherwise. *)
Theorem put_timestamp_zero_goes_to_iso_parser (token rest : list byte) :
  strtoull token = 0 ->
  put_timestamp parse_timestamp token rest
  = if IsOk (fst (parse_timestamp (token ++ rest) 0))
    then inl (snd (parse_timestamp (token ++ rest) 0))
    else inr "put: invalid timestamp format"%string.
Proof.
  intros Hzero. unfold put_timestamp. rewrite Hzero. simpl.
  change (from_unix_time 0) with 0.
  now destruct (parse_timestamp (token ++ rest) 0) as [status ts].
Qed.

End OpenTSDBFacts.

Section OpenTSDBExamples.

Import OpenTSDB.

(** C6, applied to the tokens [1479600574] (seconds) and [1479600574000000000]
    (nanoseconds). *)
Lemma put_timestamp_seconds_below_0xFFFFFFFF_witness :
  (Forall (fun c => is_digit c = true) (list_byte_of_string "1479600574")
   /\ 0 < numeral_value (list_byte_of_string "1479600574") < 4294967295
   /\ put_timestamp reject_all (list_byte_of_string "1479600574") []
      = inl (numeral_value (list_byte_of_string "1479600574") * 1000000000))
  /\ (Forall (fun c => is_digit c = true) (list_byte_of_string "1479600574000000000")
      /\ 4294967295 <= numeral_value (list_byte_of_string "1479600574000000000")
         <= ULLONG_MAX
      /\ put_timestamp reject_all (list_byte_of_string "1479600574000000000") []
         = inl (numeral_value (list_byte_of_string "1479600574000000000"))).
Proof.
  assert (H1 : Forall (fun c => is_digit c = true) (list_byte_of_string "1479600574"))
    by (vm_compute; repeat constructor).
  assert (H2 : Forall (fun c => is_digit c = true)
                      (list_byte_of_string "1479600574000000000"))
    by (vm_compute; repeat constructor).
  split.
  - split; [exact H1 |]. split; [vm_compute; split; reflexivity |].
    apply (proj1 (put_timestamp_seconds_below_0xFFFFFFFF reject_all _ [] H1)).
    vm_compute; split; reflexivity.
  - split; [exact H2 |]. split; [vm_compute; split; intro Hc; discriminate Hc |].
    apply (proj2 (put_timestamp_seconds_below_0xFFFFFFFF reject_all _ [] H2)).
    vm_compute; split; intro Hc; discriminate Hc.
Defined.

Example put_timestamp_seconds :
  put_timestamp reject_all (list_byte_of_string "1479600574") []
  = inl 1479600574000000000.
Proof. vm_compute. reflexivity. Qed.

(** C6 as stated does not hold: the token [4294967295] is an unsigned
    integer below 2^32, and the timestamp of the sample is 4294967295
    itself, not 4294967295 seconds in nanoseconds. *)
Lemma put_timestamp_0xFFFFFFFF_unchanged :
  strtoull (list_byte_of_string "4294967295") = 4294967295
  /\ 4294967295 < 2 ^ 32
  /\ put_timestamp reject_all (list_byte_of_string "4294967295") [] = inl 4294967295
  /\ put_timestamp reject_all (list_byte_of_string "4294967295") []
     <> inl (4294967295 * 1000000000).
Proof.
  split; [vm_compute; reflexivity |]. split; [vm_compute; reflexivity |].
  split; [vm_compute; reflexivity |]. vm_compute. intros Hc. discriminate Hc.
Qed.

(** The token [0] is taken for a failed conversion and goes to the ISO
    parser. *)
Example put_timestamp_zero :
  put_timestamp reject_all (list_byte_of_string "0") []
  = inr "put: invalid timestamp format"%string.
Proof. vm_compute. reflexivity. Qed.

(** A numeral that does not fit in 64 bits is [ULLONG_MAX] to [strtoull]. *)
Example put_timestamp_saturates :
  put_timestamp reject_all (list_byte_of_string "99999999999999999999") []
  = inl ULLONG_MAX.
Proof. vm_compute. reflexivity. Qed.

(** The token [0] with a parser that accepts nothing. *)
Lemma put_timestamp_zero_goes_to_iso_parser_witness :
  strtoull (list_byte_of_string "0") = 0
  /\ put_timestamp reject_all (list_byte_of_string "0") []
     = if IsOk (fst (reject_all (list_byte_of_string "0" ++ []) 0))
       then inl (snd (reject_all (list_byte_of_string "0" ++ []) 0))
       else inr "put: invalid timestamp format"%string.
Proof.
  split; [reflexivity |].
  exact (put_timestamp_zero_goes_to_iso_parser reject_all
           (list_byte_of_string "0") [] eq_refl).
Defined.

(** The timestamp of the command in the comment of the worker,
    [put cpu.real 20141210T074343 3.12 host=machine1 region=NW]: the leading
    digits are taken for seconds and the ISO parser is not asked. *)
Example put_timestamp_iso_token :
  put_timestamp reject_all (list_byte_of_string "20141210T074343") []
  = inl 20141210000000000.
Proof. vm_compute. reflexivity. Qed.

(** [strtoull] stops at the first byte that is not a digit, and the rest of
    the token is not looked at. *)
Example put_timestamp_prefix :
  put_timestamp reject_all (list_byte_of_string "12abc") [] = inl 12000000000.
Proof. vm_compute. reflexivity. Qed.

End OpenTSDBExamples.

(** ** Lock guards *)

Section RWLockFacts.

Import RWLock.

(** C8: [SharedLock] and [UniqueLock] are the same instantiation of
    [LockGuard]; constructing either one on a lock calls [wrlock] on it,
    whatever the lock does, and [SharedLock] does not call [rdlock]. *)
Theorem shared_lock_is_unique_lock :
  SharedLock = UniqueLock
  /\ on_enter SharedLock = wrlock
  /\ on_enter UniqueLock = wrlock
  /\ on_enter SharedLock <> rdlock
  /\ (forall (L : Type) (lock_ops : RWLockOps L) (lock : L),
        construct SharedLock lock = invoke wrlock lock
        /\ construct UniqueLock lock = invoke wrlock lock)
  /\ construct (lock_ops := call_log) SharedLock [] = Some [wrlock].
Proof.
  split; [reflexivity |]. split; [reflexivity |]. split; [reflexivity |].
  split; [discriminate |]. split; [| reflexivity].
  intros L lock_ops lock. split; reflexivity.
Qed.

(** With the lock of pthreads, a second [SharedLock] on a lock that is
    held by one blocks, where a second [ReadLockGuard] gets in. *)
Lemma shared_lock_excludes_readers :
  acquire_twice (lock_ops := pthread_ops) SharedLock unlocked = None
  /\ acquire_twice (lock_ops := pthread_ops) ReadLockGuard unlocked
     = Some {| readers := 2; writer := false |}.
Proof. split; reflexivity. Qed.

End RWLockFacts.

(** ** The cursor contract *)

Section CursorFacts.

Import Cursor.

Variable answer : list call -> Sample -> bool.

Abbreviation rec := (recorder answer).

(** What [push_all] leaves in the record: the old calls and then [put]s
    only. *)
Lemma push_all_record (ss : list Sample) (log : list call) :
  exists go puts,
    push_all (cursor_ops := rec) ss log = Some (go, log ++ map Put puts).
Proof.
  revert log. induction ss as [| s ss IH]; intros log; simpl.
  - exists true, []. now rewrite app_nil_r.
  - destruct (answer log s).
    + destruct (IH (log ++ [Put s])) as (go & puts & ->).
      exists go, (s :: puts). now rewrite <- app_assoc.
    + exists false, [s]. reflexivity.
Qed.

Lemma run_steps_record (steps : list step) (log : list call) :
  exists puts last,
    run_steps (cursor_ops := rec) steps log = Some (log ++ map Put puts ++ [last])
    /\ terminating last = true.
Proof.
  revert log. induction steps as [| s steps IH]; intros log; simpl.
  - exists [], Complete. split; reflexivity.
  - destruct (cancelled s).
    + exists [], (SetError Cancelled). split; reflexivity.
    + destruct (outcome s) as [ss | st].
      * destruct (push_all_record ss log) as (go & puts & ->).
        destruct go.
        -- destruct (IH (log ++ map Put puts)) as (puts' & last & -> & Hlast).
           exists (puts ++ puts'), last. split; [| assumption].
           now rewrite map_app, <- !app_assoc.
        -- exists puts, Complete. split; [| reflexivity].
           now rewrite <- app_assoc.
      * exists [], (SetError st). split; reflexivity.
Qed.

End CursorFacts.

Section CursorContract.

Import Cursor.

Variable TUPLE_BIT : Z.
Variable double_bits : float -> Z.
Variable tuple_elem : list byte -> nat -> float.

Abbreviation mock := (cursor_mock TUPLE_BIT double_bits tuple_elem).

Lemma mock_push_all (ss : list Sample) (m : CursorMock) :
  done m = false ->
  exists m1,
    push_all (cursor_ops := mock) ss m = Some (true, m1)
    /\ done m1 = false
    /\ samples m1 = samples m ++ ss
    /\ error m1 = error m.
Proof.
  revert m. induction ss as [| s ss IH]; intros m Hm; simpl.
  - exists m. repeat split; [assumption | now rewrite app_nil_r].
  - unfold mock_put. rewrite Hm.
    match goal with
    | |- context [push_all ss ?m0] =>
        destruct (IH m0 eq_refl) as (m1 & -> & Hd & Hs & He)
    end.
    exists m1. repeat split; [assumption | | assumption].
    rewrite Hs. simpl. now rewrite <- app_assoc.
Qed.

Lemma mock_run_steps (steps : list step) (m : CursorMock) :
  done m = false ->
  exists m1, run_steps (cursor_ops := mock) steps m = Some m1 /\ done m1 = true.
Proof.
  revert m. induction steps as [| s steps IH]; intros m Hm; simpl.
  - unfold mock_complete. rewrite Hm. eauto.
  - destruct (cancelled s).
    + unfold mock_set_error. rewrite Hm. eauto.
    + destruct (outcome s) as [ss | st].
      * destruct (mock_push_all ss m Hm) as (m1 & -> & Hd & _).
        now apply IH.
      * unfold mock_set_error. rewrite Hm. eauto.
Qed.

(** C5: whatever the query and whatever [put] answers, the calls that reach
    the cursor are [put]s followed by one call of [complete] or
    [set_error], which is the last call; a [CursorMock], which aborts on any
    call after the end, is left [done] and never aborts. *)
Theorem cursor_terminated_exactly_once (p : plan) :
  (forall answer : list call -> Sample -> bool,
     exists puts last,
       query (cursor_ops := recorder answer) p [] = Some (map Put puts ++ [last])
       /\ terminating last = true
       /\ length (List.filter terminating (map Put puts ++ [last])) = 1%nat)
  /\ (exists m,
        query (cursor_ops := mock) p (new_mock) = Some m /\ done m = true).
Proof.
  split.
  - intros answer.
    assert (Hshape : exists puts last,
               query (cursor_ops := recorder answer) p [] = Some (map Put puts ++ [last])
               /\ terminating last = true).
    { destruct p as [msg | steps]; simpl.
      - exists [], (SetErrorMsg QueryParsingError msg). split; reflexivity.
      - destruct (run_steps_record answer steps []) as (puts & last & Hrun & Hlast).
        exists puts, last. split; assumption. }
    destruct Hshape as (puts & last & Hq & Hlast).
    exists puts, last. repeat split; try assumption.
    rewrite List.filter_app. simpl. rewrite Hlast.
    assert (Hnone : List.filter terminating (map Put puts) = []).
    { clear. induction puts as [| s puts IH]; simpl; [reflexivity | exact IH]. }
    rewrite Hnone. reflexivity.
  - destruct p as [msg | steps]; simpl.
    + eexists. split; reflexivity.
    + now apply mock_run_steps.
Qed.

(** A query that does not parse leaves the mock done with
    [QueryParsingError], as the last two queries of
    [Test_group_aggregate_join_query_0] expect. *)
Example parse_error_reaches_mock :
  query (cursor_ops := mock) (ParseError "bad query") new_mock
  = Some {| done := true; samples := []; tuples := []; error := QueryParsingError;
            error_msg := "bad query" |}.
Proof. reflexivity. Qed.

End CursorContract.

(** ** The receive buffer of the protocol parsers *)

Section ReadBufferFacts.

Import ReadBuffer.

Lemma u32_small (x : Z) : 0 <= x < 2 ^ 32 -> u32 x = x.
Proof. intros H. unfold u32. apply Z.mod_small. exact H. Qed.

Lemma i32_small (x : Z) : - 2 ^ 31 <= x < 2 ^ 31 -> i32 x = x.
Proof. intros H. unfold i32. rewrite Z.mod_small; lia. Qed.

Lemma slice_length (b : list byte) (from to : Z) :
  0 <= from <= to -> to <= Z.of_nat (length b) ->
  Z.of_nat (length (slice from to b)) = to - from.
Proof.
  intros H1 H2. unfold slice. rewrite length_take, length_drop. lia.
Qed.

Lemma slice_split (b : list byte) (a m c : Z) :
  0 <= a <= m -> m <= c ->
  slice a c b = slice a m b ++ slice m c b.
Proof.
  intros H1 H2. unfold slice.
  replace (Z.to_nat (c - a)) with (Z.to_nat (m - a) + Z.to_nat (c - m))%nat by lia.
  rewrite <- take_take_drop. rewrite drop_drop.
  replace (Z.to_nat a + Z.to_nat (m - a))%nat with (Z.to_nat m) by lia.
  reflexivity.
Qed.

Lemma slice_app_l (b k : list byte) (from to : Z) :
  0 <= from <= to -> to <= Z.of_nat (length b) ->
  slice from to (b ++ k) = slice from to b.
Proof.
  intros H1 H2. unfold slice.
  rewrite drop_app_le by lia. apply take_app_le.
  rewrite length_drop. lia.
Qed.

Lemma slice_rotated (b k : list byte) (c from to : Z) :
  0 <= c <= from -> from <= to -> to <= Z.of_nat (length b) ->
  slice (from - c) (to - c) (drop (Z.to_nat c) b ++ k) = slice from to b.
Proof.
  intros H1 H2 H3. unfold slice.
  rewrite drop_app_le by (rewrite length_drop; lia).
  rewrite take_app_le by (rewrite !length_drop; lia).
  rewrite drop_drop.
  replace (Z.to_nat c + Z.to_nat (from - c))%nat with (Z.to_nat from) by lia.
  replace (to - c - (from - c)) with (to - from) by lia.
  reflexivity.
Qed.

Lemma pull_outcome (rb : ReadBuffer) :
  well_formed rb -> buffers_allocated_ rb = 0 ->
  exists p rb',
    pull rb = Value (p, rb')
    /\ p = wpos_ rb'
    /\ wpos_ rb' + BUFFER_SIZE rb' <= Z.of_nat (length (buffer_ rb'))
    /\ pending rb' = pending rb
    /\ unread rb' = unread rb
    /\ (0 <= cons_ rb' <= rpos_ rb' /\ rpos_ rb' <= wpos_ rb')
    /\ BUFFER_SIZE rb' = BUFFER_SIZE rb
    /\ buffers_allocated_ rb' = 1
    /\ Z.of_nat (length (buffer_ rb')) <= 2 * Z.of_nat (length (buffer_ rb)).
Proof.
  intros (Hc & Hr & Hb & Hs) Ha.
  unfold pull. rewrite Ha. simpl negb. cbv iota.
  change (i32 (0 + 1)) with 1.
  rewrite (u32_small (Z.of_nat (length (buffer_ rb)))) by lia.
  rewrite (u32_small (Z.of_nat (length (buffer_ rb)) - wpos_ rb)) by lia.
  set (sz := Z.of_nat (length (buffer_ rb)) - wpos_ rb).
  destruct (sz <? BUFFER_SIZE rb) eqn:E1.
  - rewrite (u32_small (cons_ rb + sz)) by lia.
    destruct (BUFFER_SIZE rb <? cons_ rb + sz) eqn:E2.
    + apply Z.ltb_lt in E2.
      rewrite (u32_small (wpos_ rb - cons_ rb)) by lia.
      rewrite (u32_small (rpos_ rb - cons_ rb)) by lia.
      eexists _, _. split; [reflexivity |].
      cbn [wpos_ rpos_ cons_ buffer_ BUFFER_SIZE buffers_allocated_].
      assert (Hlen : length (drop (Z.to_nat (cons_ rb)) (buffer_ rb)
                      ++ drop (length (buffer_ rb) - Z.to_nat (cons_ rb)) (buffer_ rb))
                     = length (buffer_ rb)).
      { rewrite length_app, !length_drop. lia. }
      rewrite Hlen.
      repeat split; try lia.
      * unfold pending. cbn [wpos_ rpos_ cons_ buffer_].
        replace 0 with (cons_ rb - cons_ rb) by lia.
        apply slice_rotated; lia.
      * unfold unread. cbn [wpos_ rpos_ cons_ buffer_].
        apply slice_rotated; lia.
    + eexists _, _. split; [reflexivity |].
      cbn [wpos_ rpos_ cons_ buffer_ BUFFER_SIZE buffers_allocated_].
      rewrite length_app, repeat_length.
      repeat split; try lia.
      * unfold pending. cbn [wpos_ rpos_ cons_ buffer_]. apply slice_app_l; lia.
      * unfold unread. cbn [wpos_ rpos_ cons_ buffer_]. apply slice_app_l; lia.
  - apply Z.ltb_ge in E1.
    eexists _, _. split; [reflexivity |].
    cbn [wpos_ rpos_ cons_ buffer_ BUFFER_SIZE buffers_allocated_].
    repeat split; try lia.
Qed.

Lemma store_buffer (data : list byte) (rb : ReadBuffer) :
  0 <= wpos_ rb ->
  wpos_ rb + Z.of_nat (length data) <= Z.of_nat (length (buffer_ rb)) ->
  buffer_ (store data rb)
  = take (Z.to_nat (wpos_ rb)) (buffer_ rb) ++ data
    ++ drop (Z.to_nat (wpos_ rb) + length data) (buffer_ rb).
Proof.
  intros H0 H. unfold store. cbn [buffer_].
  apply take_ge. rewrite !length_app, length_take, length_drop. lia.
Qed.

Lemma store_length (data : list byte) (rb : ReadBuffer) :
  0 <= wpos_ rb ->
  wpos_ rb + Z.of_nat (length data) <= Z.of_nat (length (buffer_ rb)) ->
  length (buffer_ (store data rb)) = length (buffer_ rb).
Proof.
  intros H0 H. rewrite store_buffer by assumption.
  rewrite !length_app, length_take, length_drop. lia.
Qed.

Lemma store_before (data : list byte) (rb : ReadBuffer) (from : Z) :
  0 <= from <= wpos_ rb ->
  wpos_ rb + Z.of_nat (length data) <= Z.of_nat (length (buffer_ rb)) ->
  slice from (wpos_ rb) (buffer_ (store data rb)) = slice from (wpos_ rb) (buffer_ rb).
Proof.
  intros H0 H. rewrite store_buffer by lia.
  rewrite slice_app_l by (rewrite ?length_take; lia).
  rewrite <- (take_drop (Z.to_nat (wpos_ rb)) (buffer_ rb)) at 2.
  rewrite slice_app_l by (rewrite ?length_take; lia).
  reflexivity.
Qed.

Lemma store_written (data : list byte) (rb : ReadBuffer) :
  0 <= wpos_ rb ->
  wpos_ rb + Z.of_nat (length data) <= Z.of_nat (length (buffer_ rb)) ->
  slice (wpos_ rb) (wpos_ rb + Z.of_nat (length data)) (buffer_ (store data rb)) = data.
Proof.
  intros H0 H. rewrite store_buffer by lia. unfold slice.
  rewrite drop_app_length' by (rewrite length_take; lia).
  replace (Z.to_nat (wpos_ rb + Z.of_nat (length data) - wpos_ rb)) with (length data) by lia.
  apply take_app_length.
Qed.

(** [ReadBuffer::pull] keeps the promise of
    its declaration: on a reader with no buffer handed out and its positions
    in order, it returns the write position with at least [BUFFER_SIZE]
    bytes of the vector behind it, whether it rotated the vector, doubled
    it or left it alone; the bytes received and not yet consumed and the
    unread bytes are the same as before; and a second [pull] before the
    [push] fails the assertion. *)
Theorem pull_gives_room (rb : ReadBuffer) :
  well_formed rb -> buffers_allocated_ rb = 0 ->
  exists p rb',
    pull rb = Value (p, rb')
    /\ p = wpos_ rb'
    /\ wpos_ rb' + BUFFER_SIZE rb <= Z.of_nat (length (buffer_ rb'))
    /\ pending rb' = pending rb
    /\ unread rb' = unread rb
    /\ pull rb' = AssertionFailed.
Proof.
  intros Hwf Ha.
  destruct (pull_outcome rb Hwf Ha)
    as (p & rb' & E & Hp & Hroom & Hpend & Hun & _ & HB & Hal & _).
  exists p, rb'. rewrite <- HB. repeat split; try assumption.
  unfold pull. rewrite Hal. reflexivity.
Qed.

Lemma pull_gives_room_witness :
  exists p rb',
    pull ReadBufferUse.busy_reader = Value (p, rb')
    /\ p = wpos_ rb'
    /\ wpos_ rb' + BUFFER_SIZE ReadBufferUse.busy_reader <= Z.of_nat (length (buffer_ rb'))
    /\ pending rb' = pending ReadBufferUse.busy_reader
    /\ unread rb' = unread ReadBufferUse.busy_reader
    /\ pull rb' = AssertionFailed.
Proof.
  apply (pull_gives_room ReadBufferUse.busy_reader).
  - unfold well_formed. simpl. lia.
  - reflexivity.
Defined.

(** One round of the [ChunkedWriter]
    protocol, pull, fill and push, with no more data than a chunk, appends
    the data to the bytes received and not yet consumed and to the unread
    bytes, and leaves the reader ready for the next round with its
    positions in order, as long as a doubled vector still fits the 32-bit
    positions. *)
Theorem feed_appends (data : list byte) (rb : ReadBuffer) :
  well_formed rb -> buffers_allocated_ rb = 0 ->
  Z.of_nat (length data) <= BUFFER_SIZE rb ->
  2 * Z.of_nat (length (buffer_ rb)) < 2 ^ 32 ->
  exists rb',
    ReadBufferUse.feed data rb = Value rb'
    /\ pending rb' = pending rb ++ data
    /\ unread rb' = unread rb ++ data
    /\ buffers_allocated_ rb' = 0
    /\ well_formed rb'.
Proof.
  intros Hwf Ha Hd H2.
  destruct (pull_outcome rb Hwf Ha)
    as (p & rb1 & E & Hp & Hroom & Hpend & Hun & (Hc & Hr) & HB & Hal & Hlen).
  destruct Hwf as (_ & _ & Hb & Hs).
  unfold ReadBufferUse.feed. rewrite E.
  assert (Hfit : wpos_ rb1 + Z.of_nat (length data) <= Z.of_nat (length (buffer_ rb1))) by lia.
  assert (Hw0 : 0 <= wpos_ rb1) by lia.
  unfold push.
  replace (buffers_allocated_ (store data rb1)) with 1 by (symmetry; exact Hal).
  simpl negb. cbv iota. change (i32 (1 - 1)) with 0.
  replace (wpos_ (store data rb1)) with (wpos_ rb1) by reflexivity.
  rewrite (u32_small (wpos_ rb1 + Z.of_nat (length data))) by lia.
  eexists. split; [reflexivity |].
  unfold pending, unread, well_formed.
  cbn [wpos_ rpos_ cons_ buffer_ BUFFER_SIZE buffers_allocated_].
  replace (cons_ (store data rb1)) with (cons_ rb1) by reflexivity.
  replace (rpos_ (store data rb1)) with (rpos_ rb1) by reflexivity.
  replace (BUFFER_SIZE (store data rb1)) with (BUFFER_SIZE rb1) by reflexivity.
  rewrite (store_length data rb1 Hw0 Hfit).
  repeat split; try lia.
  - rewrite (slice_split _ (cons_ rb1) (wpos_ rb1)) by lia.
    rewrite store_before by lia. rewrite store_written by lia.
    fold (pending rb1). rewrite Hpend. reflexivity.
  - rewrite (slice_split _ (rpos_ rb1) (wpos_ rb1)) by lia.
    rewrite store_before by lia. rewrite store_written by lia.
    fold (unread rb1). rewrite Hun. reflexivity.
Qed.

Lemma feed_appends_witness :
  exists rb',
    ReadBufferUse.feed (list_byte_of_string "b 3") ReadBufferUse.busy_reader = Value rb'
    /\ pending rb' = pending ReadBufferUse.busy_reader ++ list_byte_of_string "b 3"
    /\ unread rb' = unread ReadBufferUse.busy_reader ++ list_byte_of_string "b 3"
    /\ buffers_allocated_ rb' = 0
    /\ well_formed rb'.
Proof.
  apply (feed_appends (list_byte_of_string "b 3") ReadBufferUse.busy_reader).
  - unfold well_formed. simpl. lia.
  - reflexivity.
  - simpl. lia.
  - simpl. lia.
Defined.

Lemma line_end_some (l : list byte) (i : nat) :
  line_end l = Some i ->
  exists body rest, l = body ++ LF :: rest /\ length body = i /\ ~ In LF body.
Proof.
  revert i. induction l as [| c l IH]; intros i H; simpl in H.
  - discriminate.
  - destruct (Byte.eqb c LF) eqn:E.
    + apply Byte.byte_dec_bl in E. subst c. injection H as <-.
      exists [], l. repeat split. intros [].
    + apply Byte.eqb_false in E.
      destruct (line_end l) as [j |] eqn:Ej; simpl in H; [| discriminate].
      injection H as <-.
      destruct (IH j eq_refl) as (body & rest & -> & Hlen & Hno).
      exists (c :: body), rest. repeat split.
      * simpl. rewrite Hlen. reflexivity.
      * intros [Hc | Hin]; [congruence | exact (Hno Hin)].
Qed.

Lemma line_end_none (l : list byte) : line_end l = None -> ~ In LF l.
Proof.
  induction l as [| c l IH]; intros H; simpl in H.
  - intros [].
  - destruct (Byte.eqb c LF) eqn:E; [discriminate |].
    apply Byte.eqb_false in E.
    destruct (line_end l) eqn:Ej; simpl in H; [discriminate |].
    intros [Hc | Hin]; [congruence | exact (IH eq_refl Hin)].
Qed.

Lemma window_of_unread (rb : ReadBuffer) (n : Z) :
  well_formed rb -> 0 <= n ->
  slice (rpos_ rb) (rpos_ rb + Z.min n (wpos_ rb - rpos_ rb)) (buffer_ rb)
  = take (Z.to_nat n) (unread rb).
Proof.
  intros (Hc & Hr & Hb & Hs) Hn. unfold unread, slice.
  rewrite take_take. f_equal. lia.
Qed.

Lemma unread_with_rpos (rb : ReadBuffer) (n : Z) :
  well_formed rb -> 0 <= n <= wpos_ rb - rpos_ rb ->
  unread (with_rpos rb (rpos_ rb + n)) = drop (Z.to_nat n) (unread rb).
Proof.
  intros (Hc & Hr & Hb & Hs) Hn. unfold unread, slice. cbn [wpos_ rpos_ buffer_ with_rpos].
  rewrite skipn_firstn_comm, drop_drop. f_equal; [lia | f_equal; lia].
Qed.

(** [ReadBuffer::read_line] looks at the
    first [quota] unread bytes. If there is a newline among them it copies
    the line up to and with its first newline, moves the read position
    behind it and returns the line's length, which is positive; otherwise it
    returns minus the number of bytes it looked at, which it has copied, and
    does not move. *)
Theorem read_line_outcome (quota : Z) (rb : ReadBuffer) :
  well_formed rb -> 0 <= quota < 2 ^ 32 ->
  Z.of_nat (length (buffer_ rb)) < 2 ^ 31 ->
  exists n line rb',
    read_line quota rb = Value (n, line, rb')
    /\ ((0 < n
         /\ line = take (Z.to_nat n) (unread rb)
         /\ (exists body, line = body ++ [LF] /\ ~ In LF body)
         /\ n <= quota
         /\ rb' = with_rpos rb (rpos_ rb + n)
         /\ unread rb' = drop (Z.to_nat n) (unread rb))
        \/ (n = - Z.of_nat (length (take (Z.to_nat quota) (unread rb)))
            /\ line = take (Z.to_nat quota) (unread rb)
            /\ ~ In LF line
            /\ rb' = rb)).
Proof.
  intros Hwf Hq Hs.
  pose proof Hwf as (Hc & Hr & Hb & _).
  unfold read_line.
  replace (negb (quota <? 4294967296)) with false
    by (symmetry; apply negb_false_iff, Z.ltb_lt; lia).
  rewrite (u32_small quota) by lia.
  rewrite (u32_small (wpos_ rb - rpos_ rb)) by lia.
  rewrite (window_of_unread rb quota Hwf) by lia.
  assert (Hul : Z.of_nat (length (unread rb)) = wpos_ rb - rpos_ rb).
  { unfold unread. apply slice_length; lia. }
  set (window := take (Z.to_nat quota) (unread rb)).
  assert (Hwl : Z.of_nat (length window) = Z.min quota (wpos_ rb - rpos_ rb)).
  { unfold window. rewrite length_take. lia. }
  destruct (line_end window) as [i |] eqn:E.
  - destruct (line_end_some window i E) as (body & rest & Hw & Hlen & Hno).
    assert (Hi : Z.of_nat i + 1 <= Z.min quota (wpos_ rb - rpos_ rb)).
    { rewrite <- Hwl, Hw, length_app. simpl length. lia. }
    rewrite (u32_small (Z.of_nat i + 1)) by lia.
    rewrite (i32_small (Z.of_nat i + 1)) by lia.
    rewrite (u32_small (rpos_ rb + (Z.of_nat i + 1))) by lia.
    eexists _, _, _. split; [reflexivity |]. left.
    replace (Z.to_nat (Z.of_nat i + 1)) with (S i) by lia.
    assert (Hline : take (S i) window = body ++ [LF]).
    { rewrite Hw. replace (LF :: rest) with ([LF] ++ rest) by reflexivity.
      rewrite app_assoc. apply take_app_length'. rewrite length_app. simpl. lia. }
    repeat split; try lia.
    + unfold window. rewrite take_take. f_equal. lia.
    + exists body. split; [exact Hline | exact Hno].
    + rewrite (unread_with_rpos rb _ Hwf) by lia. f_equal. lia.
  - rewrite (i32_small (Z.min quota (wpos_ rb - rpos_ rb))) by lia.
    eexists _, _, _. split; [reflexivity |]. right.
    repeat split.
    + rewrite Hwl. rewrite i32_small; lia.
    + exact (line_end_none window E).
Qed.

Lemma read_line_outcome_witness :
  exists n line rb',
    read_line 80 ReadBufferUse.busy_reader = Value (n, line, rb')
    /\ ((0 < n
         /\ line = take (Z.to_nat n) (unread ReadBufferUse.busy_reader)
         /\ (exists body, line = body ++ [LF] /\ ~ In LF body)
         /\ n <= 80
         /\ rb' = with_rpos ReadBufferUse.busy_reader (rpos_ ReadBufferUse.busy_reader + n)
         /\ unread rb' = drop (Z.to_nat n) (unread ReadBufferUse.busy_reader))
        \/ (n = - Z.of_nat (length (take (Z.to_nat 80) (unread ReadBufferUse.busy_reader)))
            /\ line = take (Z.to_nat 80) (unread ReadBufferUse.busy_reader)
            /\ ~ In LF line
            /\ rb' = ReadBufferUse.busy_reader)).
Proof.
  apply (read_line_outcome 80 ReadBufferUse.busy_reader).
  - unfold well_formed. simpl. lia.
  - lia.
  - simpl. lia.
Defined.

Lemma get_many_reads (n : nat) (rb : ReadBuffer) :
  well_formed rb -> Z.of_nat n <= wpos_ rb - rpos_ rb ->
  get_many n rb
  = Value (slice (rpos_ rb) (rpos_ rb + Z.of_nat n) (buffer_ rb),
           with_rpos rb (rpos_ rb + Z.of_nat n)).
Proof.
  revert rb. induction n as [| n IH]; intros rb Hwf Hn.
  - cbn [get_many]. change (Z.of_nat 0) with 0. rewrite Z.add_0_r.
    unfold slice. rewrite Z.sub_diag. destruct rb; reflexivity.
  - pose proof Hwf as (Hc & Hr & Hb & Hs).
    cbn [get_many]. unfold get.
    replace (rpos_ rb =? wpos_ rb) with false by (symmetry; apply Z.eqb_neq; lia).
    rewrite (u32_small (rpos_ rb + 1)) by lia.
    rewrite IH; cbn [with_rpos rpos_ wpos_ cons_ buffer_ BUFFER_SIZE buffers_allocated_].
    + f_equal. f_equal.
      * rewrite (slice_split (buffer_ rb) (rpos_ rb) (rpos_ rb + 1)
                   (rpos_ rb + Z.of_nat (S n))) by lia.
        replace (rpos_ rb + 1 + Z.of_nat n) with (rpos_ rb + Z.of_nat (S n)) by lia.
        f_equal. unfold slice, at_pos.
        replace (Z.to_nat (rpos_ rb + 1 - rpos_ rb)) with 1%nat by lia.
        destruct (drop (Z.to_nat (rpos_ rb)) (buffer_ rb)) as [| c rest] eqn:E.
        -- apply (f_equal (@length byte)) in E. rewrite length_drop in E. simpl in E. lia.
        -- rewrite <- (Nat.add_0_r (Z.to_nat (rpos_ rb))), <- nth_skipn, E. reflexivity.
      * f_equal. lia.
    + unfold well_formed. cbn [with_rpos rpos_ wpos_ cons_ buffer_ BUFFER_SIZE]. lia.
    + lia.
Qed.

Lemma read_get_within (n : nat) (rb : ReadBuffer) :
  well_formed rb -> Z.of_nat n <= wpos_ rb - rpos_ rb ->
  Z.of_nat (length (buffer_ rb)) < 2 ^ 31 ->
  exists bytes rb',
    read (Z.of_nat n) rb = Value (Z.of_nat n, bytes, rb')
    /\ get_many n rb = Value (bytes, rb')
    /\ bytes = take n (unread rb)
    /\ unread rb' = drop n (unread rb).
Proof.
  intros Hwf Hn Hs.
  pose proof Hwf as (Hc & Hr & Hb & _).
  rewrite (get_many_reads n rb Hwf Hn).
  unfold read.
  replace (negb (Z.of_nat n <? 4294967296)) with false
    by (symmetry; apply negb_false_iff, Z.ltb_lt; lia).
  rewrite (u32_small (Z.of_nat n)) by lia.
  rewrite (u32_small (wpos_ rb - rpos_ rb)) by lia.
  replace (Z.min (Z.of_nat n) (wpos_ rb - rpos_ rb)) with (Z.of_nat n) by lia.
  rewrite (i32_small (Z.of_nat n)) by lia.
  rewrite (u32_small (rpos_ rb + Z.of_nat n)) by lia.
  eexists _, _. split; [reflexivity |]. split; [reflexivity |]. split.
  - replace (Z.of_nat n) with (Z.min (Z.of_nat n) (wpos_ rb - rpos_ rb)) at 1 by lia.
    rewrite (window_of_unread rb (Z.of_nat n) Hwf) by lia.
    f_equal. lia.
  - rewrite (unread_with_rpos rb _ Hwf) by lia. f_equal. lia.
Qed.

Lemma read_get_beyond (n : nat) (rb : ReadBuffer) :
  well_formed rb -> wpos_ rb - rpos_ rb < Z.of_nat n ->
  Z.of_nat (length (buffer_ rb)) < 2 ^ 31 -> Z.of_nat n < 2 ^ 32 ->
  get_many n rb
  = Thrown (fst (get_error_context (list_byte_of_string "unexpected end of stream") rb)) 0
  /\ exists rb',
       read (Z.of_nat n) rb = Value (wpos_ rb - rpos_ rb, unread rb, rb')
       /\ is_eof rb' = true
       /\ pick rb'
          = Thrown (fst (get_error_context (list_byte_of_string "unexpected end of stream") rb)) 0.
Proof.
  intros Hwf Hn Hs Hn32. split.
  - revert rb Hwf Hn Hs. induction n as [| n IH]; intros rb Hwf Hn Hs.
    + destruct Hwf as (Hc & Hr & Hb & _). lia.
    + pose proof Hwf as (Hc & Hr & Hb & _).
      cbn [get_many]. unfold get.
      destruct (rpos_ rb =? wpos_ rb) eqn:E.
      * reflexivity.
      * apply Z.eqb_neq in E.
        rewrite (u32_small (rpos_ rb + 1)) by lia.
        rewrite IH.
        -- reflexivity.
        -- lia.
        -- unfold well_formed. cbn [with_rpos rpos_ wpos_ cons_ buffer_ BUFFER_SIZE]. lia.
        -- cbn [with_rpos rpos_ wpos_]. lia.
        -- exact Hs.
  - pose proof Hwf as (Hc & Hr & Hb & _).
    unfold read.
    replace (negb (Z.of_nat n <? 4294967296)) with false
      by (symmetry; apply negb_false_iff, Z.ltb_lt; lia).
    rewrite (u32_small (Z.of_nat n)) by lia.
    rewrite (u32_small (wpos_ rb - rpos_ rb)) by lia.
    replace (Z.min (Z.of_nat n) (wpos_ rb - rpos_ rb)) with (wpos_ rb - rpos_ rb) by lia.
    rewrite (i32_small (wpos_ rb - rpos_ rb)) by lia.
    replace (rpos_ rb + (wpos_ rb - rpos_ rb)) with (wpos_ rb) by lia.
    rewrite (u32_small (wpos_ rb)) by lia.
    eexists. split; [reflexivity |]. split.
    + unfold is_eof. cbn [with_rpos rpos_ wpos_]. apply Z.eqb_refl.
    + unfold pick. cbn [with_rpos rpos_ wpos_]. rewrite Z.eqb_refl. reflexivity.
Qed.

(** [ReadBuffer::read] of [n] bytes against [n] calls of [ReadBuffer::get]
    in a row. As long as there are that many unread bytes, both yield the
    next [n] unread bytes and leave the reader in the same state, and [read]
    returns [n]. When fewer are left, [get] ends in a [ProtocolParserError]
    whose position is 0 and whose message is the one [get_error_context]
    makes of "unexpected end of stream", while [read] returns the bytes that
    are left and their number; the reader is then at its end and [pick]
    throws the same error. *)
Theorem read_and_repeated_get (n : nat) (rb : ReadBuffer) :
  well_formed rb ->
  Z.of_nat (length (buffer_ rb)) < 2 ^ 31 -> Z.of_nat n < 2 ^ 32 ->
  (Z.of_nat n <= wpos_ rb - rpos_ rb ->
   exists bytes rb',
     read (Z.of_nat n) rb = Value (Z.of_nat n, bytes, rb')
     /\ get_many n rb = Value (bytes, rb')
     /\ bytes = take n (unread rb)
     /\ unread rb' = drop n (unread rb))
  /\ (wpos_ rb - rpos_ rb < Z.of_nat n ->
      get_many n rb
      = Thrown (fst (get_error_context (list_byte_of_string "unexpected end of stream") rb)) 0
      /\ exists rb',
           read (Z.of_nat n) rb = Value (wpos_ rb - rpos_ rb, unread rb, rb')
           /\ is_eof rb' = true
           /\ pick rb'
              = Thrown (fst (get_error_context
                               (list_byte_of_string "unexpected end of stream") rb)) 0).
Proof.
  intros Hwf Hs Hn. split; intros Havail.
  - exact (read_get_within n rb Hwf Havail Hs).
  - exact (read_get_beyond n rb Hwf Havail Hs Hn).
Qed.

Lemma read_and_repeated_get_witness :
  (exists bytes rb',
     read (Z.of_nat 2) ReadBufferUse.busy_reader = Value (Z.of_nat 2, bytes, rb')
     /\ get_many 2 ReadBufferUse.busy_reader = Value (bytes, rb')
     /\ bytes = take 2 (unread ReadBufferUse.busy_reader)
     /\ unread rb' = drop 2 (unread ReadBufferUse.busy_reader))
  /\ get_many 3 ReadBufferUse.busy_reader
     = Thrown (fst (get_error_context (list_byte_of_string "unexpected end of stream")
                      ReadBufferUse.busy_reader)) 0.
Proof.
  split.
  - apply (read_and_repeated_get 2 ReadBufferUse.busy_reader).
    + unfold well_formed. simpl. lia.
    + simpl. lia.
    + simpl. lia.
    + simpl. lia.
  - apply (read_and_repeated_get 3 ReadBufferUse.busy_reader).
    + unfold well_formed. simpl. lia.
    + simpl. lia.
    + simpl. lia.
    + simpl. lia.
Defined.

(** Every call that takes bytes leaves the reader as it was but for the
    read position. *)
Lemma take_one_moves_rpos (c : taking) (rb rb1 : ReadBuffer) :
  take_one c rb = Value rb1 -> exists r, rb1 = with_rpos rb r.
Proof.
  assert (Hsame : rb = with_rpos rb (rpos_ rb)) by (destruct rb; reflexivity).
  destruct c as [| | | len | quota]; simpl; intros H.
  - unfold get in H. destruct (rpos_ rb =? wpos_ rb); [discriminate |].
    injection H as <-. eauto.
  - unfold pick in H. destruct (rpos_ rb =? wpos_ rb); [discriminate |].
    injection H as <-. eauto.
  - injection H as <-. eauto.
  - unfold read in H. destruct (negb (len <? 4294967296)); [discriminate |].
    injection H as <-. eauto.
  - unfold read_line in H. destruct (negb (quota <? 4294967296)); [discriminate |].
    match type of H with
    | match match ?e with _ => _ end with _ => _ end = _ => destruct e
    end; injection H as <-; eauto.
Qed.

Lemma take_all_moves_rpos (calls : list taking) (rb rb1 : ReadBuffer) :
  take_all calls rb = Value rb1 -> exists r, rb1 = with_rpos rb r.
Proof.
  revert rb. induction calls as [| c rest IH]; intros rb H; simpl in H.
  - injection H as <-. exists (rpos_ rb). destruct rb; reflexivity.
  - destruct (take_one c rb) as [rb2 | |] eqn:E; try discriminate.
    destruct (take_one_moves_rpos _ _ _ E) as (r2 & ->).
    destruct (IH _ H) as (r & ->). exists r. reflexivity.
Qed.

(** The calls that take bytes only move the read position, so [discard]
    undoes them: after [consume], whatever calls of [get], [pick],
    [is_eof], [read] and [read_line] have followed, in any number and
    order, with any lengths and quotas, [discard] puts the reader back into
    the state [consume] left. *)
Theorem discard_undoes_reads (rb rb0 : ReadBuffer) :
  consume rb = Value rb0 ->
  forall (calls : list taking) (rb1 : ReadBuffer),
    take_all calls rb0 = Value rb1 -> discard rb1 = Value rb0.
Proof.
  intros H calls rb1 Hcalls. unfold consume in H.
  destruct (buffers_allocated_ rb =? 0) eqn:Ea; simpl in H; [| discriminate].
  injection H as <-.
  destruct (take_all_moves_rpos _ _ _ Hcalls) as (r & ->).
  unfold discard. cbn [with_rpos buffers_allocated_]. rewrite Ea. reflexivity.
Qed.

(** On the reader of the fixtures: two bytes by [get], a look by [pick],
    a [read_line] that finds no newline, a [read] of what is left and an
    [is_eof], then [discard]. *)
Lemma discard_undoes_reads_witness :
  exists rb0 rb1,
    consume (with_rpos ReadBufferUse.busy_reader 10) = Value rb0
    /\ take_all [Get; Pick; Get; ReadLine 80; Read 3; IsEof; Read 1] rb0 = Value rb1
    /\ rpos_ rb1 = 14
    /\ discard rb1 = Value rb0.
Proof.
  eexists _, _. split; [reflexivity |].
  split; [vm_compute; reflexivity |]. split; [reflexivity |].
  apply (discard_undoes_reads (with_rpos ReadBufferUse.busy_reader 10) _ eq_refl
           [Get; Pick; Get; ReadLine 80; Read 3; IsEof; Read 1]).
  vm_compute. reflexivity.
Defined.

Lemma replace_all_in (pattern : byte) (by_ s : list byte) (x : byte) :
  In x (replace_all pattern by_ s) -> In x by_ \/ (In x s /\ x <> pattern).
Proof.
  unfold replace_all. rewrite in_flat_map. intros (c & Hc & Hx).
  destruct (Byte.eqb c pattern) eqn:E.
  - left. exact Hx.
  - right. apply Byte.eqb_false in E. destruct Hx as [<- | []]. split; assumption.
Qed.

Lemma context_frame_prefix (l : list byte) (k : Z) :
  exists rest, l = context_frame l k ++ rest.
Proof.
  revert k. induction l as [| c l IH]; intros k; simpl.
  - exists []. reflexivity.
  - destruct (Byte.eqb c LF).
    + destruct (k + 1 =? 3).
      * exists (c :: l). reflexivity.
      * destruct (IH (k + 1)) as (rest & E). exists rest. simpl. rewrite <- E. reflexivity.
    + destruct (IH k) as (rest & E). exists rest. simpl. rewrite <- E. reflexivity.
Qed.

Lemma context_frame_newlines (l : list byte) (k : Z) :
  0 <= k <= 2 ->
  Z.of_nat (length (List.filter (fun c => Byte.eqb c LF) (context_frame l k))) <= 2 - k.
Proof.
  revert k. induction l as [| c l IH]; intros k Hk; simpl.
  - lia.
  - destruct (Byte.eqb c LF) eqn:E.
    + destruct (k + 1 =? 3) eqn:E3.
      * simpl. lia.
      * apply Z.eqb_neq in E3. simpl. rewrite E. simpl length.
        specialize (IH (k + 1)). lia.
    + simpl. rewrite E. apply IH. exact Hk.
Qed.

(** The message of
    [ReadBuffer::get_error_context] is the caller's text, " - " and a frame
    of the input: a prefix of the bytes received and not yet consumed with at
    most two newlines in it, in which every carriage return and newline is
    written as a backslash and a letter. With a text free of them, the
    message holds no carriage return and no newline. The position is 0. *)
Theorem error_context_is_one_line (error_message : list byte) (rb : ReadBuffer) :
  ~ In CR error_message -> ~ In LF error_message ->
  exists frame rest,
    pending rb = frame ++ rest
    /\ (length (List.filter (fun c => Byte.eqb c LF) frame) <= 2)%nat
    /\ get_error_context error_message rb
       = (error_message ++ list_byte_of_string " - "
          ++ replace_all LF (list_byte_of_string "\n")
               (replace_all CR (list_byte_of_string "\r") frame), 0)
    /\ ~ In CR (fst (get_error_context error_message rb))
    /\ ~ In LF (fst (get_error_context error_message rb)).
Proof.
  intros Hcr Hlf.
  destruct (context_frame_prefix (pending rb) 0) as (rest & E).
  exists (context_frame (pending rb) 0), rest.
  split; [exact E |]. split.
  { pose proof (context_frame_newlines (pending rb) 0). lia. }
  split; [reflexivity |].
  unfold get_error_context. cbn [fst].
  fold (pending rb).
  set (frame := context_frame (pending rb) 0).
  split; intros H; apply in_app_or in H; destruct H as [H | H]; try tauto;
    apply in_app_or in H; destruct H as [H | H].
  - simpl in H. intuition discriminate.
  - apply replace_all_in in H. destruct H as [H | [H _]].
    + simpl in H. intuition discriminate.
    + apply replace_all_in in H. destruct H as [H | [_ H]].
      * simpl in H. intuition discriminate.
      * congruence.
  - simpl in H. intuition discriminate.
  - apply replace_all_in in H. destruct H as [H | [_ H]].
    + simpl in H. intuition discriminate.
    + congruence.
Qed.

Lemma error_context_is_one_line_witness :
  exists frame rest,
    pending ReadBufferUse.busy_reader = frame ++ rest
    /\ (length (List.filter (fun c => Byte.eqb c LF) frame) <= 2)%nat
    /\ get_error_context (list_byte_of_string "unexpected end of stream")
         ReadBufferUse.busy_reader
       = (list_byte_of_string "unexpected end of stream" ++ list_byte_of_string " - "
          ++ replace_all LF (list_byte_of_string "\n")
               (replace_all CR (list_byte_of_string "\r") frame), 0)
    /\ ~ In CR (fst (get_error_context (list_byte_of_string "unexpected end of stream")
                       ReadBufferUse.busy_reader))
    /\ ~ In LF (fst (get_error_context (list_byte_of_string "unexpected end of stream")
                       ReadBufferUse.busy_reader)).
Proof.
  apply (error_context_is_one_line (list_byte_of_string "unexpected end of stream")
           ReadBufferUse.busy_reader).
  - simpl. intuition discriminate.
  - simpl. intuition discriminate.
Defined.




End ReadBufferFacts.

(** ** The commands of the OpenTSDB telnet protocol *)

Section OpenTSDBCommandFacts.

Import OpenTSDB OpenTSDBCommands.

Lemma skip_word_cut (p : list byte) (len : nat) :
  (len <= length p)%nat ->
  exists word rest,
    p = word ++ rest
    /\ skip_word p len = (rest, (len - length word)%nat)
    /\ Forall (fun c => is_blank c = false) word
    /\ (length word <= len)%nat
    /\ ((length word < len)%nat -> exists c r, rest = c :: r /\ is_blank c = true).
Proof.
  revert len. induction p as [| c p IH]; intros len Hlen.
  - simpl in Hlen. assert (len = O) by lia. subst len.
    exists [], []. simpl. repeat split; try constructor. lia.
  - destruct len as [| len].
    + exists [], (c :: p). simpl. repeat split; try constructor. lia.
    + simpl. destruct (is_blank c) eqn:E.
      * exists [], (c :: p). simpl. repeat split; try constructor; try lia.
        intros _. exists c, p. split; [reflexivity | exact E].
      * simpl in Hlen. destruct (IH len ltac:(lia)) as (w & rest & -> & Hs & Hw & Hl & Hn).
        exists (c :: w), rest. simpl. repeat split.
        -- exact Hs.
        -- constructor; assumption.
        -- lia.
        -- intros H. apply Hn. lia.
Qed.

Lemma skip_blanks_cut (p : list byte) (quota n : nat) :
  (quota <= length p)%nat ->
  exists blanks rest,
    p = blanks ++ rest
    /\ skip_blanks p quota n = (rest, (quota - length blanks)%nat, (n + length blanks)%nat)
    /\ Forall (fun c => is_blank c = true) blanks
    /\ (length blanks <= quota)%nat
    /\ ((length blanks < quota)%nat -> exists c r, rest = c :: r /\ is_blank c = false).
Proof.
  revert quota n. induction p as [| c p IH]; intros quota n Hlen.
  - simpl in Hlen. assert (quota = O) by lia. subst quota.
    exists [], []. simpl. rewrite Nat.add_0_r. repeat split; try constructor. lia.
  - destruct quota as [| quota].
    + exists [], (c :: p). simpl. rewrite Nat.add_0_r. repeat split; try constructor. lia.
    + simpl. destruct (is_blank c) eqn:E; simpl.
      * simpl in Hlen.
        destruct (IH quota (S n) ltac:(lia)) as (bl & rest & -> & Hs & Hb & Hl & Hn).
        exists (c :: bl), rest. simpl. repeat split.
        -- rewrite Hs. f_equal. lia.
        -- constructor; assumption.
        -- lia.
        -- intros H. apply Hn. lia.
      * exists [], (c :: p). simpl. rewrite Nat.add_0_r.
        repeat split; try constructor; try lia.
        intros _. exists c, p. split; [reflexivity | exact E].
Qed.

(** [skip_element] cuts the [len] bytes it
    is given into an element without blank or newline, the blanks and
    newlines after it, and the rest: it returns the pointer to the rest, the
    length of the rest and the number of blanks. The rest, if it is not
    empty, starts with a byte of the next element. The number of blanks is
    zero only when the element runs to the end of the [len] bytes; so the
    [ntrailing >= 1] of the function's comment holds exactly when a blank
    or newline follows the element. *)
Theorem skip_element_cuts (buffer : list byte) (len : nat) :
  (len <= length buffer)%nat ->
  exists element blanks rest,
    buffer = element ++ blanks ++ rest
    /\ skip_element buffer len
       = (rest, (len - length element - length blanks)%nat, length blanks)
    /\ Forall (fun c => is_blank c = false) element
    /\ Forall (fun c => is_blank c = true) blanks
    /\ (length element + length blanks <= len)%nat
    /\ (blanks = [] <-> length element = len)
    /\ ((length element + length blanks < len)%nat ->
        exists c r, rest = c :: r /\ is_blank c = false).
Proof.
  intros Hlen.
  destruct (skip_word_cut buffer len Hlen) as (w & p & -> & Hs & Hw & Hl & Hn).
  rewrite length_app in Hlen.
  destruct (skip_blanks_cut p (len - length w) 0 ltac:(lia))
    as (bl & rest & -> & Hs' & Hb & Hl' & Hn').
  exists w, bl, rest. unfold skip_element. rewrite Hs, Hs'. simpl.
  repeat split; try assumption; try lia.
  - intros ->. destruct (Nat.eq_dec (length w) len) as [E | E]; [exact E |].
    destruct (Hn ltac:(lia)) as (c & r & Hc & Hbl).
    simpl in Hc. destruct (Hn' ltac:(simpl; lia)) as (c' & r' & -> & Hc').
    injection Hc as <- <-. congruence.
  - intros E. destruct bl as [| c bl]; [reflexivity |]. simpl in Hl'. lia.
  - intros H. apply Hn'. lia.
Qed.

Lemma skip_element_cuts_witness :
  exists element blanks rest,
    list_byte_of_string "cpu.real  1 2" = element ++ blanks ++ rest
    /\ skip_element (list_byte_of_string "cpu.real  1 2") 13
       = (rest, (13 - length element - length blanks)%nat, length blanks)
    /\ Forall (fun c => is_blank c = false) element
    /\ Forall (fun c => is_blank c = true) blanks
    /\ (length element + length blanks <= 13)%nat
    /\ (blanks = [] <-> length element = 13%nat)
    /\ ((length element + length blanks < 13)%nat ->
        exists c r, rest = c :: r /\ is_blank c = false).
Proof.
  apply (skip_element_cuts (list_byte_of_string "cpu.real  1 2") 13).
  simpl. lia.
Defined.

Lemma code_range (c : byte) : 0 <= code c < 256.
Proof.
  unfold code. pose proof (Byte.to_N_bounded c) as H. lia.
Qed.

Lemma code_inj (a b : byte) : code a = code b -> a = b.
Proof.
  unfold code. intros H. apply N2Z.inj in H.
  pose proof (Byte.of_to_N a) as Ha. rewrite H, Byte.of_to_N in Ha.
  congruence.
Qed.

Lemma equal_prefix (p kw : list byte) :
  equal p kw = true <-> exists rest, p = kw ++ rest.
Proof.
  revert p. induction kw as [| k kw IH]; intros p; simpl.
  - split; [intros _; exists p; reflexivity | intros _; destruct p; reflexivity].
  - destruct p as [| c p].
    + split; [discriminate | intros (rest & H); discriminate].
    + simpl. rewrite andb_true_iff, IH. split.
      * intros (Hc & rest & ->). apply Byte.byte_dec_bl in Hc. subst c.
        exists rest. reflexivity.
      * intros (rest & H). injection H as -> ->. split.
        -- apply Byte.byte_dec_lb. reflexivity.
        -- exists rest. reflexivity.
Qed.

Lemma is_put_prefix (p : list byte) :
  is_put p = true <-> exists rest, p = keyword PUT ++ rest.
Proof.
  split.
  - unfold is_put, load_u32, asciiput. intros H. apply Z.eqb_eq in H.
    pose proof (code_range (nth 0 p x00)) as H0.
    pose proof (code_range (nth 1 p x00)) as H1.
    pose proof (code_range (nth 2 p x00)) as H2.
    pose proof (code_range (nth 3 p x00)) as H3.
    assert (E0 : code (nth 0 p x00) = code "p") by (change (code "p") with 112; lia).
    assert (E1 : code (nth 1 p x00) = code "u") by (change (code "u") with 117; lia).
    assert (E2 : code (nth 2 p x00) = code "t") by (change (code "t") with 116; lia).
    assert (E3 : code (nth 3 p x00) = code " ") by (change (code " ") with 32; lia).
    apply code_inj in E0, E1, E2, E3.
    destruct p as [| a [| b [| c [| d rest]]]]; simpl in E0, E1, E2, E3;
      try discriminate.
    subst. exists rest. reflexivity.
  - intros (rest & ->). reflexivity.
Qed.

Lemma prefix_of_take (p kw rest : list byte) (len : Z) :
  (0 < length kw)%nat ->
  take (Z.to_nat len) p = kw ++ rest ->
  Z.of_nat (length kw) <= len /\ exists rest', p = kw ++ rest'.
Proof.
  intros Hkw H. split.
  - apply (f_equal (@length byte)) in H. rewrite length_take, length_app in H. lia.
  - exists (rest ++ drop (Z.to_nat len) p).
    rewrite app_assoc, <- H. symmetry. apply take_drop.
Qed.

Lemma take_of_prefix (kw rest : list byte) (len : Z) :
  Z.of_nat (length kw) <= len ->
  exists rest', take (Z.to_nat len) (kw ++ rest) = kw ++ rest'.
Proof.
  intros H. exists (take (Z.to_nat len - length kw) rest).
  rewrite take_app_ge by lia. reflexivity.
Qed.

(** [message_dispatch] names a command
    exactly when the first [len] bytes of the line start with its keyword,
    [put] with the blank after it, [rollup], [hist], [stats], [version],
    [help] or [dropcaches]: the comparison of [is_put] on a 32-bit load is
    the comparison with the four bytes of "put ", and no keyword hides
    another, whatever the order of the tests. *)
Theorem message_dispatch_by_keyword (p : list byte) (len : Z) (t : OpenTSDBMessageType) :
  t <> UNKNOWN ->
  (message_dispatch p len = t
   <-> exists rest, take (Z.to_nat len) p = keyword t ++ rest).
Proof.
  intros Ht. split.
  - unfold message_dispatch, is_rollup, is_histogram, is_stats, is_version, is_help,
      is_dropcaches, PUT_LEN, ROLLUP_LEN, HISTOGRAM_LEN, STATS_LEN, VERSION_LEN, HELP_LEN,
      DROPCACHES_LEN.
    intros H.
    repeat match type of H with
    | (if ?g && ?e then _ else _) = _ =>
        destruct g eqn:?; [destruct e eqn:? |]; cbn [andb] in H
    | (if ?e then _ else _) = _ => destruct e eqn:?
    end; subst t; try congruence;
    repeat match goal with
    | G : (_ <=? len) = true |- _ => apply Z.leb_le in G
    end;
    match goal with
    | E : is_put p = true |- _ => apply is_put_prefix in E; destruct E as (rest & ->)
    | E : equal p _ = true |- _ => apply equal_prefix in E; destruct E as (rest & ->)
    end; apply take_of_prefix; simpl; lia.
  - intros (rest & H). apply prefix_of_take in H; [| destruct t; simpl; try lia; congruence].
    destruct H as (Hlen & rest' & ->).
    unfold message_dispatch.
    destruct t; try congruence; cbn [keyword] in *; simpl length in Hlen;
      unfold PUT_LEN, ROLLUP_LEN, HISTOGRAM_LEN, STATS_LEN, VERSION_LEN, HELP_LEN,
        DROPCACHES_LEN;
      repeat match goal with
      | |- context [?n <=? len] =>
          first [ replace (n <=? len) with true by (symmetry; apply Z.leb_le; lia)
                | destruct (n <=? len) ]
      end; vm_compute; reflexivity.
Qed.

Lemma message_dispatch_by_keyword_witness :
  message_dispatch (list_byte_of_string "put cpu 1 2 host=a") 18 = PUT
  <-> exists rest,
        take (Z.to_nat 18) (list_byte_of_string "put cpu 1 2 host=a") = keyword PUT ++ rest.
Proof.
  apply (message_dispatch_by_keyword (list_byte_of_string "put cpu 1 2 host=a") 18 PUT).
  discriminate.
Defined.

Lemma skip_word_word (w rest : list byte) (extra : nat) :
  Forall (fun c => is_blank c = false) w ->
  (extra = O \/ exists c r, rest = c :: r /\ is_blank c = true) ->
  skip_word (w ++ rest) (length w + extra) = (rest, extra).
Proof.
  intros Hw Hrest. induction Hw as [| c w Hc Hw IH]; simpl.
  - destruct Hrest as [-> | (c & r & -> & Hc)]; simpl.
    + reflexivity.
    + destruct extra; [reflexivity |]. simpl. rewrite Hc. reflexivity.
  - rewrite Hc. exact IH.
Qed.

Lemma skip_blanks_blanks (bl rest : list byte) (extra n : nat) :
  Forall (fun c => is_blank c = true) bl ->
  (extra = O \/ rest = [] \/ exists c r, rest = c :: r /\ is_blank c = false) ->
  skip_blanks (bl ++ rest) (length bl + extra) n = (rest, extra, (n + length bl)%nat).
Proof.
  intros Hb Hrest. revert n. induction Hb as [| c bl Hc Hb IH]; intros n; simpl.
  - rewrite Nat.add_0_r.
    destruct Hrest as [-> | [-> | (c & r & -> & Hc)]]; simpl.
    + reflexivity.
    + destruct extra; reflexivity.
    + destruct extra; [reflexivity |]. simpl. rewrite Hc. reflexivity.
  - rewrite Hc. simpl. rewrite IH. f_equal. lia.
Qed.

Lemma skip_element_element (w bl rest : list byte) :
  Forall (fun c => is_blank c = false) w ->
  Forall (fun c => is_blank c = true) bl ->
  (bl <> [] \/ rest = []) ->
  (rest = [] \/ exists c r, rest = c :: r /\ is_blank c = false) ->
  skip_element (w ++ bl ++ rest) (length (w ++ bl ++ rest)) = (rest, length rest, length bl).
Proof.
  intros Hw Hb Hbl Hrest. unfold skip_element.
  rewrite length_app.
  rewrite (skip_word_word w (bl ++ rest) (length (bl ++ rest)) Hw).
  - rewrite length_app.
    rewrite (skip_blanks_blanks bl rest (length rest) 0 Hb).
    + reflexivity.
    + destruct Hrest as [-> | H]; [right; left; reflexivity | right; right; exact H].
  - destruct bl as [| c bl].
    + destruct Hbl as [H | ->]; [congruence | left; reflexivity].
    + right. exists c, (bl ++ rest). split; [reflexivity |].
      inversion Hb; assumption.
Qed.

Lemma skip_redundant_spaces (spaces rest : list byte) :
  Forall (fun c => c = SP) spaces ->
  (rest = [] \/ exists c r, rest = c :: r /\ c <> SP) ->
  skip_redundant (spaces ++ rest) (length (spaces ++ rest)) = (rest, length rest).
Proof.
  intros Hs Hrest. induction Hs as [| c spaces Hc Hs IH]; simpl.
  - destruct Hrest as [-> | (c & r & -> & Hc)]; simpl; [reflexivity |].
    destruct (Byte.eqb c SP) eqn:E; [| reflexivity].
    apply Byte.byte_dec_bl in E. congruence.
  - subst c. simpl. exact IH.
Qed.

Lemma count_trailing_blanks (tr body : list byte) :
  Forall (fun c => is_blank c = true) tr ->
  (body = [] \/ is_blank (last body SP) = false) ->
  count_trailing (rev tr ++ rev body) = length tr.
Proof.
  intros Htr Hbody.
  assert (Hrev : Forall (fun c => is_blank c = true) (rev tr)).
  { apply Forall_forall. intros c Hc. apply in_rev in Hc.
    rewrite Forall_forall in Htr. apply Htr. exact Hc. }
  rewrite <- length_rev. induction Hrev as [| c l Hc Hl IH]; simpl.
  - destruct Hbody as [-> | Hlast]; [reflexivity |].
    destruct body as [| b body] using rev_ind; [reflexivity |].
    rewrite rev_unit. simpl. rewrite last_last in Hlast. rewrite Hlast. reflexivity.
  - rewrite Hc. simpl. rewrite IH. reflexivity.
Qed.

Lemma nonblank_head (w rest : list byte) :
  w <> [] -> Forall (fun c => is_blank c = false) w ->
  exists c r, w ++ rest = c :: r /\ is_blank c = false.
Proof.
  intros Hne Hw. destruct w as [| c w]; [congruence |].
  exists c, (w ++ rest). split; [reflexivity | inversion Hw; assumption].
Qed.

Lemma blank_not_SP (c : byte) : is_blank c = false -> c <> SP.
Proof. intros H ->. discriminate. Qed.

Lemma is_word_spec (w : list byte) :
  OpenTSDBLines.is_word w = true -> w <> [] /\ Forall (fun c => is_blank c = false) w.
Proof.
  intros H. destruct w as [| c w]; [discriminate |].
  split; [discriminate |]. unfold OpenTSDBLines.is_word in H.
  rewrite forallb_forall in H. apply Forall_forall. intros x Hx.
  apply negb_true_iff, H. exact Hx.
Qed.

Lemma is_gap_spec (s : list byte) :
  OpenTSDBLines.is_gap s = true -> s <> [] /\ Forall (fun c => is_blank c = true) s.
Proof.
  intros H. destruct s as [| c s]; [discriminate |].
  split; [discriminate |]. unfold OpenTSDBLines.is_gap in H.
  rewrite forallb_forall in H. apply Forall_forall. exact H.
Qed.

Lemma is_tags_spec (tags : list byte) :
  OpenTSDBLines.is_tags tags = true ->
  exists c body, tags = c :: body /\ is_blank c = false
                 /\ (body = [] \/ is_blank (last body SP) = false).
Proof.
  unfold OpenTSDBLines.is_tags. rewrite andb_true_iff, !negb_true_iff.
  intros [Hh Hl]. destruct tags as [| c body]; [discriminate |].
  exists c, body. split; [reflexivity |]. split; [exact Hh |].
  destruct body as [| b body]; [left; reflexivity | right; exact Hl].
Qed.

Lemma length_nonempty (l : list byte) : l <> [] -> (length l =? 0)%nat = false.
Proof. destruct l; [congruence | reflexivity]. Qed.

(** On a [put] line with a metric, a
    timestamp, a value and tags, each set off by blanks, the handler
    rotates the tags in front of the timestamp: the series name it hands to
    the session is the metric, the blanks after it and the tags without the
    blanks and the newline at the end of the line; the text it gives
    [strtoull] is the timestamp, and the text it gives [strtod] starts with
    the value followed by a blank and must be consumed up to that blank.
    The texts for [Utility::parse_timestamp] and [strtod] run on into
    [junk], the bytes that lie behind the line, and the array is left with
    the line rotated and a blank at each of the two cuts. *)
Theorem put_fields_well_formed_line
  (spaces metric s1 ts s2 value s3 tags tr junk : list byte) :
  Forall (fun c => c = SP) spaces ->
  OpenTSDBLines.is_word metric = true -> OpenTSDBLines.is_gap s1 = true ->
  OpenTSDBLines.is_word ts = true -> OpenTSDBLines.is_gap s2 = true ->
  OpenTSDBLines.is_word value = true -> OpenTSDBLines.is_gap s3 = true ->
  OpenTSDBLines.is_tags tags = true ->
  Forall (fun c => is_blank c = true) tr ->
  Z.of_nat (length (OpenTSDBLines.put_line spaces metric s1 ts s2 value s3 tags tr)) < 2 ^ 32 ->
  put_fields (OpenTSDBLines.put_line spaces metric s1 ts s2 value s3 tags tr ++ junk)
    (length (OpenTSDBLines.put_line spaces metric s1 ts s2 value s3 tags tr))
  = inr {| series_name := metric ++ s1 ++ tags;
           ts_token := ts;
           ts_rest := SP :: tl s2 ++ value ++ s3 ++ junk;
           value_text := value ++ SP :: tl s3 ++ junk;
           tix := Z.of_nat (length value);
           buffer_after :=
             keyword PUT ++ spaces ++ metric ++ s1 ++ tags ++ tr
             ++ ts ++ SP :: tl s2 ++ value ++ SP :: tl s3 ++ junk |}.
Proof.
  intros Hsp Hm Hs1 Ht Hs2 Hv Hs3 Htags Htr Hlen.
  apply is_word_spec in Hm, Ht, Hv. apply is_gap_spec in Hs1, Hs2, Hs3.
  destruct Hm as [Hm0 Hm], Ht as [Ht0 Ht], Hv as [Hv0 Hv].
  destruct Hs1 as [Hs10 Hs1], Hs2 as [Hs20 Hs2], Hs3 as [Hs30 Hs3].
  destruct (is_tags_spec tags Htags) as (c0 & body & Etags & Hc0 & Hbody).
  unfold put_fields. rewrite take_app_length, drop_app_length.
  unfold OpenTSDBLines.put_line in *.
  set (R4 := tags ++ tr).
  set (R3 := value ++ s3 ++ R4).
  set (R2 := ts ++ s2 ++ R3).
  set (R1 := metric ++ s1 ++ R2).
  change (drop 4 (keyword PUT ++ spaces ++ R1)) with (spaces ++ R1).
  replace (length (keyword PUT ++ spaces ++ R1) - 4)%nat with (length (spaces ++ R1))
    by (simpl; lia).
  assert (HR4 : exists c r, R4 = c :: r /\ is_blank c = false).
  { subst R4. rewrite Etags. exists c0, (body ++ tr). split; [reflexivity | exact Hc0]. }
  assert (HR3 : exists c r, R3 = c :: r /\ is_blank c = false)
    by (apply nonblank_head; assumption).
  assert (HR2 : exists c r, R2 = c :: r /\ is_blank c = false)
    by (apply nonblank_head; assumption).
  assert (HR1 : exists c r, R1 = c :: r /\ is_blank c = false)
    by (apply nonblank_head; assumption).
  rewrite skip_redundant_spaces;
    [| exact Hsp
     | right; destruct HR1 as (c & r & E & Hc); exists c, r; split;
       [exact E | apply blank_not_SP; exact Hc]].
  unfold R1 at 1 2.
  rewrite (skip_element_element metric s1 R2 Hm Hs1); [| left; exact Hs10 | right; exact HR2].
  rewrite length_nonempty by (destruct HR2 as (c & r & -> & _); discriminate).
  unfold R2 at 1 2.
  rewrite (skip_element_element ts s2 R3 Ht Hs2); [| left; exact Hs20 | right; exact HR3].
  rewrite length_nonempty by (destruct HR3 as (c & r & -> & _); discriminate).
  unfold R3 at 1 2.
  rewrite (skip_element_element value s3 R4 Hv Hs3); [| left; exact Hs30 | right; exact HR4].
  rewrite length_nonempty by (destruct HR4 as (c & r & -> & _); discriminate).
  assert (Htt : tags_trailing_of R4 = length tr).
  { unfold tags_trailing_of, R4. rewrite Etags. simpl tl.
    rewrite rev_app_distr. apply count_trailing_blanks; assumption. }
  rewrite Htt.
  assert (HlenR1 : length R1 = (length metric + length s1 + length R2)%nat)
    by (unfold R1; rewrite !length_app; lia).
  assert (HlenR2 : length R2 = (length ts + length s2 + length R3)%nat)
    by (unfold R2; rewrite !length_app; lia).
  assert (HlenR3 : length R3 = (length value + length s3 + length R4)%nat)
    by (unfold R3; rewrite !length_app; lia).
  assert (HlenR4 : length R4 = (length tags + length tr)%nat)
    by (unfold R4; rewrite !length_app; lia).
  assert (Hbound : Z.of_nat (length R1) < 2 ^ 32).
  { rewrite !length_app in Hlen. lia. }
  assert (Hrot : take (Z.to_nat (Z.of_nat (length R1) - Z.of_nat (length R2))) R1 ++ R4
                 ++ take (length R2 - length R4) R2
                 = (metric ++ s1 ++ tags) ++ tr ++ ts ++ s2 ++ value ++ s3).
  { replace (Z.to_nat (Z.of_nat (length R1) - Z.of_nat (length R2)))
      with (length (metric ++ s1)) by (rewrite length_app; lia).
    unfold R1 at 1. rewrite (app_assoc metric s1 R2), take_app_length.
    replace (length R2 - length R4)%nat with (length (ts ++ s2 ++ value ++ s3))
      by (rewrite !length_app; lia).
    unfold R2 at 1, R3 at 1.
    replace (ts ++ s2 ++ value ++ s3 ++ R4) with ((ts ++ s2 ++ value ++ s3) ++ R4)
      by (rewrite <- !app_assoc; reflexivity).
    rewrite take_app_length. unfold R4. rewrite <- !app_assoc. reflexivity. }
  rewrite Hrot.
  replace (Z.to_nat (u32 (Z.of_nat (length R4)
                          + (Z.of_nat (length R1) - Z.of_nat (length R2))
                          - Z.of_nat (length tr))))
    with (length (metric ++ s1 ++ tags))
    by (rewrite u32_small; rewrite ?length_app; lia).
  rewrite take_app_length.
  replace (Z.to_nat (Z.of_nat (length R4) + (Z.of_nat (length R1) - Z.of_nat (length R2))))
    with (length ((metric ++ s1 ++ tags) ++ tr)) by (rewrite !length_app; lia).
  rewrite (app_assoc (metric ++ s1 ++ tags) tr), drop_app_length.
  replace (Z.to_nat (Z.of_nat (length R2) - Z.of_nat (length R3) - Z.of_nat (length s2)))
    with (length ts) by lia.
  replace (Z.to_nat (Z.of_nat (length R2) - Z.of_nat (length R3)))
    with (length (ts ++ s2)) by (rewrite length_app; lia).
  replace (Z.of_nat (length R3) - Z.of_nat (length R4) - Z.of_nat (length s3))
    with (Z.of_nat (length value)) by lia.
  rewrite Nat2Z.id.
  replace (length (keyword PUT ++ spaces ++ R1) - length R1)%nat
    with (length (keyword PUT ++ spaces)) by (rewrite !length_app; lia).
  rewrite (app_assoc (keyword PUT) spaces R1), take_app_length.
  destruct s2 as [| b2 s2]; [congruence |].
  destruct s3 as [| b3 s3]; [congruence |].
  assert (Hins : <[length ts := SP]> ((ts ++ (b2 :: s2) ++ value ++ b3 :: s3) ++ junk)
                 = (ts ++ SP :: s2) ++ value ++ (b3 :: s3) ++ junk).
  { rewrite <- !app_assoc. rewrite insert_app_r_alt by lia.
    rewrite Nat.sub_diag. reflexivity. }
  rewrite Hins.
  replace (take (length ts) ((ts ++ (b2 :: s2) ++ value ++ b3 :: s3) ++ junk)) with ts
    by (rewrite <- !app_assoc; now rewrite take_app_length).
  replace (length (ts ++ b2 :: s2)) with (length (ts ++ SP :: s2))
    by (rewrite !length_app; reflexivity).
  rewrite drop_app_length, take_app_length.
  replace (drop (length ts) ((ts ++ SP :: s2) ++ value ++ (b3 :: s3) ++ junk))
    with (SP :: s2 ++ value ++ (b3 :: s3) ++ junk)
    by (rewrite <- !app_assoc; now rewrite drop_app_length).
  rewrite insert_app_r_alt by lia. rewrite Nat.sub_diag.
  rewrite take_app_length. cbn [tl].
  change (<[0%nat := SP]> ((b3 :: s3) ++ junk)) with (SP :: s3 ++ junk).
  f_equal. f_equal.
  rewrite <- !app_assoc. reflexivity.
Qed.

Lemma put_fields_well_formed_line_witness :
  put_fields (SessionFixtures.cpu_line ++ list_byte_of_string "put") (length SessionFixtures.cpu_line)
  = inr {| series_name := list_byte_of_string "cpu" ++ list_byte_of_string " "
                          ++ list_byte_of_string "host=a";
           ts_token := list_byte_of_string "1418197423";
           ts_rest := SP :: tl (list_byte_of_string " ") ++ list_byte_of_string "3"
                      ++ list_byte_of_string " " ++ list_byte_of_string "put";
           value_text := list_byte_of_string "3" ++ SP :: tl (list_byte_of_string " ")
                         ++ list_byte_of_string "put";
           tix := Z.of_nat (length (list_byte_of_string "3"));
           buffer_after :=
             keyword PUT ++ [] ++ list_byte_of_string "cpu" ++ list_byte_of_string " "
             ++ list_byte_of_string "host=a" ++ [LF]
             ++ list_byte_of_string "1418197423" ++ SP :: tl (list_byte_of_string " ")
             ++ list_byte_of_string "3" ++ SP :: tl (list_byte_of_string " ")
             ++ list_byte_of_string "put" |}.
Proof.
  apply (put_fields_well_formed_line [] (list_byte_of_string "cpu") (list_byte_of_string " ")
           (list_byte_of_string "1418197423") (list_byte_of_string " ")
           (list_byte_of_string "3") (list_byte_of_string " ")
           (list_byte_of_string "host=a") [LF] (list_byte_of_string "put")).
  - constructor.
  - reflexivity.
  - reflexivity.
  - reflexivity.
  - reflexivity.
  - reflexivity.
  - reflexivity.
  - reflexivity.
  - repeat constructor.
  - simpl. lia.
Defined.

Lemma skip_redundant_blank (l : list byte) :
  Forall (fun c => is_blank c = true) l ->
  exists l', skip_redundant l (length l) = (l', length l')
             /\ Forall (fun c => is_blank c = true) l'.
Proof.
  intros H. induction H as [| c l Hc Hl IH].
  - exists []. split; [reflexivity | constructor].
  - simpl. destruct (Byte.eqb c SP).
    + exact IH.
    + exists (c :: l). split; [reflexivity | constructor; assumption].
Qed.

Lemma skip_element_last (w tr : list byte) :
  Forall (fun c => is_blank c = false) w ->
  Forall (fun c => is_blank c = true) tr ->
  skip_element (w ++ tr) (length (w ++ tr)) = ([], O, length tr).
Proof.
  intros Hw Htr.
  pose proof (skip_element_element w tr [] Hw Htr (or_intror eq_refl) (or_introl eq_refl))
    as H.
  rewrite app_nil_r in H. exact H.
Qed.

(** A [put] line with fewer than four
    elements after the keyword is refused with "not enough arguments", and
    the number in the message is one less than the number of elements
    present, or 0 when there is none: a line with a metric, a timestamp and
    a value but no tag is refused with "got 2". *)
Theorem put_fields_not_enough_arguments
  (spaces blanks metric s1 ts s2 value tr junk : list byte) :
  Forall (fun c => c = SP) spaces ->
  Forall (fun c => is_blank c = true) blanks ->
  OpenTSDBLines.is_word metric = true -> OpenTSDBLines.is_gap s1 = true ->
  OpenTSDBLines.is_word ts = true -> OpenTSDBLines.is_gap s2 = true ->
  OpenTSDBLines.is_word value = true ->
  Forall (fun c => is_blank c = true) tr ->
  put_fields ((keyword PUT ++ blanks) ++ junk) (length (keyword PUT ++ blanks))
  = inl (not_enough "0")
  /\ put_fields ((keyword PUT ++ spaces ++ metric ++ tr) ++ junk)
       (length (keyword PUT ++ spaces ++ metric ++ tr))
     = inl (not_enough "0")
  /\ put_fields ((keyword PUT ++ spaces ++ metric ++ s1 ++ ts ++ tr) ++ junk)
       (length (keyword PUT ++ spaces ++ metric ++ s1 ++ ts ++ tr))
     = inl (not_enough "1")
  /\ put_fields ((keyword PUT ++ spaces ++ metric ++ s1 ++ ts ++ s2 ++ value ++ tr) ++ junk)
       (length (keyword PUT ++ spaces ++ metric ++ s1 ++ ts ++ s2 ++ value ++ tr))
     = inl (not_enough "2").
Proof.
  intros Hsp Hbl Hm Hs1 Ht Hs2 Hv Htr.
  apply is_word_spec in Hm, Ht, Hv. apply is_gap_spec in Hs1, Hs2.
  destruct Hm as [Hm0 Hm], Ht as [Ht0 Ht], Hv as [Hv0 Hv].
  destruct Hs1 as [Hs10 Hs1], Hs2 as [Hs20 Hs2].
  assert (Hskip : forall R, (exists c r, R = c :: r /\ is_blank c = false) ->
            skip_redundant (spaces ++ R) (length (spaces ++ R)) = (R, length R)).
  { intros R (c & r & E & Hc). apply skip_redundant_spaces; [exact Hsp |].
    right. exists c, r. split; [exact E | apply blank_not_SP; exact Hc]. }
  assert (Hstart : forall X,
            drop 4 (keyword PUT ++ X) = X
            /\ (length (keyword PUT ++ X) - 4)%nat = length X).
  { intros X. split; [reflexivity | simpl; lia]. }
  repeat split; unfold put_fields; rewrite take_app_length.
  - destruct (Hstart blanks) as [-> ->].
    destruct (skip_redundant_blank blanks Hbl) as (l' & -> & Hl').
    pose proof (skip_element_last [] l' ltac:(constructor) Hl') as H.
    simpl app in H. rewrite H. reflexivity.
  - destruct (Hstart (spaces ++ metric ++ tr)) as [-> ->].
    rewrite Hskip by (apply nonblank_head; assumption).
    rewrite skip_element_last by assumption. reflexivity.
  - destruct (Hstart (spaces ++ metric ++ s1 ++ ts ++ tr)) as [-> ->].
    rewrite Hskip by (apply nonblank_head; assumption).
    rewrite (skip_element_element metric s1 (ts ++ tr) Hm Hs1);
      [| left; exact Hs10 | right; apply nonblank_head; assumption].
    rewrite length_nonempty by (destruct ts; [congruence | discriminate]).
    rewrite skip_element_last by assumption. reflexivity.
  - destruct (Hstart (spaces ++ metric ++ s1 ++ ts ++ s2 ++ value ++ tr)) as [-> ->].
    rewrite Hskip by (apply nonblank_head; assumption).
    rewrite (skip_element_element metric s1 (ts ++ s2 ++ value ++ tr) Hm Hs1);
      [| left; exact Hs10 | right; apply nonblank_head; assumption].
    rewrite length_nonempty by (destruct ts; [congruence | discriminate]).
    rewrite (skip_element_element ts s2 (value ++ tr) Ht Hs2);
      [| left; exact Hs20 | right; apply nonblank_head; assumption].
    rewrite length_nonempty by (destruct value; [congruence | discriminate]).
    rewrite skip_element_last by assumption. reflexivity.
Qed.

Lemma put_fields_not_enough_arguments_witness :
  put_fields ((keyword PUT ++ [LF]) ++ []) (length (keyword PUT ++ [LF]))
  = inl (not_enough "0")
  /\ put_fields ((keyword PUT ++ [] ++ list_byte_of_string "cpu" ++ [LF]) ++ [])
       (length (keyword PUT ++ [] ++ list_byte_of_string "cpu" ++ [LF]))
     = inl (not_enough "0")
  /\ put_fields ((keyword PUT ++ [] ++ list_byte_of_string "cpu" ++ list_byte_of_string " "
                  ++ list_byte_of_string "1" ++ [LF]) ++ [])
       (length (keyword PUT ++ [] ++ list_byte_of_string "cpu" ++ list_byte_of_string " "
                ++ list_byte_of_string "1" ++ [LF]))
     = inl (not_enough "1")
  /\ put_fields ((keyword PUT ++ [] ++ list_byte_of_string "cpu" ++ list_byte_of_string " "
                  ++ list_byte_of_string "1" ++ list_byte_of_string " "
                  ++ list_byte_of_string "2" ++ [LF]) ++ [])
       (length (keyword PUT ++ [] ++ list_byte_of_string "cpu" ++ list_byte_of_string " "
                ++ list_byte_of_string "1" ++ list_byte_of_string " "
                ++ list_byte_of_string "2" ++ [LF]))
     = inl (not_enough "2").
Proof.
  apply (put_fields_not_enough_arguments [] [LF] (list_byte_of_string "cpu")
           (list_byte_of_string " ") (list_byte_of_string "1") (list_byte_of_string " ")
           (list_byte_of_string "2") [LF] []).
  - constructor.
  - repeat constructor.
  - reflexivity.
  - reflexivity.
  - reflexivity.
  - reflexivity.
  - reflexivity.
  - repeat constructor.
Defined.

Section PutFacts.

Context {db : Type}.
Variable series_to_param_id : list byte -> Sample -> db -> Status * Sample * db.
Variable parse_timestamp : list byte -> Timestamp -> Status * Timestamp.
Variable strtod : list byte -> float * Z.
Variable write : Sample -> db -> Status * db.
Variable PAYLOAD_FLOAT : Z.

(** The [put] handler writes a sample only
    after everything in the line has been accepted: when it ends with the
    sample written, the line had its four elements, the session gave the
    series name an id with status Ok, the timestamp was read by the
    timestamp block, [strtod] consumed the value up to the blank that ends
    it, and the session's write returned Ok. The sample written has the
    id the session gave, that timestamp, that value and the type
    [PAYLOAD_FLOAT]; size and data of the payload are as the session left
    them. *)
Theorem put_writes_what_it_parsed
  (buffer : list byte) (len : nat) (sample written : Sample) (d d' : db) :
  put series_to_param_id parse_timestamp strtod write PAYLOAD_FLOAT buffer len sample d
  = Written written d' ->
  exists f status sample1 d1 status',
    put_fields buffer len = inr f
    /\ series_to_param_id (series_name f) sample d = (status, sample1, d1)
    /\ IsOk status = true
    /\ put_timestamp parse_timestamp (ts_token f) (ts_rest f) = inl (timestamp written)
    /\ strtod (value_text f) = (float64 (payload written), tix f)
    /\ write written d1 = (status', d')
    /\ IsOk status' = true
    /\ written = {| paramid := paramid sample1;
                    timestamp := timestamp written;
                    payload := {| float64 := float64 (payload written);
                                  size := size (payload sample1);
                                  type := PAYLOAD_FLOAT;
                                  data := data (payload sample1) |} |}.
Proof.
  unfold put. intros H.
  destruct (put_fields buffer len) as [msg | f]; [discriminate |].
  destruct (series_to_param_id (series_name f) sample d) as [[status sample1] d1] eqn:Eid.
  destruct (IsOk status) eqn:Eok; simpl in H; [| discriminate].
  destruct (put_timestamp parse_timestamp (ts_token f) (ts_rest f)) as [ts | msg] eqn:Ets;
    [| discriminate].
  destruct (strtod (value_text f)) as [value consumed] eqn:Ev.
  destruct (consumed =? tix f) eqn:Ec; simpl in H; [| discriminate].
  apply Z.eqb_eq in Ec. subst consumed.
  match type of H with
  | (let '(_, _) := write ?s d1 in _) = _ => destruct (write s d1) as [status' d2] eqn:Ew
  end.
  destruct (IsOk status') eqn:Eok'; simpl in H; [| discriminate].
  injection H as <- <-.
  exists f, status, sample1, d1, status'. simpl.
  repeat split; try assumption; reflexivity.
Qed.

End PutFacts.

Lemma put_writes_what_it_parsed_witness :
  exists written d',
    put SessionFixtures.name_to_id reject_all SessionFixtures.strtod_digits
      SessionFixtures.keep Fixtures.P_FLOAT SessionFixtures.cpu_line
      (length SessionFixtures.cpu_line) SessionFixtures.blank_sample []
    = Written written d'
    /\ exists f status sample1 d1 status',
         put_fields SessionFixtures.cpu_line (length SessionFixtures.cpu_line) = inr f
         /\ SessionFixtures.name_to_id (series_name f) SessionFixtures.blank_sample []
            = (status, sample1, d1)
         /\ IsOk status = true
         /\ put_timestamp reject_all (ts_token f) (ts_rest f) = inl (timestamp written)
         /\ SessionFixtures.strtod_digits (value_text f)
            = (float64 (payload written), tix f)
         /\ SessionFixtures.keep written d1 = (status', d')
         /\ IsOk status' = true
         /\ written = {| paramid := paramid sample1;
                         timestamp := timestamp written;
                         payload := {| float64 := float64 (payload written);
                                       size := size (payload sample1);
                                       type := Fixtures.P_FLOAT;
                                       data := data (payload sample1) |} |}.
Proof.
  eexists _, _. split.
  - vm_compute. reflexivity.
  - apply (put_writes_what_it_parsed SessionFixtures.name_to_id reject_all
             SessionFixtures.strtod_digits SessionFixtures.keep Fixtures.P_FLOAT
             SessionFixtures.cpu_line (length SessionFixtures.cpu_line)
             SessionFixtures.blank_sample _ [] _).
    vm_compute. reflexivity.
Defined.

End OpenTSDBCommandFacts.

(** ** The worker of the OpenTSDB parser *)

Section OpenTSDBWorkerFacts.

Import ReadBuffer OpenTSDBCommands OpenTSDBWorker.

Lemma line_end_body (body rest : list byte) :
  ~ In ReadBuffer.LF body -> line_end (body ++ ReadBuffer.LF :: rest) = Some (length body).
Proof.
  induction body as [| c body IH]; intros H; simpl.
  - reflexivity.
  - destruct (Byte.eqb c ReadBuffer.LF) eqn:E.
    + apply Byte.byte_dec_bl in E. exfalso. apply H. left. exact E.
    + rewrite IH; [reflexivity |]. intros Hin. apply H. right. exact Hin.
Qed.

Lemma line_end_notin (l : list byte) : ~ In ReadBuffer.LF l -> line_end l = None.
Proof.
  induction l as [| c l IH]; intros H; simpl.
  - reflexivity.
  - destruct (Byte.eqb c ReadBuffer.LF) eqn:E.
    + apply Byte.byte_dec_bl in E. exfalso. apply H. left. exact E.
    + rewrite IH; [reflexivity |]. intros Hin. apply H. right. exact Hin.
Qed.

Lemma is_line_spec (line : list byte) :
  is_line line = true ->
  exists body, line = body ++ [ReadBuffer.LF] /\ ~ In ReadBuffer.LF body.
Proof.
  unfold is_line. intros H.
  destruct (line_end line) as [i |] eqn:E; [| discriminate].
  apply Nat.eqb_eq in H.
  destruct (line_end_some line i E) as (body & rest & -> & Hlen & Hno).
  exists body. split; [| exact Hno].
  rewrite length_app in H. simpl in H.
  destruct rest; [reflexivity | simpl in H; lia].
Qed.

Lemma read_line_complete (quota : Z) (rb : ReadBuffer) (body rest : list byte) :
  well_formed rb -> 0 <= quota < 2 ^ 32 ->
  Z.of_nat (length (buffer_ rb)) < 2 ^ 31 ->
  unread rb = body ++ ReadBuffer.LF :: rest -> ~ In ReadBuffer.LF body ->
  Z.of_nat (length (body ++ [ReadBuffer.LF])) <= quota ->
  read_line quota rb
  = Value (Z.of_nat (length (body ++ [ReadBuffer.LF])), body ++ [ReadBuffer.LF],
           with_rpos rb (rpos_ rb + Z.of_nat (length (body ++ [ReadBuffer.LF])))).
Proof.
  intros Hwf Hq Hs Hun Hno Hfit.
  pose proof Hwf as (Hc & Hr & Hb & _).
  assert (Hul : Z.of_nat (length (unread rb)) = wpos_ rb - rpos_ rb).
  { unfold unread. apply slice_length; lia. }
  rewrite length_app in Hfit |- *. simpl length in Hfit |- *.
  assert (Hlen : Z.of_nat (length body) + 1 <= wpos_ rb - rpos_ rb).
  { rewrite <- Hul, Hun, length_app. simpl length. lia. }
  unfold read_line.
  replace (negb (quota <? 4294967296)) with false
    by (symmetry; apply negb_false_iff, Z.ltb_lt; lia).
  rewrite (u32_small quota) by lia.
  rewrite (u32_small (wpos_ rb - rpos_ rb)) by lia.
  rewrite (window_of_unread rb quota Hwf) by lia.
  rewrite Hun.
  assert (Hwin : take (Z.to_nat quota) (body ++ ReadBuffer.LF :: rest)
                 = body ++ ReadBuffer.LF :: take (Z.to_nat quota - S (length body)) rest).
  { rewrite take_app_ge by lia.
    replace (Z.to_nat quota - length body)%nat
      with (S (Z.to_nat quota - S (length body))) by lia.
    reflexivity. }
  rewrite Hwin, line_end_body by exact Hno.
  replace (Z.of_nat (length body + 1)) with (Z.of_nat (length body) + 1) by lia.
  rewrite (u32_small (Z.of_nat (length body) + 1)) by lia.
  rewrite (i32_small (Z.of_nat (length body) + 1)) by lia.
  rewrite (u32_small (rpos_ rb + (Z.of_nat (length body) + 1))) by lia.
  f_equal. f_equal. f_equal.
  replace (ReadBuffer.LF :: take (Z.to_nat quota - S (length body)) rest)
    with ([ReadBuffer.LF] ++ take (Z.to_nat quota - S (length body)) rest) by reflexivity.
  rewrite app_assoc. apply take_app_length'. rewrite length_app. simpl. lia.
Qed.

Lemma read_line_incomplete (quota : Z) (rb : ReadBuffer) :
  well_formed rb -> 0 <= quota < 2 ^ 32 ->
  Z.of_nat (length (buffer_ rb)) < 2 ^ 31 ->
  ~ In ReadBuffer.LF (take (Z.to_nat quota) (unread rb)) ->
  exists len, read_line quota rb = Value (len, take (Z.to_nat quota) (unread rb), rb)
              /\ len <= 0.
Proof.
  intros Hwf Hq Hs Hno.
  pose proof Hwf as (Hc & Hr & Hb & _).
  unfold read_line.
  replace (negb (quota <? 4294967296)) with false
    by (symmetry; apply negb_false_iff, Z.ltb_lt; lia).
  rewrite (u32_small quota) by lia.
  rewrite (u32_small (wpos_ rb - rpos_ rb)) by lia.
  rewrite (window_of_unread rb quota Hwf) by lia.
  rewrite (line_end_notin _ Hno).
  eexists. split; [reflexivity |].
  rewrite (i32_small (Z.min quota (wpos_ rb - rpos_ rb))) by lia.
  rewrite i32_small; lia.
Qed.

Context {db : Type}.
Variable series_to_param_id : list byte -> Sample -> db -> Status * Sample * db.
Variable parse_timestamp : list byte -> Timestamp -> Status * Timestamp.
Variable strtod : list byte -> float * Z.
Variable write : Sample -> db -> Status * db.
Variable PAYLOAD_FLOAT : Z.
Variable LIMITS_MAX_SNAME : Z.
Variable sample : Sample.

Local Abbreviation worker :=
  (OpenTSDBWorker.worker series_to_param_id parse_timestamp strtod write PAYLOAD_FLOAT
     LIMITS_MAX_SNAME sample).
Local Abbreviation handle_lines :=
  (OpenTSDBWorker.handle_lines series_to_param_id parse_timestamp strtod write PAYLOAD_FLOAT
     sample).
Local Abbreviation buffer_len := (OpenTSDBWorker.buffer_len LIMITS_MAX_SNAME).

Lemma worker_waits (fuel : nat) (rb : ReadBuffer) (buffer : list byte) (d : db) :
  well_formed rb -> 0 <= buffer_len < 2 ^ 32 ->
  Z.of_nat (length (buffer_ rb)) < 2 ^ 31 ->
  ~ In ReadBuffer.LF (take (Z.to_nat buffer_len) (unread rb)) ->
  worker (S fuel) rb buffer d = Returned None rb d.
Proof.
  intros Hwf Hq Hs Hno.
  destruct (read_line_incomplete buffer_len rb Hwf Hq Hs Hno) as (len & E & Hlen).
  cbn [OpenTSDBWorker.worker]. rewrite E.
  replace (len <=? 0) with true by (symmetry; apply Z.leb_le; exact Hlen).
  reflexivity.
Qed.

(** The worker of the OpenTSDB parser,
    which reads from the receive buffer through 32-bit positions, handles
    the complete lines that are unread one after the other, as
    [handle_lines] does on the list of lines: each line is laid over what
    the array holds, whatever the stack held in it at the start and as the
    lines before have left it; a [put] line goes through the [put] handler,
    whose texts for the C library run on into the bytes behind the line,
    and is consumed when its sample is written; a line of another known
    command is skipped or answered, and an unknown command or a [put] that
    fails ends the call with the error. When every line has been handled
    the worker returns an unset response and leaves exactly the incomplete
    last line unread. It needs one round of its loop per line and one
    more. *)
Theorem worker_handles_lines
  (lines : list (list byte)) (partial : list byte) (fuel : nat) (rb : ReadBuffer)
  (buffer : list byte) (d : db) :
  well_formed rb -> buffers_allocated_ rb = 0 ->
  Z.of_nat (length (buffer_ rb)) < 2 ^ 31 ->
  0 <= buffer_len < 2 ^ 32 ->
  unread rb = concat lines ++ partial ->
  Forall (fun line => is_line line = true /\ Z.of_nat (length line) <= buffer_len) lines ->
  ~ In ReadBuffer.LF (take (Z.to_nat buffer_len) partial) ->
  (length lines < fuel)%nat ->
  match handle_lines lines buffer d with
  | Handled d' =>
      exists rb', worker fuel rb buffer d = Returned None rb' d' /\ unread rb' = partial
  | Replied body d' => exists rb', worker fuel rb buffer d = Returned (Some body) rb' d'
  | Rejected msg d' => exists rb', worker fuel rb buffer d = throw_parser msg rb' d'
  | Failed status d' => exists rb', worker fuel rb buffer d = DatabaseThrown status rb' d'
  end.
Proof.
  intros Hwf Ha Hs Hq Hun Hlines Hpart Hfuel.
  revert fuel rb buffer d Hwf Ha Hs Hun Hfuel.
  induction Hlines as [| line rest [Hline Hfit] Hrest IH];
    intros fuel rb buffer d Hwf Ha Hs Hun Hfuel.
  - simpl in Hun. destruct fuel as [| fuel]; [simpl in Hfuel; lia |].
    cbn [OpenTSDBWorker.handle_lines]. exists rb. split; [| exact Hun].
    apply worker_waits; try assumption. rewrite Hun. exact Hpart.
  - destruct fuel as [| fuel]; [simpl in Hfuel; lia |]. simpl in Hfuel.
    destruct (is_line_spec line Hline) as (body & Eline & Hno).
    simpl concat in Hun. rewrite <- app_assoc in Hun.
    assert (Hun' : unread rb = body ++ ReadBuffer.LF :: (concat rest ++ partial)).
    { rewrite Hun, Eline, <- app_assoc. reflexivity. }
    pose proof Hwf as (Hc & Hr & Hb & Hs32).
    assert (Hul : Z.of_nat (length (unread rb)) = wpos_ rb - rpos_ rb).
    { unfold unread. apply slice_length; lia. }
    assert (Hll : Z.of_nat (length line) <= wpos_ rb - rpos_ rb).
    { rewrite <- Hul, Hun, length_app. lia. }
    assert (Hpos : 0 < Z.of_nat (length line)).
    { rewrite Eline, length_app. simpl. lia. }
    pose proof (read_line_complete buffer_len rb body (concat rest ++ partial)
                  Hwf Hq Hs Hun' Hno) as E.
    rewrite <- Eline in E. specialize (E Hfit).
    set (rb1 := with_rpos rb (rpos_ rb + Z.of_nat (length line))) in *.
    assert (Hwf1 : well_formed rb1).
    { unfold well_formed, rb1. cbn [with_rpos rpos_ wpos_ cons_ buffer_ BUFFER_SIZE]. lia. }
    assert (Hun1 : unread rb1 = concat rest ++ partial).
    { unfold rb1. rewrite (unread_with_rpos rb _ Hwf) by lia.
      rewrite Nat2Z.id, Hun. apply drop_app_length. }
    cbn [OpenTSDBWorker.worker OpenTSDBWorker.handle_lines]. rewrite E.
    replace (Z.of_nat (length line) <=? 0) with false by (symmetry; apply Z.leb_gt; lia).
    rewrite Nat2Z.id.
    set (buffer1 := line ++ drop (length line) buffer).
    destruct (message_dispatch buffer1 (Z.of_nat (length line)));
      try (apply (IH fuel rb1 buffer1 d Hwf1 Ha Hs Hun1); lia);
      try (exists rb1; reflexivity).
    destruct (put series_to_param_id parse_timestamp strtod write PAYLOAD_FLOAT buffer1
                (length line) sample d) as [msg d1 | status d1 | written d1].
    + exists rb1. reflexivity.
    + exists rb1. reflexivity.
    + unfold consume. replace (buffers_allocated_ rb1) with 0 by (symmetry; exact Ha).
      simpl negb. cbv iota.
      apply IH.
      * unfold well_formed, rb1.
        cbn [with_rpos rpos_ wpos_ cons_ buffer_ BUFFER_SIZE]. lia.
      * reflexivity.
      * exact Hs.
      * exact Hun1.
      * lia.
Qed.

(** A line that has no newline within the
    first [buffer_len] bytes is never handled: once that many bytes of it
    are unread, the worker returns an unset response without moving the
    reader or touching the session, and it does so again whatever data
    arrives behind them, a newline included. *)
Theorem long_line_blocks_worker (fuel : nat) (rb rb' : ReadBuffer) (more : list byte)
    (buffer : list byte) (d : db) :
  0 <= buffer_len < 2 ^ 32 ->
  buffer_len <= Z.of_nat (length (unread rb)) ->
  ~ In ReadBuffer.LF (take (Z.to_nat buffer_len) (unread rb)) ->
  well_formed rb' -> Z.of_nat (length (buffer_ rb')) < 2 ^ 31 ->
  unread rb' = unread rb ++ more ->
  worker (S fuel) rb' buffer d = Returned None rb' d.
Proof.
  intros Hq Hlong Hno Hwf Hs Hun.
  apply worker_waits; try assumption.
  rewrite Hun, take_app_le by lia. exact Hno.
Qed.

End OpenTSDBWorkerFacts.

Lemma worker_handles_lines_witness :
  match OpenTSDBWorker.handle_lines SessionFixtures.name_to_id OpenTSDB.reject_all
          SessionFixtures.strtod_digits SessionFixtures.keep Fixtures.P_FLOAT
          SessionFixtures.blank_sample
          [SessionFixtures.cpu_line; WorkerFixtures.help_line]
          WorkerFixtures.stale_array [] with
  | OpenTSDBWorker.Handled d' =>
      exists rb',
        OpenTSDBWorker.worker SessionFixtures.name_to_id OpenTSDB.reject_all
          SessionFixtures.strtod_digits SessionFixtures.keep Fixtures.P_FLOAT 4096
          SessionFixtures.blank_sample 3 WorkerFixtures.connection_reader
          WorkerFixtures.stale_array []
        = OpenTSDBWorker.Returned None rb' d'
        /\ ReadBuffer.unread rb' = list_byte_of_string "put cp"
  | OpenTSDBWorker.Replied body d' =>
      exists rb',
        OpenTSDBWorker.worker SessionFixtures.name_to_id OpenTSDB.reject_all
          SessionFixtures.strtod_digits SessionFixtures.keep Fixtures.P_FLOAT 4096
          SessionFixtures.blank_sample 3 WorkerFixtures.connection_reader
          WorkerFixtures.stale_array []
        = OpenTSDBWorker.Returned (Some body) rb' d'
  | OpenTSDBWorker.Rejected msg d' =>
      exists rb',
        OpenTSDBWorker.worker SessionFixtures.name_to_id OpenTSDB.reject_all
          SessionFixtures.strtod_digits SessionFixtures.keep Fixtures.P_FLOAT 4096
          SessionFixtures.blank_sample 3 WorkerFixtures.connection_reader
          WorkerFixtures.stale_array []
        = OpenTSDBWorker.throw_parser msg rb' d'
  | OpenTSDBWorker.Failed status d' =>
      exists rb',
        OpenTSDBWorker.worker SessionFixtures.name_to_id OpenTSDB.reject_all
          SessionFixtures.strtod_digits SessionFixtures.keep Fixtures.P_FLOAT 4096
          SessionFixtures.blank_sample 3 WorkerFixtures.connection_reader
          WorkerFixtures.stale_array []
        = OpenTSDBWorker.DatabaseThrown status rb' d'
  end.
Proof.
  apply (worker_handles_lines SessionFixtures.name_to_id OpenTSDB.reject_all
           SessionFixtures.strtod_digits SessionFixtures.keep Fixtures.P_FLOAT 4096
           SessionFixtures.blank_sample
           [SessionFixtures.cpu_line; WorkerFixtures.help_line]
           (list_byte_of_string "put cp") 3 WorkerFixtures.connection_reader
           WorkerFixtures.stale_array []).
  - unfold ReadBuffer.well_formed. simpl. lia.
  - reflexivity.
  - simpl. lia.
  - unfold OpenTSDBWorker.buffer_len. lia.
  - reflexivity.
  - repeat constructor; unfold OpenTSDBWorker.buffer_len; simpl; lia.
  - simpl. intuition discriminate.
  - simpl. lia.
Defined.

Lemma long_line_blocks_worker_witness :
  OpenTSDBWorker.worker SessionFixtures.name_to_id OpenTSDB.reject_all
    SessionFixtures.strtod_digits SessionFixtures.keep Fixtures.P_FLOAT 0
    SessionFixtures.blank_sample 1 WorkerFixtures.long_reader_fed
    WorkerFixtures.stale_array []
  = OpenTSDBWorker.Returned None WorkerFixtures.long_reader_fed [].
Proof.
  apply (long_line_blocks_worker SessionFixtures.name_to_id OpenTSDB.reject_all
           SessionFixtures.strtod_digits SessionFixtures.keep Fixtures.P_FLOAT 0
           SessionFixtures.blank_sample 0 WorkerFixtures.long_reader
           WorkerFixtures.long_reader_fed [ReadBuffer.LF] WorkerFixtures.stale_array []).
  - unfold OpenTSDBWorker.buffer_len. lia.
  - unfold OpenTSDBWorker.buffer_len. simpl. lia.
  - simpl. intuition discriminate.
  - unfold ReadBuffer.well_formed. simpl. lia.
  - simpl. lia.
  - reflexivity.
Defined.

(** What the array holds behind a line reaches the C library: the
    timestamp of [put cpu now 3 host=a] is no number, so
    [Utility::parse_timestamp] is given the C string that starts at it, and
    that string ends at the first zero byte of the array, not at the end of
    the line: 6 bytes in an array of zeros, 45 in one that holds other
    bytes. *)
Example array_behind_line_reaches_parse_timestamp :
  WorkerFixtures.now_timestamps (repeat x00 61) = Some [6]
  /\ WorkerFixtures.now_timestamps WorkerFixtures.stale_array = Some [45].
Proof. split; vm_compute; reflexivity. Qed.

(** ** From the RESP parser to the column store *)

Section RowFacts.

Import ColumnStore RESPWorker.

Context {T : Type} {tree_ops : NBTreeExtentsList T}.
Variables PAYLOAD_FLOAT PAYLOAD_EVENT sizeof_Sample : Z.
Variable evt : Sample.

(** The samples the RESP worker builds for
    the columns of a row fit [ColumnStore::write]: for a column with a
    positive id the numeric append gets the row's timestamp and the value;
    for any other column the blob append gets the row's timestamp, the
    event's bytes and their number, which the store recovers from the
    16-bit size the worker has stored, as long as the event and the sample
    header together stay below 65536 bytes. *)
Theorem row_samples_reach_tree
  (sample : Sample) (id : ParamId) (value : float) (event : list byte)
  rp cache cs (h : gmap loc T) l tree :
  PAYLOAD_FLOAT <> PAYLOAD_EVENT ->
  0 <= sizeof_Sample ->
  Z.of_nat (length event) + sizeof_Sample < 2 ^ 16 ->
  columns_ cs !! id = Some l ->
  h !! l = Some tree ->
  let numeric := value_sample (row_sample PAYLOAD_FLOAT sizeof_Sample sample) id value in
  let blob := event_sample PAYLOAD_EVENT sizeof_Sample evt
                (row_sample PAYLOAD_FLOAT sizeof_Sample sample) id event in
  (exists r,
     write PAYLOAD_FLOAT PAYLOAD_EVENT sizeof_Sample numeric rp cache cs h = Some r
     /\ wr_result r = fst (append (timestamp sample) value tree)
     /\ wr_heap r = <[l := snd (append (timestamp sample) value tree)]> h)
  /\ (exists r,
        write PAYLOAD_FLOAT PAYLOAD_EVENT sizeof_Sample blob rp cache cs h = Some r
        /\ wr_result r
           = fst (append_event (timestamp sample) event (Z.of_nat (length event)) tree)
        /\ wr_heap r
           = <[l := snd (append_event (timestamp sample) event
                           (Z.of_nat (length event)) tree)]> h).
Proof.
  intros Hty Hsz Hfit Hcol Htree numeric blob. split.
  - rewrite (write_found PAYLOAD_FLOAT PAYLOAD_EVENT sizeof_Sample numeric rp cache cs h l tree)
      by assumption.
    eexists. split; [reflexivity |].
    rewrite write_dispatch_float by reflexivity. split; reflexivity.
  - rewrite (write_found PAYLOAD_FLOAT PAYLOAD_EVENT sizeof_Sample blob rp cache cs h l tree)
      by assumption.
    eexists. split; [reflexivity |].
    rewrite write_dispatch_event; [| simpl; congruence | reflexivity].
    assert (Hes : event_size sizeof_Sample blob = Z.of_nat (length event)).
    { unfold event_size, blob, event_sample, u16. cbn [payload size].
      rewrite (Z.mod_small (Z.of_nat (length event) + sizeof_Sample)) by lia.
      replace (Z.of_nat (length event) + sizeof_Sample - sizeof_Sample)
        with (Z.of_nat (length event)) by lia.
      unfold u64, u32.
      rewrite (Z.mod_small (Z.of_nat (length event)) (2 ^ 64)) by lia.
      apply Z.mod_small. lia. }
    rewrite Hes. split; reflexivity.
Qed.

End RowFacts.

Lemma row_samples_reach_tree_witness :
  let numeric :=
    RESPWorker.value_sample
      (RESPWorker.row_sample Fixtures.P_FLOAT Fixtures.SIZEOF_SAMPLE SessionFixtures.blank_sample)
      42 1%float in
  let blob :=
    RESPWorker.event_sample Fixtures.P_EVENT Fixtures.SIZEOF_SAMPLE SessionFixtures.blank_sample
      (RESPWorker.row_sample Fixtures.P_FLOAT Fixtures.SIZEOF_SAMPLE SessionFixtures.blank_sample)
      42 Fixtures.boom in
  (exists r,
     Fixtures.fixture_write numeric [] None Fixtures.cs42 Fixtures.heap42 = Some r
     /\ ColumnStore.wr_result r
        = fst (append (NBTreeExtentsList := Fixtures.small_tree)
                 (timestamp SessionFixtures.blank_sample) 1%float Fixtures.tree42)
     /\ ColumnStore.wr_heap r
        = <[Fixtures.loc42 := snd (append (NBTreeExtentsList := Fixtures.small_tree)
                                     (timestamp SessionFixtures.blank_sample) 1%float
                                     Fixtures.tree42)]> Fixtures.heap42)
  /\ (exists r,
        Fixtures.fixture_write blob [] None Fixtures.cs42 Fixtures.heap42 = Some r
        /\ ColumnStore.wr_result r
           = fst (append_event (NBTreeExtentsList := Fixtures.small_tree)
                    (timestamp SessionFixtures.blank_sample) Fixtures.boom
                    (Z.of_nat (length Fixtures.boom)) Fixtures.tree42)
        /\ ColumnStore.wr_heap r
           = <[Fixtures.loc42 := snd (append_event (NBTreeExtentsList := Fixtures.small_tree)
                                        (timestamp SessionFixtures.blank_sample)
                                        Fixtures.boom (Z.of_nat (length Fixtures.boom))
                                        Fixtures.tree42)]> Fixtures.heap42).
Proof.
  apply (row_samples_reach_tree (tree_ops := Fixtures.small_tree)
           Fixtures.P_FLOAT Fixtures.P_EVENT Fixtures.SIZEOF_SAMPLE
           SessionFixtures.blank_sample SessionFixtures.blank_sample 42 1%float Fixtures.boom
           [] None Fixtures.cs42 Fixtures.heap42 Fixtures.loc42 Fixtures.tree42).
  - discriminate.
  - unfold Fixtures.SIZEOF_SAMPLE. lia.
  - unfold Fixtures.SIZEOF_SAMPLE. simpl. lia.
  - reflexivity.
  - reflexivity.
Defined.

(** ** Opening and closing columns *)

Section LifecycleFacts.

Import ColumnStore ColumnStoreLifecycle.

Context {T : Type} {tree_ops : NBTreeExtentsList T} {lifecycle : NBTreeLifecycle T}.
Variables PAYLOAD_FLOAT PAYLOAD_EVENT sizeof_Sample : Z.

Lemma store_ok_heap (cs : ColumnStore) (h h' : gmap loc T) :
  (forall l, is_Some (h !! l) -> is_Some (h' !! l)) ->
  store_ok cs h -> store_ok cs h'.
Proof.
  intros Hh [Halive Hinj]. split; [| exact Hinj].
  intros id l Hcol. apply Hh. exact (Halive id l Hcol).
Qed.

Lemma store_ok_insert (cs : ColumnStore) (h : gmap loc T) (l : loc) (t : T) :
  store_ok cs h -> store_ok cs (<[l := t]> h).
Proof.
  apply store_ok_heap. intros l' Hl'.
  destruct (decide (l = l')) as [-> | Hne].
  - rewrite lookup_insert_eq. eauto.
  - rewrite lookup_insert_ne by exact Hne. exact Hl'.
Qed.

Lemma store_ok_add (cs : ColumnStore) (h : gmap loc T) (id : ParamId) (t : T)
    (rp : gmap ParamId (list LogicAddr)) :
  store_ok cs h ->
  store_ok {| columns_ := <[id := fresh (dom h)]> (columns_ cs); rescue_points_ := rp |}
           (<[fresh (dom h) := t]> h).
Proof.
  intros [Halive Hinj].
  assert (Hfresh : h !! fresh (dom h) = None).
  { apply not_elem_of_dom. apply is_fresh. }
  split; cbn [columns_].
  - intros id' l Hcol. destruct (decide (id = id')) as [-> | Hne].
    + rewrite lookup_insert_eq in Hcol. injection Hcol as <-.
      rewrite lookup_insert_eq. eauto.
    + rewrite lookup_insert_ne in Hcol by exact Hne.
      destruct (Halive id' l Hcol) as [t' Ht'].
      rewrite lookup_insert_ne by (intros <-; congruence). eauto.
  - intros id1 id2 l H1 H2.
    destruct (decide (id = id1)) as [E1 | N1], (decide (id = id2)) as [E2 | N2].
    + congruence.
    + subst id1. rewrite lookup_insert_eq in H1. injection H1 as <-.
      rewrite lookup_insert_ne in H2 by exact N2.
      destruct (Halive id2 _ H2) as [t' Ht']. congruence.
    + subst id2. rewrite lookup_insert_eq in H2. injection H2 as <-.
      rewrite lookup_insert_ne in H1 by exact N1.
      destruct (Halive id1 _ H1) as [t' Ht']. congruence.
    + rewrite lookup_insert_ne in H1 by exact N1.
      rewrite lookup_insert_ne in H2 by exact N2.
      exact (Hinj id1 id2 l H1 H2).
Qed.

Lemma create_new_column_ok (id : ParamId) (cs : ColumnStore) (h : gmap loc T) :
  store_ok cs h ->
  store_ok (snd (fst (create_new_column id cs h))) (snd (create_new_column id cs h)).
Proof.
  intros Hok. unfold create_new_column.
  destruct (columns_ cs !! id); [exact Hok |].
  unfold make_shared. cbn [fst snd].
  eapply store_ok_heap; [| apply store_ok_add; exact Hok].
  intros l Hl. destruct (decide (l = fresh (dom h))) as [-> | Hne].
  - rewrite lookup_alter_eq. destruct Hl as [t Ht]. rewrite Ht. simpl. eauto.
  - rewrite lookup_alter_ne by congruence. exact Hl.
Qed.

Lemma open_loop_ok (mapping : list (ParamId * list LogicAddr)) (force : bool)
    (ids2recover : list ParamId) (cs : ColumnStore) (h : gmap loc T) :
  store_ok cs h ->
  store_ok (snd (fst (open_loop mapping force ids2recover cs h)))
           (snd (open_loop mapping force ids2recover cs h)).
Proof.
  revert ids2recover cs h.
  induction mapping as [| [id rescue_points] rest IH]; intros ids2recover cs h Hok.
  - exact Hok.
  - cbn [open_loop]. destruct (columns_ cs !! id); [exact Hok |].
    destruct (opened_tree id rescue_points force) as [tree rplist].
    unfold make_shared. apply IH. apply store_ok_add. exact Hok.
Qed.

Lemma close_ids_ok (ids : list ParamId) (result : gmap ParamId (list LogicAddr))
    (cs : ColumnStore) (h : gmap loc T) :
  store_ok cs h ->
  exists result' h', close_ids ids result cs h = Some (result', h') /\ store_ok cs h'.
Proof.
  revert result h. induction ids as [| id rest IH]; intros result h Hok.
  - exists result, h. split; [reflexivity | exact Hok].
  - cbn [close_ids]. destruct (columns_ cs !! id) as [l |] eqn:Hcol.
    + destruct (proj1 Hok id l Hcol) as [tree Htree]. rewrite Htree. simpl.
      destruct (is_initialized tree).
      * destruct (close tree) as [addrlist tree1].
        apply IH. apply store_ok_insert. exact Hok.
      * apply IH. exact Hok.
    + apply IH. exact Hok.
Qed.

(** The table of a column store only
    holds live trees, each under one id: this holds of the empty store, and
    [create_new_column], [open_or_restore], [write], [recovery_write] and
    [close(ids)] keep it. On such a store [write], [recovery_write] and
    [close(ids)] always return: the dangling pointer the embedding provides
    for is never met. *)
Theorem store_stays_ok (cs : ColumnStore) (h : gmap loc T) :
  store_ok cs h ->
  (forall id,
      store_ok (snd (fst (create_new_column id cs h))) (snd (create_new_column id cs h)))
  /\ (forall mapping force,
        store_ok (snd (fst (open_or_restore mapping force cs h)))
                 (snd (open_or_restore mapping force cs h)))
  /\ (forall sample rp cache,
        exists r, write PAYLOAD_FLOAT PAYLOAD_EVENT sizeof_Sample sample rp cache cs h = Some r
                  /\ store_ok cs (wr_heap r))
  /\ (forall sample allow,
        exists res h', recovery_write sample allow cs h = Some (res, h') /\ store_ok cs h')
  /\ (forall ids result,
        exists result' h', close_ids ids result cs h = Some (result', h') /\ store_ok cs h').
Proof.
  intros Hok. repeat split.
  - apply (proj1 (create_new_column_ok id cs h Hok)).
  - apply (proj2 (create_new_column_ok id cs h Hok)).
  - apply (proj1 (open_loop_ok mapping force [] cs h Hok)).
  - apply (proj2 (open_loop_ok mapping force [] cs h Hok)).
  - intros sample rp cache.
    destruct (columns_ cs !! paramid sample) as [l |] eqn:Hcol.
    + destruct (proj1 Hok _ l Hcol) as [tree Htree].
      rewrite (write_found PAYLOAD_FLOAT PAYLOAD_EVENT sizeof_Sample sample rp cache cs h l tree)
        by assumption.
      eexists. split; [reflexivity |]. cbn [wr_heap].
      apply store_ok_insert. exact Hok.
    + unfold write. rewrite Hcol. eexists. split; [reflexivity | exact Hok].
  - intros sample allow.
    destruct (columns_ cs !! paramid sample) as [l |] eqn:Hcol.
    + destruct (proj1 Hok _ l Hcol) as [tree Htree].
      rewrite (recovery_write_found sample allow cs h l tree) by assumption.
      eexists _, _. split; [reflexivity |]. apply store_ok_insert. exact Hok.
    + unfold recovery_write. rewrite Hcol. eexists _, _. split; [reflexivity | exact Hok].
  - intros ids result. apply close_ids_ok. exact Hok.
Qed.

Lemma open_loop_app (pre rest : list (ParamId * list LogicAddr)) (force : bool)
    (acc : list ParamId) (cs : ColumnStore) (h : gmap loc T) :
  open_loop (pre ++ rest) force acc cs h
  = match open_loop pre force acc cs h with
    | (Ok, acc', cs', h') => open_loop rest force acc' cs' h'
    | r => r
    end.
Proof.
  revert acc cs h. induction pre as [| [id rp] pre IH]; intros acc cs h.
  - reflexivity.
  - cbn [app open_loop]. destruct (columns_ cs !! id); [reflexivity |].
    destruct (opened_tree id rp force) as [tree rplist].
    unfold make_shared. apply IH.
Qed.

(** What the loop does with entries whose ids are new and differ from each
    other. *)
Lemma open_loop_fresh (mapping : list (ParamId * list LogicAddr)) (force : bool)
    (acc : list ParamId) (cs : ColumnStore) (h : gmap loc T) :
  NoDup (map fst mapping) ->
  (forall id, id ∈ map fst mapping -> columns_ cs !! id = None) ->
  exists cs' h',
    open_loop mapping force acc cs h
    = (Ok, acc ++ map fst (List.filter (fun p => needs_repair (snd p)) mapping), cs', h')
    /\ (forall id rp, (id, rp) ∈ mapping ->
          exists l, columns_ cs' !! id = Some l
                    /\ h !! l = None
                    /\ h' !! l = Some (fst (opened_tree id rp force))
                    /\ rescue_points_ cs' !! id
                       = match snd (opened_tree id rp force) with
                         | Some r => Some r
                         | None => rescue_points_ cs !! id
                         end)
    /\ (forall id, id ∉ map fst mapping ->
          columns_ cs' !! id = columns_ cs !! id
          /\ rescue_points_ cs' !! id = rescue_points_ cs !! id)
    /\ (forall l, is_Some (h !! l) -> h' !! l = h !! l).
Proof.
  revert acc cs h. induction mapping as [| [id rp] rest IH]; intros acc cs h Hnd Hnew.
  - exists cs, h. cbn. rewrite app_nil_r. repeat split.
    intros id rp Hin. inversion Hin.
  - cbn [map fst] in Hnd, Hnew. apply list.NoDup_cons in Hnd. destruct Hnd as [Hnotin Hnd].
    cbn [open_loop]. rewrite (Hnew id) by (left).
    destruct (opened_tree id rp force) as [tree rplist] eqn:Eopen.
    unfold make_shared.
    set (l := fresh (dom h)).
    assert (Hfresh : h !! l = None) by (apply not_elem_of_dom, is_fresh).
    set (cs1 := {| columns_ := <[id := l]> (columns_ cs);
                   rescue_points_ := match rplist with
                                     | Some r => <[id := r]> (rescue_points_ cs)
                                     | None => rescue_points_ cs
                                     end |}).
    destruct (IH (if needs_repair rp then acc ++ [id] else acc) cs1 (<[l := tree]> h) Hnd)
      as (cs' & h' & E & Hent & Hother & Hheap).
    { intros id' Hin. unfold cs1. cbn [columns_].
      rewrite lookup_insert_ne by (intros <-; contradiction).
      apply Hnew. right. exact Hin. }
    exists cs', h'. split; [| split; [| split]].
    + rewrite E. f_equal. f_equal. f_equal. cbn [List.filter snd].
      destruct (needs_repair rp); cbn [map fst]; rewrite <- ?app_assoc; reflexivity.
    + intros id' rp' Hin. apply elem_of_cons in Hin. destruct Hin as [Heq | Hin].
      * injection Heq as -> ->.
        destruct (Hother id Hnotin) as [Hc Hr].
        exists l. rewrite Hc, Hr. unfold cs1. cbn [columns_ rescue_points_].
        rewrite lookup_insert_eq. split; [reflexivity |]. split; [exact Hfresh |].
        rewrite Eopen. cbn [fst snd]. split.
        -- rewrite Hheap by (rewrite lookup_insert_eq; eauto).
           apply lookup_insert_eq.
        -- destruct rplist; [apply lookup_insert_eq | reflexivity].
      * destruct (Hent id' rp' Hin) as (l' & Hc & Hn & Hh & Hr).
        assert (Hne : id <> id').
        { intros <-. apply Hnotin. apply list_elem_of_In, in_map_iff.
          exists (id, rp'). split; [reflexivity | apply list_elem_of_In; exact Hin]. }
        exists l'. split; [exact Hc |]. split.
        { destruct (decide (l = l')) as [<- | Hl].
          - rewrite lookup_insert_eq in Hn. discriminate.
          - rewrite lookup_insert_ne in Hn by exact Hl. exact Hn. }
        split; [exact Hh |].
        rewrite Hr. unfold cs1. cbn [rescue_points_].
        destruct (snd (opened_tree id' rp' force)); [reflexivity |].
        destruct rplist; [apply lookup_insert_ne; exact Hne | reflexivity].
    + intros id' Hnotin'. cbn [map fst] in Hnotin'.
      apply not_elem_of_cons in Hnotin'. destruct Hnotin' as [Hne Hnotin'].
      destruct (Hother id' Hnotin') as [Hc Hr]. rewrite Hc, Hr.
      unfold cs1. cbn [columns_ rescue_points_]. split.
      * apply lookup_insert_ne. congruence.
      * destruct rplist; [apply lookup_insert_ne; congruence | reflexivity].
    + intros l' Hl'. rewrite Hheap.
      * apply lookup_insert_ne. intros <-. rewrite Hfresh in Hl'. destruct Hl'; discriminate.
      * destruct (decide (l = l')) as [<- | Hl].
        -- rewrite lookup_insert_eq. eauto.
        -- rewrite lookup_insert_ne by exact Hl. exact Hl'.
Qed.

(** Given a mapping whose ids have no
    column yet, [open_or_restore] returns Ok and the ids whose rescue points
    ask for a repair, in the order of the iteration. Every id of the mapping
    gets a column with a tree of its own, made from its rescue points: left
    uninitialized when neither a repair is needed nor initialization is
    forced, initialized when it is forced, and initialized and closed
    again, with the rescue points of that closing recorded, after a repair
    that was not forced. Other columns, their rescue points and their trees
    are not touched. *)
Theorem open_or_restore_opens_every_id
    (mapping : list (ParamId * list LogicAddr)) (force : bool)
    (cs : ColumnStore) (h : gmap loc T) :
  NoDup (map fst mapping) ->
  (forall id, id ∈ map fst mapping -> columns_ cs !! id = None) ->
  exists cs' h',
    open_or_restore mapping force cs h
    = (Ok, map fst (List.filter (fun p => needs_repair (snd p)) mapping), cs', h')
    /\ (forall id rp, (id, rp) ∈ mapping ->
          exists l, columns_ cs' !! id = Some l
                    /\ h !! l = None
                    /\ h' !! l = Some (fst (opened_tree id rp force))
                    /\ rescue_points_ cs' !! id
                       = match snd (opened_tree id rp force) with
                         | Some r => Some r
                         | None => rescue_points_ cs !! id
                         end)
    /\ (forall id, id ∉ map fst mapping ->
          columns_ cs' !! id = columns_ cs !! id
          /\ rescue_points_ cs' !! id = rescue_points_ cs !! id)
    /\ (forall l, is_Some (h !! l) -> h' !! l = h !! l).
Proof.
  intros Hnd Hnew. exact (open_loop_fresh mapping force [] cs h Hnd Hnew).
Qed.

(** When the iteration of
    [open_or_restore] comes to an id that has a column already, the call
    returns BadArg and an empty list of ids, whatever repairs it has met;
    the columns it has created for the entries before that one stay in the
    table, and the entries after it are not looked at. *)
Theorem open_or_restore_bad_arg_keeps_earlier
    (before after : list (ParamId * list LogicAddr)) (id : ParamId)
    (rp : list LogicAddr) (force : bool) (cs : ColumnStore) (h : gmap loc T) :
  NoDup (map fst before) ->
  (forall id', id' ∈ map fst before -> columns_ cs !! id' = None) ->
  is_Some (columns_ cs !! id) ->
  exists cs' h',
    open_or_restore (before ++ (id, rp) :: after) force cs h = (BadArg, [], cs', h')
    /\ (forall id' rp', (id', rp') ∈ before ->
          exists l, columns_ cs' !! id' = Some l
                    /\ h' !! l = Some (fst (opened_tree id' rp' force)))
    /\ (forall id', id' ∉ map fst before -> columns_ cs' !! id' = columns_ cs !! id').
Proof.
  intros Hnd Hnew [l0 Hcol].
  destruct (open_loop_fresh before force [] cs h Hnd Hnew)
    as (cs' & h' & E & Hent & Hother & Hheap).
  exists cs', h'. unfold open_or_restore. rewrite open_loop_app, E.
  assert (Hid : id ∉ map fst before).
  { intros Hin. rewrite (Hnew id Hin) in Hcol. discriminate. }
  cbn [open_loop]. rewrite (proj1 (Hother id Hid)), Hcol.
  split; [reflexivity |]. split.
  - intros id' rp' Hin. destruct (Hent id' rp' Hin) as (l & Hc & _ & Hh & _).
    exists l. split; assumption.
  - intros id' Hnotin. apply (Hother id' Hnotin).
Qed.

Lemma tree_of_insert_other (cs : ColumnStore) (h : gmap loc T) (id0 id : ParamId)
    (l : loc) (t : T) :
  store_ok cs h -> columns_ cs !! id0 = Some l -> id <> id0 ->
  tree_of cs (<[l := t]> h) id = tree_of cs h id.
Proof.
  intros [_ Hinj] Hcol Hne. unfold tree_of.
  destruct (columns_ cs !! id) as [l' |] eqn:Hcol'; [| reflexivity]. simpl.
  apply lookup_insert_ne. intros <-. apply Hne. exact (Hinj id id0 l Hcol' Hcol).
Qed.

Lemma close_ids_result (ids : list ParamId) (result : gmap ParamId (list LogicAddr))
    (cs : ColumnStore) (h : gmap loc T) :
  store_ok cs h -> NoDup ids ->
  exists result' h',
    close_ids ids result cs h = Some (result', h')
    /\ (forall id,
          result' !! id
          = match tree_of cs h id with
            | Some tree =>
                if bool_decide (id ∈ ids) && is_initialized tree
                then Some (fst (close tree)) else result !! id
            | None => result !! id
            end)
    /\ (forall id,
          tree_of cs h' id
          = match tree_of cs h id with
            | Some tree =>
                Some (if bool_decide (id ∈ ids) && is_initialized tree
                      then snd (close tree) else tree)
            | None => None
            end).
Proof.
  intros Hok Hnd. revert result h Hok.
  induction Hnd as [| id0 rest Hnotin Hnd IH]; intros result h Hok.
  - exists result, h. split; [reflexivity |]. split; intros id.
    + destruct (tree_of cs h id); reflexivity.
    + destruct (tree_of cs h id); reflexivity.
  - assert (Hhere : forall id, id <> id0 ->
              bool_decide (id ∈ id0 :: rest) = bool_decide (id ∈ rest)).
    { intros id Hne. apply bool_decide_ext. rewrite elem_of_cons. tauto. }
    assert (Hid0 : bool_decide (id0 ∈ id0 :: rest) = true).
    { apply bool_decide_eq_true_2. left. }
    assert (Hrest0 : bool_decide (id0 ∈ rest) = false).
    { apply bool_decide_eq_false_2. exact Hnotin. }
    cbn [close_ids]. destruct (columns_ cs !! id0) as [l |] eqn:Hcol.
    + destruct (proj1 Hok id0 l Hcol) as [tree Htree]. rewrite Htree. simpl.
      assert (Htree0 : tree_of cs h id0 = Some tree).
      { unfold tree_of. rewrite Hcol. exact Htree. }
      destruct (is_initialized tree) eqn:Einit.
      * destruct (close tree) as [addrlist tree1] eqn:Eclose.
        destruct (IH (<[id0 := addrlist]> result) (<[l := tree1]> h))
          as (result' & h' & E & Hres & Htrees).
        { apply store_ok_insert. exact Hok. }
        assert (Htree1 : tree_of cs (<[l := tree1]> h) id0 = Some tree1).
        { unfold tree_of. rewrite Hcol. simpl. apply lookup_insert_eq. }
        exists result', h'. split; [exact E |]. split; intros id.
        -- rewrite Hres. destruct (decide (id = id0)) as [-> | Hne].
           ++ rewrite Htree1, Htree0, Hrest0, Hid0, Einit, Eclose. simpl.
              apply lookup_insert_eq.
           ++ rewrite (tree_of_insert_other cs h id0 id l tree1 Hok Hcol Hne).
              rewrite (Hhere id Hne), lookup_insert_ne by congruence. reflexivity.
        -- rewrite Htrees. destruct (decide (id = id0)) as [-> | Hne].
           ++ rewrite Htree1, Htree0, Hrest0, Hid0, Einit, Eclose. reflexivity.
           ++ rewrite (tree_of_insert_other cs h id0 id l tree1 Hok Hcol Hne).
              rewrite (Hhere id Hne). reflexivity.
      * destruct (IH result h Hok) as (result' & h' & E & Hres & Htrees).
        exists result', h'. split; [exact E |]. split; intros id.
        -- rewrite Hres. destruct (decide (id = id0)) as [-> | Hne].
           ++ rewrite Htree0, Einit, !andb_false_r. reflexivity.
           ++ rewrite (Hhere id Hne). reflexivity.
        -- rewrite Htrees. destruct (decide (id = id0)) as [-> | Hne].
           ++ rewrite Htree0, Einit, !andb_false_r. reflexivity.
           ++ rewrite (Hhere id Hne). reflexivity.
    + assert (Htree0 : tree_of cs h id0 = None).
      { unfold tree_of. rewrite Hcol. reflexivity. }
      destruct (IH result h Hok) as (result' & h' & E & Hres & Htrees).
      exists result', h'. split; [exact E |]. split; intros id.
      * rewrite Hres. destruct (decide (id = id0)) as [-> | Hne].
        -- rewrite Htree0. reflexivity.
        -- rewrite (Hhere id Hne). reflexivity.
      * rewrite Htrees. destruct (decide (id = id0)) as [-> | Hne].
        -- rewrite Htree0. reflexivity.
        -- rewrite (Hhere id Hne). reflexivity.
Qed.

(** [ColumnStore::close(ids)] closes the
    columns named that exist and are initialized, and only those: the map
    it returns has the rescue points of the closing for each of them and no
    other entry, so an id without a column and a column that has not been
    initialized are passed over; the trees of the columns closed are as
    [close] leaves them, and every other column keeps its tree. *)
Theorem close_ids_closes_initialized
    (ids : list ParamId) (cs : ColumnStore) (h : gmap loc T) :
  store_ok cs h -> NoDup ids ->
  exists result h',
    close_ids ids ∅ cs h = Some (result, h')
    /\ (forall id,
          result !! id
          = match tree_of cs h id with
            | Some tree =>
                if bool_decide (id ∈ ids) && is_initialized tree
                then Some (fst (close tree)) else None
            | None => None
            end)
    /\ (forall id,
          tree_of cs h' id
          = match tree_of cs h id with
            | Some tree =>
                Some (if bool_decide (id ∈ ids) && is_initialized tree
                      then snd (close tree) else tree)
            | None => None
            end).
Proof.
  intros Hok Hnd.
  destruct (close_ids_result ids ∅ cs h Hok Hnd) as (result & h' & E & Hres & Htrees).
  exists result, h'. split; [exact E |]. split; [| exact Htrees].
  intros id. rewrite Hres, lookup_empty. reflexivity.
Qed.

(** Replaying the creation of a column
    during recovery is idempotent: [recovery_create_new_column] drops the
    status of [create_new_column], so for an id that has a column already,
    as after a first replay, it changes neither the table nor any tree and
    reports nothing. *)
Theorem recovery_create_new_column_idempotent
    (id : ParamId) (cs : ColumnStore) (h : gmap loc T) :
  recovery_create_new_column id
    (fst (recovery_create_new_column id cs h)) (snd (recovery_create_new_column id cs h))
  = recovery_create_new_column id cs h
  /\ is_Some (columns_ (fst (recovery_create_new_column id cs h)) !! id)
  /\ (is_Some (columns_ cs !! id) -> recovery_create_new_column id cs h = (cs, h)).
Proof.
  unfold recovery_create_new_column, create_new_column.
  destruct (columns_ cs !! id) as [l |] eqn:Hcol.
  - cbn [fst snd]. rewrite Hcol. repeat split; eauto.
  - unfold make_shared. cbn [fst snd columns_]. rewrite lookup_insert_eq.
    repeat split; eauto. intros [l Hl]. discriminate.
Qed.

(** [ColumnStore::close()] closes the columns that are initialized, and
    only those: the map it returns has the rescue points of the closing for
    each of them and no entry for a column that has not been initialized,
    whose tree it leaves alone. *)
Theorem close_all_closes_initialized (cs : ColumnStore) (h : gmap loc T) :
  store_ok cs h ->
  exists result h',
    close_all cs h = Some (result, h')
    /\ (forall id,
          result !! id
          = match tree_of cs h id with
            | Some tree =>
                if is_initialized tree then Some (fst (close tree)) else None
            | None => None
            end)
    /\ (forall id,
          tree_of cs h' id
          = match tree_of cs h id with
            | Some tree => Some (if is_initialized tree then snd (close tree) else tree)
            | None => None
            end).
Proof.
  intros Hok. unfold close_all.
  destruct (close_ids_result (map_to_list (columns_ cs)).*1 ∅ cs h Hok
              (NoDup_fst_map_to_list _))
    as (result & h' & E & Hres & Htrees).
  assert (Hin : forall id tree, tree_of cs h id = Some tree ->
            bool_decide (id ∈ (map_to_list (columns_ cs)).*1) = true).
  { intros id tree Htree. apply bool_decide_eq_true_2.
    unfold tree_of in Htree.
    destruct (columns_ cs !! id) as [l |] eqn:Hcol; [| discriminate].
    apply list_elem_of_fmap. exists (id, l). split; [reflexivity |].
    apply elem_of_map_to_list. exact Hcol. }
  exists result, h'. split; [exact E |]. split; intros id.
  - rewrite Hres, lookup_empty.
    destruct (tree_of cs h id) as [tree |] eqn:Htree; [| reflexivity].
    rewrite (Hin id tree Htree). reflexivity.
  - rewrite Htrees.
    destruct (tree_of cs h id) as [tree |] eqn:Htree; [| reflexivity].
    rewrite (Hin id tree Htree). reflexivity.
Qed.

Lemma cache_insert_hit (id : ParamId) (l : loc) (c : gmap ParamId loc) :
  c !! id = Some l -> cache_insert id l c = c.
Proof. intros H. unfold cache_insert. rewrite H. reflexivity. Qed.

Lemma cache_insert_coherent (id : ParamId) (l : loc) (sess : CStoreSession)
    (cs : ColumnStore) :
  coherent sess cs -> columns_ cs !! id = Some l ->
  coherent {| cache_ := cache_insert id l (cache_ sess) |} cs.
Proof.
  intros Hco Hcol id' l' H. cbn [cache_] in H. unfold cache_insert in H.
  destruct (cache_ sess !! id) eqn:E; [exact (Hco id' l' H) |].
  destruct (decide (id = id')) as [<- | Hne].
  - rewrite lookup_insert_eq in H. congruence.
  - rewrite lookup_insert_ne in H by exact Hne. exact (Hco id' l' H).
Qed.

(** The cache of a session is transparent. As long as it holds entries of
    the column table only, which is all that [ColumnStore::write] ever puts
    there, [CStoreSession::write] of a numeric or an event sample does what
    [ColumnStore::write] does for the sample, hit or miss: the same status,
    the same rescue points and the same trees; the cache it leaves is the
    one [ColumnStore::write] would leave, and it again holds entries of the
    table only. *)
Theorem session_cache_is_transparent
    (sample : Sample) (rp : list LogicAddr) (sess : CStoreSession)
    (cs : ColumnStore) (h : gmap loc T) :
  coherent sess cs ->
  type (payload sample) = PAYLOAD_FLOAT \/ type (payload sample) = PAYLOAD_EVENT ->
  match write PAYLOAD_FLOAT PAYLOAD_EVENT sizeof_Sample sample rp (Some (cache_ sess)) cs h with
  | Some r =>
      exists sess',
        session_write PAYLOAD_FLOAT PAYLOAD_EVENT sizeof_Sample sample rp sess cs h
        = Some {| sw_result := wr_result r; sw_rescue_points := wr_rescue_points r;
                  sw_session := sess'; sw_heap := wr_heap r |}
        /\ wr_cache r = Some (cache_ sess')
        /\ coherent sess' cs
  | None =>
      session_write PAYLOAD_FLOAT PAYLOAD_EVENT sizeof_Sample sample rp sess cs h = None
  end.
Proof.
  intros Hco Hty.
  assert (Hmiss : cache_ sess !! paramid sample = None ->
            match write PAYLOAD_FLOAT PAYLOAD_EVENT sizeof_Sample sample rp
                    (Some (cache_ sess)) cs h with
            | Some r =>
                exists sess',
                  write_through PAYLOAD_FLOAT PAYLOAD_EVENT sizeof_Sample sample rp sess cs h
                  = Some {| sw_result := wr_result r; sw_rescue_points := wr_rescue_points r;
                            sw_session := sess'; sw_heap := wr_heap r |}
                  /\ wr_cache r = Some (cache_ sess')
                  /\ coherent sess' cs
            | None =>
                write_through PAYLOAD_FLOAT PAYLOAD_EVENT sizeof_Sample sample rp sess cs h
                = None
            end).
  { intros _. unfold write_through.
    destruct (write PAYLOAD_FLOAT PAYLOAD_EVENT sizeof_Sample sample rp
                (Some (cache_ sess)) cs h) as [r |] eqn:Ew; [| reflexivity].
    cbn. eexists. split; [reflexivity |]. cbn [cache_].
    unfold write in Ew.
    destruct (columns_ cs !! paramid sample) as [l |] eqn:Hcol.
    - destruct (h !! l) as [tree |]; [| discriminate]. cbn in Ew.
      destruct (write_dispatch _ _ _ sample tree) as [res tree1].
      injection Ew as <-. cbn. split; [reflexivity |].
      apply cache_insert_coherent; assumption.
    - injection Ew as <-. cbn. split; [reflexivity |]. destruct sess. exact Hco. }
  assert (Hhit : forall l, cache_ sess !! paramid sample = Some l ->
            forall app,
              (forall tree, write_dispatch PAYLOAD_FLOAT PAYLOAD_EVENT sizeof_Sample sample tree
                            = app tree) ->
              match write PAYLOAD_FLOAT PAYLOAD_EVENT sizeof_Sample sample rp
                      (Some (cache_ sess)) cs h with
              | Some r =>
                  exists sess',
                    cached_append app l rp sess h
                    = Some {| sw_result := wr_result r;
                              sw_rescue_points := wr_rescue_points r;
                              sw_session := sess'; sw_heap := wr_heap r |}
                    /\ wr_cache r = Some (cache_ sess')
                    /\ coherent sess' cs
              | None => cached_append app l rp sess h = None
              end).
  { intros l Hc app Happ. unfold write, cached_append.
    rewrite (Hco _ l Hc).
    destruct (h !! l) as [tree |]; [| reflexivity]. cbn.
    rewrite Happ. destruct (app tree) as [res tree1].
    exists sess. cbn. rewrite (cache_insert_hit _ _ _ Hc).
    repeat split. exact Hco. }
  unfold session_write.
  destruct (Z.eqb_spec (type (payload sample)) PAYLOAD_FLOAT) as [Ef | Ef].
  - destruct (cache_ sess !! paramid sample) as [l |] eqn:Hc.
    + apply (Hhit l eq_refl). intros tree. unfold write_dispatch.
      rewrite Ef, Z.eqb_refl. reflexivity.
    + apply Hmiss. reflexivity.
  - destruct Hty as [Hty | Hty]; [contradiction |].
    rewrite Hty, Z.eqb_refl.
    destruct (cache_ sess !! paramid sample) as [l |] eqn:Hc.
    + apply (Hhit l eq_refl). intros tree. unfold write_dispatch.
      destruct (Z.eqb_spec (type (payload sample)) PAYLOAD_FLOAT); [contradiction |].
      rewrite Hty, Z.eqb_refl. reflexivity.
    + apply Hmiss. reflexivity.
Qed.

End LifecycleFacts.

(** ** Examples of opening and closing columns *)

Section LifecycleExamples.

Import ColumnStore ColumnStoreLifecycle Fixtures LifecycleFixtures.

Lemma empty_store_ok : store_ok (T := NBTreeModel.tree) empty_store ∅.
Proof.
  split.
  - intros id l H. cbn in H. rewrite lookup_empty in H. discriminate.
  - intros id1 id2 l H. cbn in H. rewrite lookup_empty in H. discriminate.
Qed.

Lemma store42_ok : store_ok cs42 heap42.
Proof.
  exact (create_new_column_ok (tree_ops := small_tree) 42 empty_store ∅ empty_store_ok).
Qed.

Lemma store_stays_ok_witness :
  (forall id,
      store_ok (snd (fst (create_new_column (tree_ops := small_tree) id cs42 heap42)))
               (snd (create_new_column (tree_ops := small_tree) id cs42 heap42)))
  /\ (forall mapping force,
        store_ok (snd (fst (open_or_restore (tree_ops := small_tree) (lifecycle := stand_in)
                              mapping force cs42 heap42)))
                 (snd (open_or_restore (tree_ops := small_tree) (lifecycle := stand_in)
                         mapping force cs42 heap42)))
  /\ (forall sample rp cache,
        exists r, fixture_write sample rp cache cs42 heap42 = Some r
                  /\ store_ok cs42 (wr_heap r))
  /\ (forall sample allow,
        exists res h',
          recovery_write (tree_ops := small_tree) sample allow cs42 heap42 = Some (res, h')
          /\ store_ok cs42 h')
  /\ (forall ids result,
        exists result' h',
          close_ids (tree_ops := small_tree) (lifecycle := stand_in) ids result cs42 heap42
          = Some (result', h')
          /\ store_ok cs42 h').
Proof.
  exact (store_stays_ok (tree_ops := small_tree) (lifecycle := stand_in)
           P_FLOAT P_EVENT SIZEOF_SAMPLE cs42 heap42 store42_ok).
Defined.

Lemma mapping78_distinct : NoDup (map fst mapping78).
Proof.
  apply NoDup_cons_2; [| apply NoDup_singleton].
  apply not_elem_of_cons. split; [discriminate | apply not_elem_of_nil].
Qed.

Lemma mapping78_new (id : ParamId) :
  id ∈ map fst mapping78 -> columns_ cs42 !! id = None.
Proof.
  intros Hin. apply elem_of_cons in Hin. destruct Hin as [-> | Hin]; [reflexivity |].
  apply list_elem_of_singleton in Hin. subst id. reflexivity.
Qed.

Lemma open_or_restore_opens_every_id_witness :
  exists cs' h',
    open_or_restore (tree_ops := small_tree) (lifecycle := stand_in) mapping78 false
      cs42 heap42
    = (Ok, map fst (List.filter (fun p => needs_repair (NBTreeLifecycle := stand_in) (snd p))
                      mapping78), cs', h')
    /\ (forall id rp, (id, rp) ∈ mapping78 ->
          exists l, columns_ cs' !! id = Some l
                    /\ heap42 !! l = None
                    /\ h' !! l = Some (fst (opened_tree (tree_ops := small_tree)
                                              (lifecycle := stand_in) id rp false))
                    /\ rescue_points_ cs' !! id
                       = match snd (opened_tree (tree_ops := small_tree)
                                      (lifecycle := stand_in) id rp false) with
                         | Some r => Some r
                         | None => rescue_points_ cs42 !! id
                         end)
    /\ (forall id, id ∉ map fst mapping78 ->
          columns_ cs' !! id = columns_ cs42 !! id
          /\ rescue_points_ cs' !! id = rescue_points_ cs42 !! id)
    /\ (forall l, is_Some (heap42 !! l) -> h' !! l = heap42 !! l).
Proof.
  exact (open_or_restore_opens_every_id (tree_ops := small_tree) (lifecycle := stand_in)
           mapping78 false cs42 heap42 mapping78_distinct mapping78_new).
Defined.

Lemma open_or_restore_bad_arg_keeps_earlier_witness :
  exists cs' h',
    open_or_restore (tree_ops := small_tree) (lifecycle := stand_in)
      ([(7, [])] ++ (42, [5]) :: [(8, [5])]) true cs42 heap42
    = (BadArg, [], cs', h')
    /\ (forall id' rp', (id', rp') ∈ [(7, ([] : list LogicAddr))] ->
          exists l, columns_ cs' !! id' = Some l
                    /\ h' !! l = Some (fst (opened_tree (tree_ops := small_tree)
                                              (lifecycle := stand_in) id' rp' true)))
    /\ (forall id', id' ∉ map fst [(7, ([] : list LogicAddr))] ->
          columns_ cs' !! id' = columns_ cs42 !! id').
Proof.
  apply (open_or_restore_bad_arg_keeps_earlier (tree_ops := small_tree)
           (lifecycle := stand_in) [(7, [])] [(8, [5])] 42 [5] true cs42 heap42).
  - apply NoDup_singleton.
  - intros id' Hin. apply list_elem_of_singleton in Hin. subst id'. reflexivity.
  - exists loc42. reflexivity.
Defined.

Lemma close_ids_closes_initialized_witness :
  exists result h',
    close_ids (tree_ops := small_tree) (lifecycle := stand_in) [42; 9] ∅ cs42 heap42
    = Some (result, h')
    /\ (forall id,
          result !! id
          = match tree_of cs42 heap42 id with
            | Some tree =>
                if bool_decide (id ∈ [42; 9])
                   && is_initialized (NBTreeExtentsList := small_tree) tree
                then Some (fst (close (NBTreeLifecycle := stand_in) tree)) else None
            | None => None
            end)
    /\ (forall id,
          tree_of cs42 h' id
          = match tree_of cs42 heap42 id with
            | Some tree =>
                Some (if bool_decide (id ∈ [42; 9])
                         && is_initialized (NBTreeExtentsList := small_tree) tree
                      then snd (close (NBTreeLifecycle := stand_in) tree) else tree)
            | None => None
            end).
Proof.
  apply (close_ids_closes_initialized (tree_ops := small_tree) (lifecycle := stand_in)
           [42; 9] cs42 heap42 store42_ok).
  apply NoDup_cons_2; [| apply NoDup_singleton].
  apply not_elem_of_cons. split; [discriminate | apply not_elem_of_nil].
Defined.

Lemma recovery_create_new_column_idempotent_witness :
  recovery_create_new_column (tree_ops := small_tree) 42
    (fst (recovery_create_new_column (tree_ops := small_tree) 42 cs42 heap42))
    (snd (recovery_create_new_column (tree_ops := small_tree) 42 cs42 heap42))
  = recovery_create_new_column (tree_ops := small_tree) 42 cs42 heap42
  /\ is_Some (columns_ (fst (recovery_create_new_column (tree_ops := small_tree) 42
                               cs42 heap42)) !! 42)
  /\ recovery_create_new_column (tree_ops := small_tree) 42 cs42 heap42 = (cs42, heap42).
Proof.
  destruct (recovery_create_new_column_idempotent (tree_ops := small_tree) 42 cs42 heap42)
    as (H1 & H2 & H3).
  split; [exact H1 |]. split; [exact H2 |].
  apply H3. exists loc42. reflexivity.
Defined.

Lemma close_all_closes_initialized_witness :
  exists result h',
    close_all (tree_ops := small_tree) (lifecycle := stand_in) cs42 heap42
    = Some (result, h')
    /\ (forall id,
          result !! id
          = match tree_of cs42 heap42 id with
            | Some tree =>
                if is_initialized (NBTreeExtentsList := small_tree) tree
                then Some (fst (close (NBTreeLifecycle := stand_in) tree)) else None
            | None => None
            end)
    /\ (forall id,
          tree_of cs42 h' id
          = match tree_of cs42 heap42 id with
            | Some tree =>
                Some (if is_initialized (NBTreeExtentsList := small_tree) tree
                      then snd (close (NBTreeLifecycle := stand_in) tree) else tree)
            | None => None
            end).
Proof.
  exact (close_all_closes_initialized (tree_ops := small_tree) (lifecycle := stand_in)
           cs42 heap42 store42_ok).
Defined.

Lemma session42_coherent : coherent {| cache_ := {[42 := loc42]} |} cs42.
Proof.
  intros id l H. cbn [cache_] in H.
  apply lookup_singleton_Some in H. destruct H as [<- <-]. reflexivity.
Qed.

Lemma session_cache_is_transparent_witness :
  match fixture_write (float_sample 42 5 1) [] (Some (cache_ {| cache_ := {[42 := loc42]} |}))
          cs42 heap42 with
  | Some r =>
      exists sess',
        fixture_session_write (float_sample 42 5 1) [] {| cache_ := {[42 := loc42]} |}
          cs42 heap42
        = Some {| sw_result := wr_result r; sw_rescue_points := wr_rescue_points r;
                  sw_session := sess'; sw_heap := wr_heap r |}
        /\ wr_cache r = Some (cache_ sess')
        /\ coherent sess' cs42
  | None =>
      fixture_session_write (float_sample 42 5 1) [] {| cache_ := {[42 := loc42]} |}
        cs42 heap42 = None
  end.
Proof.
  apply (session_cache_is_transparent (tree_ops := small_tree) P_FLOAT P_EVENT SIZEOF_SAMPLE
           (float_sample 42 5 1) [] {| cache_ := {[42 := loc42]} |} cs42 heap42
           session42_coherent).
  left. reflexivity.
Defined.

End LifecycleExamples.

(** ** The rows of the RESP parser *)

Section RowLoopFacts.

Import RESPWorker.

Context {db : Type}.
Variable write : Sample -> db -> Status * db.
Variables PAYLOAD_FLOAT PAYLOAD_EVENT sizeof_Sample : Z.
Variable evt : Sample.

Local Abbreviation write_columns :=
  (RESPWorker.write_columns write PAYLOAD_EVENT sizeof_Sample evt).
Local Abbreviation column_sample :=
  (RESPWorker.column_sample PAYLOAD_FLOAT PAYLOAD_EVENT sizeof_Sample evt).
Local Abbreviation send := (RESPWorker.send write).

Lemma write_columns_sends (row : list (ParamId * float * list byte))
    (sample current : Sample) (d : db) :
  timestamp current = timestamp sample ->
  size (payload current) = sizeof_Sample ->
  type (payload current) = PAYLOAD_FLOAT ->
  data (payload current) = data (payload sample) ->
  match write_columns row current d with
  | RowWritten _ d' => send (map (column_sample sample) row) d = (Ok, d')
  | RowFailed status d' =>
      send (map (column_sample sample) row) d = (status, d') /\ IsOk status = false
  end.
Proof.
  revert current d. induction row as [| [[id value] event] rest IH];
    intros current d Hts Hsz Hty Hdata.
  - reflexivity.
  - cbn [RESPWorker.write_columns map RESPWorker.send RESPWorker.column_sample].
    destruct (0 <? i64 id).
    + assert (E : value_sample current id value
                  = {| paramid := id; timestamp := timestamp sample;
                       payload := {| float64 := value; size := sizeof_Sample;
                                     type := PAYLOAD_FLOAT;
                                     data := data (payload sample) |} |}).
      { unfold value_sample. rewrite Hts, Hsz, Hty, Hdata. reflexivity. }
      rewrite E. destruct (write _ d) as [status d1].
      destruct (IsOk status) eqn:Eok; cbn [negb].
      * apply IH; reflexivity.
      * split; [reflexivity | exact Eok].
    + unfold event_sample. rewrite Hts.
      destruct (write _ d) as [status d1].
      destruct (IsOk status) eqn:Eok; cbn [negb].
      * apply IH; assumption.
      * split; [reflexivity | exact Eok].
Qed.

(** The loop of [RESPProtocolParser::worker] over the columns of a row
    hands the session one sample per column, in the order of the row, until
    a write is refused: each sample is a function of the row's timestamp
    and of its own column only, though the loop reuses one [sample] for
    the numeric columns. A numeric sample has type [PAYLOAD_FLOAT] and the
    size of the header wherever it stands in the row; an event sample has
    type [PAYLOAD_EVENT] and the 16-bit size of header and event. A status
    that is not Ok ends the loop with that status, and no later column is
    written. *)
Theorem write_row_sends_columns
    (row : list (ParamId * float * list byte)) (sample : Sample) (d : db) :
  match write_row write PAYLOAD_FLOAT PAYLOAD_EVENT sizeof_Sample evt row sample d with
  | RowWritten _ d' => send (map (column_sample sample) row) d = (Ok, d')
  | RowFailed status d' =>
      send (map (column_sample sample) row) d = (status, d') /\ IsOk status = false
  end.
Proof.
  unfold write_row. apply write_columns_sends; reflexivity.
Qed.

End RowLoopFacts.

(** ** The mock cursor of the tests as a check of the contract *)

Section CursorMockFacts.

Import Cursor CursorReplay.

Variable TUPLE_BIT : Z.
Variable double_bits : float -> Z.
Variable tuple_elem : list byte -> nat -> float.

Local Abbreviation mock := (cursor_mock TUPLE_BIT double_bits tuple_elem).

Lemma replay_after_done (calls : list call) (m : CursorMock) :
  done m = true -> calls <> [] -> replay (cursor_ops := mock) calls m = None.
Proof.
  intros Hd Hne. destruct calls as [| c rest]; [congruence |].
  cbn [replay]. destruct c; cbn [apply_call put complete set_error set_error_msg mock];
    unfold mock_put, mock_complete, mock_set_error, mock_set_error_msg;
    rewrite Hd; reflexivity.
Qed.

Lemma replay_from (calls : list call) (m : CursorMock) :
  done m = false ->
  match replay (cursor_ops := mock) calls m with
  | Some m1 =>
      well_terminated calls = true
      /\ samples m1 = samples m ++ puts_of calls
      /\ done m1 = existsb terminating calls
  | None => well_terminated calls = false
  end.
Proof.
  revert m. induction calls as [| c rest IH]; intros m Hd.
  - cbn. rewrite app_nil_r. repeat split. exact Hd.
  - assert (Hterm : forall m1, done m1 = true -> samples m1 = samples m ->
              terminating c = true -> puts_of (c :: rest) = puts_of rest ->
              match replay (cursor_ops := mock) rest m1 with
              | Some m2 =>
                  well_terminated (c :: rest) = true
                  /\ samples m2 = samples m ++ puts_of (c :: rest)
                  /\ done m2 = existsb terminating (c :: rest)
              | None => well_terminated (c :: rest) = false
              end).
    { intros m1 Hd1 Hs1 Hc Hp. cbn [well_terminated existsb]. rewrite Hc, Hp.
      destruct rest as [| c' rest'].
      - cbn. rewrite app_nil_r. repeat split; assumption.
      - rewrite replay_after_done by (assumption || discriminate). reflexivity. }
    cbn [replay]. destruct c as [s | | st | st msg];
      cbn [apply_call put complete set_error set_error_msg mock];
      unfold mock_put, mock_complete, mock_set_error, mock_set_error_msg; rewrite Hd.
    + match goal with
      | |- context [replay rest ?m1] => specialize (IH m1 eq_refl)
      end.
      destruct (replay rest _) as [m2 |].
      * destruct IH as (Hw & Hs & Hdone). cbn [samples] in Hs.
        repeat split; try assumption.
        rewrite Hs, <- app_assoc. reflexivity.
      * exact IH.
    + apply Hterm; reflexivity.
    + apply Hterm; reflexivity.
    + apply Hterm; reflexivity.
Qed.

(** The mock cursor of the storage tests checks the contract of the
    cursor: a sequence of calls on a new [CursorMock] runs through without
    the fatal "Cursor invariant broken" exactly when nothing follows the
    first call of [complete] or [set_error]. The mock then holds the samples
    of the [put] calls in their order, and is done exactly when the sequence
    has ended with such a call. *)
Theorem mock_accepts_the_contract (calls : list call) :
  match replay (cursor_ops := mock) calls new_mock with
  | Some m =>
      well_terminated calls = true
      /\ samples m = puts_of calls
      /\ done m = existsb terminating calls
  | None => well_terminated calls = false
  end.
Proof.
  exact (replay_from calls new_mock eq_refl).
Qed.

End CursorMockFacts.

(** ** The dictionary of the RESP parser *)

Section DictionaryFacts.

Import RESPDictionary.

Variable insert : ParamId * ParamId -> idmap -> idmap.

(** All that the language promises of [insert]: the new pair is in the
    map, with the pairs that were there. *)
Hypothesis insert_adds : forall x m, insert x m ≡ₚ x :: m.

Lemma insert_row_adds (uid : ParamId) (row : list ParamId) (m : idmap) :
  insert_row insert uid row m ≡ₚ ((fun v => (uid, v)) <$> row) ++ m.
Proof.
  revert m. induction row as [| v rest IH]; intros m; cbn [insert_row fmap list_fmap].
  - reflexivity.
  - rewrite IH, insert_adds. cbn. symmetry. apply Permutation_middle.
Qed.

Lemma equal_range_perm (uid : ParamId) (m1 m2 : idmap) :
  m1 ≡ₚ m2 -> equal_range uid m1 ≡ₚ equal_range uid m2.
Proof. intros H. unfold equal_range. rewrite H. reflexivity. Qed.

Lemma equal_range_row (uid uid' : ParamId) (row : list ParamId) (m : idmap) :
  equal_range uid' (((fun v => (uid, v)) <$> row) ++ m)
  = (if decide (uid = uid') then row else []) ++ equal_range uid' m.
Proof.
  unfold equal_range. rewrite list.filter_app, fmap_app. f_equal.
  induction row as [| v rest IH]; cbn [fmap list_fmap].
  - destruct (decide (uid = uid')); reflexivity.
  - rewrite list.filter_cons. cbn [fst].
    destruct (decide (uid = uid')) as [E | E]; cbn [fmap list_fmap snd]; rewrite IH;
      reflexivity.
Qed.

Lemma count_zero (uid : ParamId) (m : idmap) :
  count uid m = O -> equal_range uid m = [].
Proof.
  unfold count, equal_range. intros H.
  destruct (filter (fun p => fst p = uid) m); [reflexivity | discriminate].
Qed.

(** A row stored in the dictionary of the RESP parser can be read back:
    [update_dict] accepts a row for a uid that has no entry, and
    [read_dict] then returns the number of ids stored, or [nvalues] if that
    is less, and ids of the row, all of them when there is room; the order
    is the one of the library's multimap. The ids of other uids are the same
    as before, and a second row for the uid is refused with the map
    unchanged, so the first definition of a uid stays. *)
Theorem update_dict_then_read_dict
    (uid : ParamId) (row : list ParamId) (nvalues : Z) (m : idmap) :
  count uid m = O ->
  0 <= nvalues <= Z.of_nat (length row) ->
  Z.of_nat (length row) < 2 ^ 31 ->
  exists m',
    update_dict insert uid row nvalues m = (true, m')
    /\ (forall k, nvalues <= k ->
          exists ids, read_dict uid k m' = (nvalues, ids)
                      /\ ids ≡ₚ take (Z.to_nat nvalues) row)
    /\ (forall k, 0 <= k <= nvalues ->
          exists ids, read_dict uid k m' = (k, ids)
                      /\ forall id, id ∈ ids -> id ∈ take (Z.to_nat nvalues) row)
    /\ (forall uid', uid' <> uid -> equal_range uid' m' ≡ₚ equal_range uid' m)
    /\ (0 < nvalues ->
        forall row2 n2, update_dict insert uid row2 n2 m' = (false, m')).
Proof.
  intros Hcount Hn Hlen.
  set (stored := take (Z.to_nat nvalues) row).
  set (m' := insert_row insert uid stored m).
  assert (Hstored : length stored = Z.to_nat nvalues).
  { unfold stored. rewrite length_take. lia. }
  assert (Hrange : equal_range uid m' ≡ₚ stored).
  { unfold m'. rewrite (equal_range_perm uid _ _ (insert_row_adds uid stored m)).
    rewrite equal_range_row. destruct (decide (uid = uid)); [| congruence].
    rewrite (count_zero uid m Hcount), app_nil_r. reflexivity. }
  assert (Hrlen : length (equal_range uid m') = Z.to_nat nvalues).
  { rewrite (Permutation_length Hrange). exact Hstored. }
  exists m'. split; [| split; [| split; [| split]]].
  - unfold update_dict. rewrite Hcount. reflexivity.
  - intros k Hk. unfold read_dict.
    replace (k <? 0) with false by (symmetry; apply Z.ltb_ge; lia).
    rewrite take_ge by lia. eexists. split; [| exact Hrange].
    rewrite Hrlen. f_equal. rewrite i32_small; lia.
  - intros k Hk. unfold read_dict.
    replace (k <? 0) with false by (symmetry; apply Z.ltb_ge; lia).
    eexists. split.
    + rewrite length_take, Hrlen. f_equal. rewrite i32_small; lia.
    + intros id Hid. rewrite <- Hrange.
      exact (subseteq_take _ _ id Hid).
  - intros uid' Hne. unfold m'.
    rewrite (equal_range_perm uid' _ _ (insert_row_adds uid stored m)).
    rewrite equal_range_row. destruct (decide (uid = uid')); [congruence | reflexivity].
  - intros Hpos row2 n2. unfold update_dict.
    assert (Hc : count uid m' <> O).
    { unfold count. unfold equal_range in Hrlen. rewrite length_fmap in Hrlen. lia. }
    destruct (count uid m'); [congruence | reflexivity].
Qed.

End DictionaryFacts.

Lemma update_dict_then_read_dict_witness :
  exists m',
    RESPDictionary.update_dict cons 17 [3; 4] 2 [(1, 5)] = (true, m')
    /\ (forall k, 2 <= k ->
          exists ids, RESPDictionary.read_dict 17 k m' = (2, ids)
                      /\ ids ≡ₚ take (Z.to_nat 2) [3; 4])
    /\ (forall k, 0 <= k <= 2 ->
          exists ids, RESPDictionary.read_dict 17 k m' = (k, ids)
                      /\ forall id, id ∈ ids -> id ∈ take (Z.to_nat 2) [3; 4])
    /\ (forall uid', uid' <> 17 ->
          RESPDictionary.equal_range uid' m' ≡ₚ RESPDictionary.equal_range uid' [(1, 5)])
    /\ (0 < 2 ->
        forall row2 n2, RESPDictionary.update_dict cons 17 row2 n2 m' = (false, m')).
Proof.
  apply (update_dict_then_read_dict cons (fun x m => Permutation_refl (x :: m))
           17 [3; 4] 2 [(1, 5)]).
  - reflexivity.
  - simpl. lia.
  - simpl. lia.
Defined.
